(** * Verification of the tecotec blog scraper and the blog-list formatter

    The development embeds the two tools of the repository,
    [tecotecBlogScraperTool] and [formatBlogListTool], as Rocq functions and
    settles the properties their specification states.

    JavaScript values are modelled as the language defines them:
    - a string is its sequence of UTF-16 code units;
    - a [Date] is its time value, milliseconds since the epoch, or NaN;
    - an optional field or attribute is an [option];
    - the mutable [articles] array and the requests sent are threaded as state;
    - an exception is a result of its own, caught where the source catches. *)

From Stdlib Require Import ZArith List Bool Ascii String Lia Permutation Sorted.
From Stdlib Require Decimal DecimalZ.
Import ListNotations.
Local Open Scope Z_scope.

(* ================================================================= *)
(** ** JavaScript strings *)

Module JS.

(** A string is the list of its UTF-16 code units. *)
Definition jsstring := list Z.

Definition str_eqb (a b : jsstring) : bool :=
  if list_eq_dec Z.eq_dec a b then true else false.

(** Decoder of the UTF-8 bytes of a Rocq literal into code units, so that
    literals of the source can be written as they are. *)
Fixpoint utf8_units (fuel : nat) (bs : list Z) : jsstring :=
  match fuel with
  | O => []
  | S fuel' =>
    match bs with
    | [] => []
    | b0 :: r0 =>
      if b0 <? 128 then b0 :: utf8_units fuel' r0
      else if b0 <? 224 then
        match r0 with
        | b1 :: r1 => ((b0 - 192) * 64 + (b1 - 128)) :: utf8_units fuel' r1
        | _ => []
        end
      else if b0 <? 240 then
        match r0 with
        | b1 :: b2 :: r2 =>
          ((b0 - 224) * 4096 + (b1 - 128) * 64 + (b2 - 128)) :: utf8_units fuel' r2
        | _ => []
        end
      else
        match r0 with
        | b1 :: b2 :: b3 :: r3 =>
          let cp := (b0 - 240) * 262144 + (b1 - 128) * 4096
                    + (b2 - 128) * 64 + (b3 - 128) - 65536 in
          (55296 + cp / 1024) :: (56320 + cp mod 1024) :: utf8_units fuel' r3
        | _ => []
        end
    end
  end.

Definition bytes_of (s : string) : list Z :=
  map (fun a => Z.of_N (N_of_ascii a)) (list_ascii_of_string s).

Definition js (s : string) : jsstring :=
  utf8_units (String.length s) (bytes_of s).

(** Truthiness of a possibly undefined string: the empty string is falsy. *)
Definition truthy (o : option jsstring) : bool :=
  match o with
  | Some (_ :: _) => true
  | _ => false
  end.

(** [o || d] on a possibly undefined string. *)
Definition str_or (o : option jsstring) (d : jsstring) : jsstring :=
  match o with
  | Some (c :: r) => c :: r
  | _ => d
  end.

(** WhiteSpace and LineTerminator code units: what [\s] matches and what
    [String.prototype.trim] strips. *)
Definition is_space (c : Z) : bool :=
  ((9 <=? c) && (c <=? 13)) || (c =? 32) || (c =? 160) || (c =? 5760)
  || ((8192 <=? c) && (c <=? 8202)) || (c =? 8232) || (c =? 8233)
  || (c =? 8239) || (c =? 8287) || (c =? 12288) || (c =? 65279).

Definition is_digit (c : Z) : bool := (48 <=? c) && (c <=? 57).

Fixpoint trimStart (s : jsstring) : jsstring :=
  match s with
  | c :: r => if is_space c then trimStart r else s
  | [] => []
  end.

Definition trim (s : jsstring) : jsstring :=
  List.rev (trimStart (List.rev (trimStart s))).

(** [s.split(sep)[0]] for a one-unit separator. *)
Fixpoint split_head (sep : Z) (s : jsstring) : jsstring :=
  match s with
  | [] => []
  | c :: r => if c =? sep then [] else c :: split_head sep r
  end.

(** [s.padStart(2, '0')]. *)
Definition padStart2 (s : jsstring) : jsstring :=
  match s with
  | [] => [48; 48]
  | [c] => [48; c]
  | _ => s
  end.

(** [arr.join(sep)]. *)
Fixpoint join (sep : jsstring) (l : list jsstring) : jsstring :=
  match l with
  | [] => []
  | [x] => x
  | x :: r => x ++ sep ++ join sep r
  end.

(** Number to string, for an integer (below 10^21 in size, where the
    language writes all digits). *)
Fixpoint uint_units (u : Decimal.uint) : jsstring :=
  match u with
  | Decimal.Nil => []
  | Decimal.D0 r => 48 :: uint_units r
  | Decimal.D1 r => 49 :: uint_units r
  | Decimal.D2 r => 50 :: uint_units r
  | Decimal.D3 r => 51 :: uint_units r
  | Decimal.D4 r => 52 :: uint_units r
  | Decimal.D5 r => 53 :: uint_units r
  | Decimal.D6 r => 54 :: uint_units r
  | Decimal.D7 r => 55 :: uint_units r
  | Decimal.D8 r => 56 :: uint_units r
  | Decimal.D9 r => 57 :: uint_units r
  end.

Definition numToString (n : Z) : jsstring :=
  match Z.to_int n with
  | Decimal.Pos u => uint_units u
  | Decimal.Neg u => 45 :: uint_units u
  end.

(** [a || b] on strings. *)
Definition or_else (a b : jsstring) : jsstring :=
  match a with
  | [] => b
  | _ => a
  end.

(** [Array.prototype.sort(compareFn)]: a stable sort, here by insertion.  The
    comparator puts [x] before [y] when [cmp x y <= 0].  The language fixes
    the result of the built-in for a consistent comparator only: it is then
    the one stable sorted permutation, which is what [sort] returns
    ([SortModel.sort_is_the_stable_sort]).  Both
    comparators of this program subtract times and count an invalid time as
    a tie; they are consistent on a list whose dates all parse, and on one
    none of whose dates parses.  On a list that mixes the two the order of
    the built-in is left to the engine, and [sort] stands for it only where
    a statement says so. *)
Section Sort.
Context {A : Type} (cmp : A -> A -> Z).

Fixpoint insert (x : A) (l : list A) : list A :=
  match l with
  | [] => [x]
  | y :: r => if cmp x y <=? 0 then x :: y :: r else y :: insert x r
  end.

Fixpoint sort (l : list A) : list A :=
  match l with
  | [] => []
  | x :: r => insert x (sort r)
  end.

End Sort.

End JS.
Import JS.

(* ================================================================= *)
(** ** Regular expressions

    The two patterns of the scraper use literals, character classes with greedy
    quantifiers and capture groups, and nothing else.  A pattern is a list of
    such items; matching backtracks over the greedy counts, longest first, as
    the language prescribes. *)

Module Regex.

Inductive item :=
  | Cls (p : Z -> bool) (lo : nat) (hi : option nat)  (* class{lo,hi}, greedy *)
  | Open (g : nat)                                    (* ( of group g *)
  | Close (g : nat).                                  (* ) of group g *)

Definition Lit (c : Z) : item := Cls (Z.eqb c) 1 (Some 1%nat).
Definition lits (s : jsstring) : list item := map Lit s.

(** Captures: the groups still open with what they consumed so far (reversed),
    and the groups closed. *)
Record caps := { opened : list (nat * jsstring); closed : list (nat * jsstring) }.

Definition no_caps : caps := {| opened := []; closed := [] |}.

Definition consume (cs : jsstring) (k : caps) : caps :=
  {| opened := map (fun '(g, acc) => (g, List.rev cs ++ acc)) (opened k);
     closed := closed k |}.

Definition open_group (g : nat) (k : caps) : caps :=
  {| opened := (g, []) :: opened k; closed := closed k |}.

Definition close_group (g : nat) (k : caps) : caps :=
  match opened k with
  | (g', acc) :: r => {| opened := r; closed := (g', List.rev acc) :: closed k |}
  | [] => k
  end.

Fixpoint group (g : nat) (l : list (nat * jsstring)) : option jsstring :=
  match l with
  | [] => None
  | (g', v) :: r => if Nat.eqb g g' then Some v else group g r
  end.

(** Length of the longest prefix of [s] in the class, at most [hi]. *)
Fixpoint run (p : Z -> bool) (hi : option nat) (s : jsstring) : nat :=
  match s with
  | [] => O
  | c :: r =>
    match hi with
    | Some O => O
    | Some (S h) => if p c then S (run p (Some h) r) else O
    | None => if p c then S (run p None r) else O
    end
  end.

(** Tries the counts [lo + n], ..., [lo], in this order. *)
Fixpoint try_down {A} (n lo : nat) (k : nat -> option A) : option A :=
  match k (lo + n)%nat with
  | Some r => Some r
  | None => match n with O => None | S n' => try_down n' lo k end
  end.

Fixpoint match_here (re : list item) (s : jsstring) (k : caps) : option caps :=
  match re with
  | [] => Some k
  | Open g :: re' => match_here re' s (open_group g k)
  | Close g :: re' => match_here re' s (close_group g k)
  | Cls p lo hi :: re' =>
    let n := run p hi s in
    if (n <? lo)%nat then None
    else try_down (n - lo) lo
           (fun j => match_here re' (skipn j s) (consume (firstn j s) k))
  end.

(** [s.match(re)] without the global flag: the leftmost match. *)
Fixpoint js_match (re : list item) (s : jsstring) : option caps :=
  match match_here re s no_caps with
  | Some k => Some k
  | None => match s with [] => None | _ :: r => js_match re r end
  end.

Definition capture (g : nat) (k : caps) : jsstring :=
  match group g (closed k) with Some v => v | None => [] end.

End Regex.
Import Regex.

(* ================================================================= *)
(** ** Dates

    Time values and the date-time string format as ECMA-262 defines them
    (Day, TimeWithinDay, DayFromYear, YearFromTime, MonthFromTime, MakeDay,
    TimeClip, Date.parse, toISOString).  What the standard leaves to the host
    is a field of [Host]: the offset of local time (one offset for the whole
    run), and the parse of a string that is not in the standard format. *)

Module Date.

Record Host := {
  localTZA : Z;                          (* local time minus UTC, in ms *)
  legacyParse : jsstring -> option Z     (* strings outside the format *)
}.

Definition msPerDay : Z := 86400000.
Definition maxTime : Z := 8640000000000000.

Definition Day (t : Z) : Z := t / msPerDay.
Definition TimeWithinDay (t : Z) : Z := t mod msPerDay.

Definition DaysInYear (y : Z) : Z :=
  if negb (y mod 4 =? 0) then 365
  else if negb (y mod 100 =? 0) then 366
  else if negb (y mod 400 =? 0) then 365
  else 366.

Definition DayFromYear (y : Z) : Z :=
  365 * (y - 1970) + (y - 1969) / 4 - (y - 1901) / 100 + (y - 1601) / 400.

(** The largest year whose first day is not after day [d]: an estimate from
    the mean length of a year, corrected by one. *)
Definition YearFromDay (d : Z) : Z :=
  let y := 1970 + d * 400 / 146097 in
  if d <? DayFromYear y then y - 1
  else if DayFromYear (y + 1) <=? d then y + 1
  else y.

Definition YearFromTime (t : Z) : Z := YearFromDay (Day t).

Definition leapDays (y : Z) : Z := DaysInYear y - 365.

(** Day within the year on which month [m] (0 to 11) starts; 12 gives the
    length of the year. *)
Definition monthStart (leap : Z) (m : Z) : Z :=
  if m =? 0 then 0
  else if m =? 1 then 31
  else if m =? 2 then 59 + leap
  else if m =? 3 then 90 + leap
  else if m =? 4 then 120 + leap
  else if m =? 5 then 151 + leap
  else if m =? 6 then 181 + leap
  else if m =? 7 then 212 + leap
  else if m =? 8 then 243 + leap
  else if m =? 9 then 273 + leap
  else if m =? 10 then 304 + leap
  else if m =? 11 then 334 + leap
  else 365 + leap.

Definition DaysInMonth (y m : Z) : Z :=
  monthStart (leapDays y) (m + 1) - monthStart (leapDays y) m.

Definition DayWithinYear (t : Z) : Z := Day t - DayFromYear (YearFromTime t).

Definition monthOfDay (leap d : Z) : Z :=
  if d <? 31 then 0
  else if d <? 59 + leap then 1
  else if d <? 90 + leap then 2
  else if d <? 120 + leap then 3
  else if d <? 151 + leap then 4
  else if d <? 181 + leap then 5
  else if d <? 212 + leap then 6
  else if d <? 243 + leap then 7
  else if d <? 273 + leap then 8
  else if d <? 304 + leap then 9
  else if d <? 334 + leap then 10
  else 11.

Definition MonthFromTime (t : Z) : Z :=
  monthOfDay (leapDays (YearFromTime t)) (DayWithinYear t).

Definition DateFromTime (t : Z) : Z :=
  DayWithinYear t
  - monthStart (leapDays (YearFromTime t)) (MonthFromTime t) + 1.

Definition HourFromTime (t : Z) : Z := (TimeWithinDay t / 3600000) mod 24.
Definition MinFromTime (t : Z) : Z := (TimeWithinDay t / 60000) mod 60.
Definition SecFromTime (t : Z) : Z := (TimeWithinDay t / 1000) mod 60.
Definition msFromTime (t : Z) : Z := TimeWithinDay t mod 1000.

Definition MakeDay (year month date : Z) : Z :=
  DayFromYear year + monthStart (leapDays year) month + date - 1.

Definition MakeTime (h m s ms : Z) : Z :=
  h * 3600000 + m * 60000 + s * 1000 + ms.

Definition MakeDate (day time : Z) : Z := day * msPerDay + time.

(** [None] is NaN, the time value of an invalid date. *)
Definition TimeClip (t : option Z) : option Z :=
  match t with
  | Some v => if (- maxTime <=? v) && (v <=? maxTime) then Some v else None
  | None => None
  end.

(** *** Decimal fields *)

Fixpoint digits (w : nat) (n : Z) : jsstring :=
  match w with
  | O => []
  | S w' => digits w' (n / 10) ++ [48 + n mod 10]
  end.

Fixpoint take_digits (w : nat) (acc : Z) (s : jsstring) : option (Z * jsstring) :=
  match w with
  | O => Some (acc, s)
  | S w' =>
    match s with
    | c :: r => if is_digit c then take_digits w' (10 * acc + (c - 48)) r else None
    | [] => None
    end
  end.

Definition expect (c : Z) (s : jsstring) : option jsstring :=
  match s with
  | c' :: r => if c' =? c then Some r else None
  | [] => None
  end.

(** *** toISOString *)

Definition yearString (y : Z) : jsstring :=
  if (0 <=? y) && (y <=? 9999) then digits 4 y
  else (if y <? 0 then 45 else 43) :: digits 6 (Z.abs y).

Definition isoDateString (t : Z) : jsstring :=
  yearString (YearFromTime t) ++ [45] ++ digits 2 (MonthFromTime t + 1)
  ++ [45] ++ digits 2 (DateFromTime t).

Definition isoTimeString (t : Z) : jsstring :=
  digits 2 (HourFromTime t) ++ [58] ++ digits 2 (MinFromTime t) ++ [58]
  ++ digits 2 (SecFromTime t) ++ [46] ++ digits 3 (msFromTime t) ++ [90].

(** [None] stands for the RangeError an invalid date raises. *)
Definition toISOString (d : option Z) : option jsstring :=
  match d with
  | Some t => Some (isoDateString t ++ [84] ++ isoTimeString t)
  | None => None
  end.

(** *** Date.parse *)

Definition parse_year (s : jsstring) : option (Z * jsstring) :=
  match s with
  | c :: r =>
    if c =? 43 then take_digits 6 0 r
    else if c =? 45 then
      match take_digits 6 0 r with
      | Some (y, r') => if y =? 0 then None else Some (- y, r')
      | None => None
      end
    else take_digits 4 0 s
  | [] => None
  end.

(** Year, month (1 to 12), day and the rest of the string, for the forms
    YYYY, YYYY-MM and YYYY-MM-DD. *)
Definition parse_date_fields (s : jsstring) : option (Z * Z * Z * jsstring) :=
  match parse_year s with
  | None => None
  | Some (y, r) =>
    match expect 45 r with
    | None => Some (y, 1, 1, r)
    | Some r1 =>
      match take_digits 2 0 r1 with
      | None => None
      | Some (m, r2) =>
        match expect 45 r2 with
        | None => Some (y, m, 1, r2)
        | Some r3 =>
          match take_digits 2 0 r3 with
          | None => None
          | Some (d, r4) => Some (y, m, d, r4)
          end
        end
      end
    end
  end.

(** Offset Z or +HH:mm or -HH:mm, to the end of the string; with no offset a
    date-time is local time ([None]). *)
Definition parse_offset (s : jsstring) : option (option Z) :=
  match s with
  | [] => Some None
  | c :: r =>
    if c =? 90 then match r with [] => Some (Some 0) | _ => None end
    else if (c =? 43) || (c =? 45) then
      match take_digits 2 0 r with
      | None => None
      | Some (h, r1) =>
        match expect 58 r1 with
        | None => None
        | Some r2 =>
          match take_digits 2 0 r2 with
          | Some (m, []) =>
            if (h <=? 23) && (m <=? 59)
            then Some (Some ((if c =? 43 then 1 else -1) * (h * 3600000 + m * 60000)))
            else None
          | _ => None
          end
        end
      end
    else None
  end.

(** THH:mm, THH:mm:ss or THH:mm:ss.sss, then the offset. *)
Definition parse_time (s : jsstring) : option (Z * option Z) :=
  match expect 84 s with
  | None => None
  | Some r0 =>
    match take_digits 2 0 r0 with
    | None => None
    | Some (h, r1) =>
      match expect 58 r1 with
      | None => None
      | Some r2 =>
        match take_digits 2 0 r2 with
        | None => None
        | Some (m, r3) =>
          let fields :=
            match expect 58 r3 with
            | None => Some (0, 0, r3)
            | Some r4 =>
              match take_digits 2 0 r4 with
              | None => None
              | Some (sec, r5) =>
                match expect 46 r5 with
                | None => Some (sec, 0, r5)
                | Some r6 =>
                  match take_digits 3 0 r6 with
                  | None => None
                  | Some (ms, r7) => Some (sec, ms, r7)
                  end
                end
              end
            end in
          match fields with
          | None => None
          | Some (sec, ms, r8) =>
            match parse_offset r8 with
            | None => None
            | Some off =>
              if ((h <=? 23) && (m <=? 59) && (sec <=? 59))
                 || ((h =? 24) && (m =? 0) && (sec =? 0) && (ms =? 0))
              then Some (MakeTime h m sec ms, off)
              else None
            end
          end
        end
      end
    end
  end.

(** A string in the date-time string format; a date-only form is UTC. *)
Definition parse_iso (tza : Z) (s : jsstring) : option Z :=
  match parse_date_fields s with
  | None => None
  | Some (y, m, d, r) =>
    if (1 <=? m) && (m <=? 12) && (1 <=? d) && (d <=? DaysInMonth y (m - 1)) then
      let day := MakeDay y (m - 1) d in
      match r with
      | [] => Some (MakeDate day 0)
      | _ =>
        match parse_time r with
        | None => None
        | Some (tm, Some off) => Some (MakeDate day tm - off)
        | Some (tm, None) => Some (MakeDate day tm - tza)
        end
      end
    else None
  end.

Definition parse (h : Host) (s : jsstring) : option Z :=
  TimeClip (match parse_iso (localTZA h) s with
            | Some t => Some t
            | None => legacyParse h s
            end).

(** [new Date(s).getFullYear()]: the year in local time; [None] is NaN. *)
Definition getFullYear (h : Host) (d : option Z) : option Z :=
  match d with
  | Some t => Some (YearFromTime (t + localTZA h))
  | None => None
  end.

End Date.

(* ================================================================= *)
(** ** The scraper: tecotecBlogScraperTool *)

Module Scraper.

Record Article := {
  title : jsstring;
  url : jsstring;
  date : jsstring;
  author : jsstring;
  authorFromIntro : jsstring;
  authorFromData : jsstring;
  summary : jsstring;
  categories : list jsstring
}.

(** *** The site, as cheerio shows it

    What the selectors of the source return on one [.archive-entry] node. *)
Record Entry := {
  entry_title_text : jsstring;             (* find('.entry-title a').text() *)
  entry_title_href : option jsstring;      (* find('.entry-title a').attr('href') *)
  archive_date_datetime : option jsstring; (* find('.archive-date time').attr('datetime') *)
  archive_date_text : jsstring;            (* find('.archive-date time').text() *)
  entry_author_name_text : jsstring;       (* find('.entry-author-name').text() *)
  data_user_name : option jsstring;        (* attr('data-user-name') *)
  entry_description_text : jsstring;       (* find('.entry-description').text() *)
  tag_labels : list jsstring               (* text() of each .archive-entry-tag-label *)
}.

Record Page := {
  archive_entries : list Entry;            (* $('.archive-entry') *)
  pager_next_href : option jsstring        (* $('.pager-next a').attr('href') *)
}.

(** What [fetch(pageUrl)] gives: it rejects, or it resolves to a response with
    a status and a body; [None] is a body that [response.text()] or
    [cheerio.load] fails on. *)
Inductive FetchResult :=
  | NetworkError
  | Responded (status : Z) (document : option Page).

(** *** State, exceptions and the monad of the tool *)

Inductive exn := FetchError | BodyError | RangeError.

Record State := {
  articles : list Article;     (* the array [articles] *)
  requests : list jsstring     (* the page URLs fetched so far *)
}.

Inductive result (A : Type) :=
  | Ok (a : A) (s : State)
  | Throw (e : exn) (s : State)
  | Diverge.                   (* the loop was given too little fuel *)
Arguments Ok {A} a s.
Arguments Throw {A} e s.
Arguments Diverge {A}.

Definition M (A : Type) := State -> result A.

Definition ret {A} (a : A) : M A := fun s => Ok a s.

Definition bind {A B} (m : M A) (k : A -> M B) : M B :=
  fun s =>
    match m s with
    | Ok a s' => k a s'
    | Throw e s' => Throw e s'
    | Diverge => Diverge
    end.

Notation "x <- m ;; k" := (bind m (fun x => k))
  (at level 61, m at next level, right associativity).
Notation "m ;; k" := (bind m (fun _ => k))
  (at level 61, right associativity).

Definition throw {A} (e : exn) : M A := fun s => Throw e s.

Definition try_catch {A} (m : M A) (handler : exn -> M A) : M A :=
  fun s =>
    match m s with
    | Throw e s' => handler e s'
    | r => r
    end.

Definition getArticles : M (list Article) := fun s => Ok (articles s) s.

Definition push (a : Article) : M unit :=
  fun s => Ok tt {| articles := articles s ++ [a]; requests := requests s |}.

Definition setArticles (l : list Article) : M unit :=
  fun s => Ok tt {| articles := l; requests := requests s |}.

(** [entries.each(callback)]. *)
Fixpoint each {A} (f : A -> M unit) (l : list A) : M unit :=
  match l with
  | [] => ret tt
  | x :: r => f x ;; each f r
  end.

Definition initial : State := {| articles := []; requests := [] |}.

(** *** Constants of the source *)

Definition blogUrl : jsstring := js "https://tec.tecotec.co.jp/".
Definition defaultAuthor : jsstring := js "テコテック".

Definition not_digit (c : Z) : bool := negb (is_digit c).

(** /(\d{4})[^\d]+(\d{1,2})[^\d]+(\d{1,2})/ *)
Definition dateRegex : list item :=
  [Open 1; Cls is_digit 4 (Some 4%nat); Close 1;
   Cls not_digit 1 None;
   Open 2; Cls is_digit 1 (Some 2%nat); Close 2;
   Cls not_digit 1 None;
   Open 3; Cls is_digit 1 (Some 2%nat); Close 3].

Definition kuten : Z := 12290.   (* the ideographic full stop *)

Definition is_intro_punct (c : Z) : bool :=
  (c =? kuten) || (c =? 12289) || (c =? 46) || (c =? 33) || (c =? 65281).

(** /こんにちは[。、\.!！]?\s*([^。]+部の([^\s。]+))です/ *)
Definition introRegex : list item :=
  lits (js "こんにちは")
  ++ [Cls is_intro_punct 0 (Some 1%nat); Cls is_space 0 None;
      Open 1; Cls (fun c => negb (c =? kuten)) 1 None]
  ++ lits (js "部の")
  ++ [Open 2; Cls (fun c => negb (is_space c || (c =? kuten))) 1 None;
      Close 2; Close 1]
  ++ lits (js "です").

(** [article.url === url], the right side possibly undefined. *)
Definition same_url (a : Article) (u : option jsstring) : bool :=
  match u with
  | Some v => str_eqb (url a) v
  | None => false
  end.

(** [a >= b] and [a <= b] on dates: false as soon as one is invalid. *)
Definition date_le (a b : option Z) : bool :=
  match a, b with
  | Some x, Some y => x <=? y
  | _, _ => false
  end.

Section Tool.

Variable host : Date.Host.
Variable fetch : jsstring -> FetchResult.

(** The [dateText] of an entry: the datetime attribute, else the triple found
    in the text of the time element. *)
Definition entryDateText (e : Entry) : option jsstring :=
  let dateText := archive_date_datetime e in
  if negb (truthy dateText) then
    let dateContent := trim (archive_date_text e) in
    match js_match dateRegex dateContent with
    | Some m =>
      Some (capture 1 m ++ [45] ++ padStart2 (capture 2 m)
            ++ [45] ++ padStart2 (capture 3 m))
    | None => dateText
    end
  else dateText.

Definition entryAuthorFromIntro (e : Entry) : jsstring :=
  let summaryText := or_else (trim (entry_description_text e)) [] in
  match js_match introRegex summaryText with
  | Some m => or_else (capture 2 m) []
  | None => []
  end.

(** [toISOString] in the monad: an invalid date throws. *)
Definition isoString (d : option Z) : M jsstring :=
  match Date.toISOString d with
  | Some s => ret s
  | None => throw RangeError
  end.

(** The callback of [entries.each]. *)
Definition processEntry (startDateObj endDateObj : option Z) (e : Entry) : M unit :=
  let title := trim (entry_title_text e) in
  let url := entry_title_href e in
  let dateText := entryDateText e in
  let authorFromEntry := trim (entry_author_name_text e) in
  let authorFromData := str_or (data_user_name e) [] in
  let summary := trim (entry_description_text e) in
  let authorFromIntro := entryAuthorFromIntro e in
  let categories := map trim (tag_labels e) in
  if truthy dateText then
    let articleDate := Date.parse host (str_or dateText []) in
    _ <- isoString articleDate ;;                       (* logged *)
    if date_le startDateObj articleDate && date_le articleDate endDateObj then
      arts <- getArticles ;;
      let isDuplicate := existsb (fun article => same_url article url) arts in
      if isDuplicate then ret tt
      else
        let author :=
          or_else (or_else (or_else authorFromEntry authorFromData)
                           authorFromIntro) defaultAuthor in
        iso <- isoString articleDate ;;
        push {| title := title;
                url := str_or url [];
                date := split_head 84 iso;
                author := author;
                authorFromIntro := authorFromIntro;
                authorFromData := authorFromData;
                summary := or_else summary (title ++ js "...");
                categories := categories |}
    else ret tt
  else ret tt.

Definition pageUrlOf (baseUrl : jsstring) (currentPage : Z) : jsstring :=
  if currentPage =? 1 then baseUrl
  else baseUrl ++ js "?page=" ++ numToString currentPage.

(** [await fetch(pageUrl, ...)], recording the request. *)
Definition doFetch (pageUrl : jsstring) : M (Z * option Page) :=
  fun s =>
    let s' := {| articles := articles s; requests := requests s ++ [pageUrl] |} in
    match fetch pageUrl with
    | NetworkError => Throw FetchError s'
    | Responded status document => Ok (status, document) s'
    end.

(** How one turn of the while loop ends. *)
Inductive control :=
  | Break
  | Next (currentPage : Z) (hasNextPage : bool).

(** The body of the try block. *)
Definition tryBlock (startDateObj endDateObj : option Z)
    (baseUrl : jsstring) (currentPage : Z) : M control :=
  let pageUrl := pageUrlOf baseUrl currentPage in
  response <- doFetch pageUrl ;;
  let '(status, document) := response in
  if negb (status =? 200) then ret Break
  else
    match document with
    | None => throw BodyError
    | Some page =>
      let entries := archive_entries page in
      match entries with
      | [] => ret (Next currentPage false)              (* continue *)
      | _ =>
        each (processEntry startDateObj endDateObj) entries ;;
        let hasNextPage := truthy (pager_next_href page) in
        ret (Next (currentPage + 1) hasNextPage)
      end
    end.

(** try { ... } catch { hasNextPage = false } *)
Definition pageTurn (startDateObj endDateObj : option Z)
    (baseUrl : jsstring) (currentPage : Z) : M control :=
  try_catch (tryBlock startDateObj endDateObj baseUrl currentPage)
            (fun _ => ret (Next currentPage false)).

(** while (hasNextPage && currentPage <= maxPages) { ... } *)
Fixpoint whileLoop (fuel : nat) (startDateObj endDateObj : option Z)
    (baseUrl : jsstring) (maxPages : Z)
    (currentPage : Z) (hasNextPage : bool) : M unit :=
  if hasNextPage && (currentPage <=? maxPages) then
    match fuel with
    | O => fun _ => Diverge
    | S fuel' =>
      c <- pageTurn startDateObj endDateObj baseUrl currentPage ;;
      match c with
      | Break => ret tt
      | Next currentPage' hasNextPage' =>
        whileLoop fuel' startDateObj endDateObj baseUrl maxPages
                  currentPage' hasNextPage'
      end
    end
  else ret tt.

(** for (const baseUrl of urlsToCheck) { ... } *)
Fixpoint forUrls (fuel : nat) (startDateObj endDateObj : option Z)
    (maxPages : Z) (urlsToCheck : list jsstring) : M unit :=
  match urlsToCheck with
  | [] => ret tt
  | baseUrl :: rest =>
    whileLoop fuel startDateObj endDateObj baseUrl maxPages 1 true ;;
    forUrls fuel startDateObj endDateObj maxPages rest
  end.

(** [years.add(year)] on a Set, which keeps insertion order. *)
Definition set_add (year : Z) (years : list Z) : list Z :=
  if existsb (Z.eqb year) years then years else years ++ [year].

(** for (let year = ...; year <= endYear; year++) years.add(year), the loop
    run for its [n] turns. *)
Fixpoint yearsLoop (n : nat) (year : Z) (years : list Z) : list Z :=
  match n with
  | O => years
  | S n' => yearsLoop n' (year + 1) (set_add year years)
  end.

Definition yearsOf (startDateObj endDateObj : option Z) : list Z :=
  match Date.getFullYear host startDateObj, Date.getFullYear host endDateObj with
  | Some sy, Some ey => yearsLoop (Z.to_nat (ey - sy + 1)) sy []
  | _, _ => []                                (* a NaN bound: no turn *)
  end.

Definition archiveUrl (year : Z) : jsstring :=
  blogUrl ++ js "archive/" ++ numToString year.

Definition urlsToCheck (startDate endDate : jsstring) : list jsstring :=
  map archiveUrl (yearsOf (Date.parse host startDate) (Date.parse host endDate))
  ++ [blogUrl].

(** [new Date(a.date).getTime()]. *)
Definition getTime (a : Article) : option Z := Date.parse host (date a).

(** The comparator [(a, b) => getTime(b) - getTime(a)]; a NaN result counts
    as zero. *)
Definition compareFn (a b : Article) : Z :=
  match getTime b, getTime a with
  | Some tb, Some ta => tb - ta
  | _, _ => 0
  end.

End Tool.

Record Context := {
  startDate : jsstring;
  endDate : jsstring;
  maxPages : option Z            (* optional, default 5 *)
}.

Record Envelope := {
  result_articles : list Article;
  totalCount : Z;
  period_startDate : jsstring;
  period_endDate : jsstring
}.

Definition maxPagesOf (context : Context) : Z :=
  match maxPages context with
  | Some m => m
  | None => 5
  end.

(** The [execute] of the tool. *)
Definition execute (host : Date.Host) (fetch : jsstring -> FetchResult)
    (fuel : nat) (context : Context) : M Envelope :=
  let startDateObj := Date.parse host (startDate context) in
  let endDateObj := Date.parse host (endDate context) in
  forUrls host fetch fuel startDateObj endDateObj (maxPagesOf context)
          (urlsToCheck host (startDate context) (endDate context)) ;;
  arts <- getArticles ;;
  setArticles (sort (compareFn host) arts) ;;
  arts' <- getArticles ;;
  ret {| result_articles := arts';
         totalCount := Z.of_nat (List.length arts');
         period_startDate := startDate context;
         period_endDate := endDate context |}.

End Scraper.

(* ================================================================= *)
(** ** The formatter: formatBlogListTool *)

Module Formatter.

Record Article := {
  title : jsstring;
  url : jsstring;
  date : jsstring;
  author : option jsstring;
  summary : option jsstring;
  categories : option (list jsstring)
}.

Inductive Format := markdown | html | csv | json.

(** The property name under which the rendered string is returned. *)
Definition formatName (f : Format) : jsstring :=
  match f with
  | markdown => js "markdown"
  | html => js "html"
  | csv => js "csv"
  | json => js "json"
  end.

Record Context := {
  articles : list Article;
  format : Format;
  includeCategories : bool;
  includeSummary : bool
}.

(** The object returned: one property, [key], holding the rendered string. *)
Record Output := { key : jsstring; rendered : jsstring }.

Definition nl : jsstring := [10].
Definition quote : jsstring := [34].
Definition NA : jsstring := js "N/A".

(** The text of a template literal, line by line. *)
Definition lines (l : list jsstring) : jsstring := join nl l.

(** *** formatMarkdown *)

Definition markdownCategories (article : Article) : jsstring :=
  match categories article with
  | Some (c :: r) => join (js ", ") (c :: r)
  | _ => NA
  end.

Definition markdownRow (includeCategories includeSummary : bool)
    (article : Article) : jsstring :=
  let row := js "| " ++ date article ++ js " | [" ++ title article ++ js "]("
             ++ url article ++ js ") | " ++ str_or (author article) NA ++ js " " in
  let row := if includeCategories
             then row ++ js "| " ++ markdownCategories article ++ js " "
             else row in
  let row := if includeSummary
             then row ++ js "| " ++ str_or (summary article) NA ++ js " "
             else row in
  row ++ js "|" ++ nl.

Definition formatMarkdown (articles : list Article)
    (includeCategories includeSummary : bool) : Output :=
  let markdown := js "# テコテックブログ 記事一覧" ++ nl ++ nl in
  let header := js "| 日付 | タイトル | 著者 " in
  let header := if includeCategories then header ++ js "| カテゴリ " else header in
  let header := if includeSummary then header ++ js "| 概要 " else header in
  let header := header ++ js "|" ++ nl in
  let separator := js "|------|---------|------|" in
  let separator := if includeCategories then separator ++ js "------|" else separator in
  let separator := if includeSummary then separator ++ js "------|" else separator in
  let separator := separator ++ nl in
  let markdown := markdown ++ header ++ separator in
  let markdown :=
    fold_left (fun markdown article =>
                 markdown ++ markdownRow includeCategories includeSummary article)
              articles markdown in
  {| key := js "markdown"; rendered := markdown |}.

(** *** formatHtml *)

Definition htmlHead (includeCategories includeSummary : bool) : jsstring :=
  lines [ [];
          js "    <html>";
          js "    <head>";
          js "      <title>テコテックブログ 記事一覧</title>";
          js "      <style>";
          js "        table { border-collapse: collapse; width: 100%; }";
          js "        th, td { padding: 8px; text-align: left; border-bottom: 1px solid #ddd; }";
          js "        tr:hover { background-color: #f5f5f5; }";
          js "      </style>";
          js "    </head>";
          js "    <body>";
          js "      <h1>テコテックブログ 記事一覧</h1>";
          js "      <table>";
          js "        <thead>";
          js "          <tr>";
          js "            <th>日付</th>";
          js "            <th>タイトル</th>";
          js "            <th>著者</th>";
          js "            " ++ (if includeCategories then js "<th>カテゴリ</th>" else []);
          js "            " ++ (if includeSummary then js "<th>概要</th>" else []);
          js "          </tr>";
          js "        </thead>";
          js "        <tbody>";
          js "  " ].

Definition htmlCategories (article : Article) : jsstring :=
  or_else (join (js ", ") (match categories article with Some l => l | None => [] end))
          NA.

Definition htmlRow (includeCategories includeSummary : bool)
    (article : Article) : jsstring :=
  lines [ [];
          js "      <tr>";
          js "        <td>" ++ date article ++ js "</td>";
          js "        <td><a href=" ++ quote ++ url article ++ quote ++ js " target="
            ++ quote ++ js "_blank" ++ quote ++ js ">" ++ title article ++ js "</a></td>";
          js "        <td>" ++ str_or (author article) NA ++ js "</td>";
          js "        " ++ (if includeCategories
                            then js "<td>" ++ htmlCategories article ++ js "</td>"
                            else []);
          js "        " ++ (if includeSummary
                            then js "<td>" ++ str_or (summary article) NA ++ js "</td>"
                            else []);
          js "      </tr>";
          js "    " ].

Definition htmlTail : jsstring :=
  lines [ [];
          js "        </tbody>";
          js "      </table>";
          js "    </body>";
          js "    </html>";
          js "  " ].

Definition formatHtml (articles : list Article)
    (includeCategories includeSummary : bool) : Output :=
  let html := htmlHead includeCategories includeSummary in
  let html :=
    fold_left (fun html article =>
                 html ++ htmlRow includeCategories includeSummary article)
              articles html in
  let html := html ++ htmlTail in
  {| key := js "html"; rendered := html |}.

(** *** formatCsv *)

(** The string between quotes, each quote of it doubled; nothing for an
    empty string. *)
Definition escapeCsv (str : jsstring) : jsstring :=
  match str with
  | [] => []
  | _ => quote ++ flat_map (fun c => if c =? 34 then [34; 34] else [c]) str ++ quote
  end.

Definition csvCategories (article : Article) : jsstring :=
  match categories article with
  | Some (c :: r) => join (js "; ") (c :: r)
  | _ => []
  end.

Definition csvRow (includeCategories includeSummary : bool)
    (article : Article) : jsstring :=
  let csv := date article ++ js "," ++ escapeCsv (title article) ++ js ","
             ++ url article ++ js "," ++ escapeCsv (str_or (author article) []) in
  let csv := if includeCategories
             then csv ++ js "," ++ escapeCsv (csvCategories article)
             else csv in
  let csv := if includeSummary
             then csv ++ js "," ++ escapeCsv (str_or (summary article) [])
             else csv in
  csv ++ nl.

Definition formatCsv (articles : list Article)
    (includeCategories includeSummary : bool) : Output :=
  let csv := js "日付,タイトル,URL,著者" in
  let csv := if includeCategories then csv ++ js ",カテゴリ" else csv in
  let csv := if includeSummary then csv ++ js ",概要" else csv in
  let csv := csv ++ nl in
  let csv :=
    fold_left (fun csv article =>
                 csv ++ csvRow includeCategories includeSummary article)
              articles csv in
  {| key := js "csv"; rendered := csv |}.

Section Tool.

Variable host : Date.Host.
(** [JSON.stringify(value, null, 2)], a built-in of the language. *)
Variable JSON_stringify : list Article -> jsstring.

Definition getTime (a : Article) : option Z := Date.parse host (date a).

Definition compareFn (a b : Article) : Z :=
  match getTime b, getTime a with
  | Some tb, Some ta => tb - ta
  | _, _ => 0
  end.

(** The [execute] of the tool.  The articles come from the caller, with any
    string as [date]; see [sort] for the lists on which the order of
    [sortedArticles] is fixed by the language. *)
Definition execute (context : Context) : Output :=
  let sortedArticles := sort compareFn (articles context) in
  match format context with
  | markdown =>
    formatMarkdown sortedArticles (includeCategories context) (includeSummary context)
  | html =>
    formatHtml sortedArticles (includeCategories context) (includeSummary context)
  | csv =>
    formatCsv sortedArticles (includeCategories context) (includeSummary context)
  | json => {| key := js "json"; rendered := JSON_stringify sortedArticles |}
  end.

End Tool.

End Formatter.

(* ================================================================= *)
(** ** Notions used in the statements *)

Module Notions.
Import Date Scraper.

(** The string YYYY-MM-DD of a calendar day, and when the day exists. *)
Definition ymd (y m d : Z) : jsstring :=
  digits 4 y ++ [45] ++ digits 2 m ++ [45] ++ digits 2 d.

Definition valid_ymd (y m d : Z) : Prop :=
  0 <= y <= 9999 /\ 1 <= m <= 12 /\ 1 <= d <= DaysInMonth y (m - 1).

(** Midnight UTC of that day. *)
Definition midnight (y m d : Z) : Z := MakeDate (MakeDay y (m - 1) d) 0.

(** The state after one more request, and after one more record. *)
Definition logged (s : State) (u : jsstring) : State :=
  {| articles := articles s; requests := requests s ++ [u] |}.

Definition pushed (s : State) (a : Article) : State :=
  {| articles := articles s ++ [a]; requests := requests s |}.

(** The record the callback pushes for entry [e] once its date text has
    parsed to the time value [t]. *)
Definition acceptedRecord (e : Entry) (t : Z) : Article :=
  {| title := trim (entry_title_text e);
     url := str_or (entry_title_href e) [];
     date := isoDateString t;
     author :=
       or_else (or_else (or_else (trim (entry_author_name_text e))
                                 (str_or (data_user_name e) []))
                        (entryAuthorFromIntro e))
               defaultAuthor;
     authorFromIntro := entryAuthorFromIntro e;
     authorFromData := str_or (data_user_name e) [];
     summary := or_else (trim (entry_description_text e))
                        (trim (entry_title_text e) ++ js "...");
     categories := map trim (tag_labels e) |}.

(** The closed window test of the source on a valid entry date [t]. *)
Definition inWindow (startDateObj endDateObj : option Z) (t : Z) : bool :=
  date_le startDateObj (Some t) && date_le (Some t) endDateObj.

Definition isDuplicate (arts : list Article) (e : Entry) : bool :=
  existsb (fun article => same_url article (entry_title_href e)) arts.

(** The time value of the date text of an entry: [None] when the entry has
    no date text, [Some None] when it has one that is no date. *)
Definition entryTime (host : Host) (e : Entry) : option (option Z) :=
  if truthy (entryDateText e)
  then Some (parse host (str_or (entryDateText e) []))
  else None.

(** Entry [e], dated [t], passes the window test and the duplicate test
    against the records [arts]. *)
Definition acceptable (host : Host) (startDateObj endDateObj : option Z)
    (e : Entry) (t : Z) (arts : list Article) : Prop :=
  entryTime host e = Some (Some t)
  /\ inWindow startDateObj endDateObj t = true
  /\ isDuplicate arts e = false.

(** Entry [e] is listed on a page the site serves. *)
Definition served (fetch : jsstring -> FetchResult) (e : Entry) : Prop :=
  exists u page, fetch u = Responded 200 (Some page) /\ In e (archive_entries page).

(** The first non-empty string of a list, else a default. *)
Fixpoint first_nonempty (l : list jsstring) (d : jsstring) : jsstring :=
  match l with
  | [] => d
  | [] :: r => first_nonempty r d
  | x :: _ => x
  end.

(** The page numbers [p], [p + 1], ..., [k] of them. *)
Fixpoint pagesFrom (p : Z) (k : nat) : list Z :=
  match k with
  | O => []
  | S k' => p :: pagesFrom (p + 1) k'
  end.

(** The years [y], [y + 1], ..., [n] of them. *)
Definition yearsFrom (y : Z) (n : nat) : list Z := pagesFrom y n.

(** Urls of the records that have one. *)
Definition linked_urls (arts : list Article) : list jsstring :=
  filter (fun u => negb (str_eqb u [])) (map url arts).

(** A response that ends the crawl of its base URL: the fetch fails, the
    status is not 200, the body cannot be read, the page lists no entry, or
    it has no next-page link. *)
Definition ends_crawl (r : FetchResult) : Prop :=
  match r with
  | NetworkError => True
  | Responded status None => True
  | Responded status (Some page) =>
    status <> 200 \/ archive_entries page = []
    \/ truthy (pager_next_href page) = false
  end.

(** Descending order of a key. *)
Definition descending {A : Type} (key : A -> Z) (a b : A) : Prop :=
  key b <= key a.

(** The key a sort by time reads from an element, and the order it aims at:
    latest first. *)
Definition timeKey {A : Type} (time : A -> option Z) (a : A) : Z :=
  match time a with
  | Some t => t
  | None => 0
  end.

Definition latestFirst {A : Type} (time : A -> option Z) (a b : A) : Prop :=
  exists ta tb, time a = Some ta /\ time b = Some tb /\ tb <= ta.

Definition newerFirst (host : Host) : Article -> Article -> Prop :=
  latestFirst (getTime host).

(** The three candidates for the author of an entry. *)
Definition explicitAuthor (e : Entry) : jsstring := trim (entry_author_name_text e).
Definition dataAuthor (e : Entry) : jsstring := str_or (data_user_name e) [].
Definition greetingAuthor (e : Entry) : jsstring := entryAuthorFromIntro e.

(** In the words of the specification, the third candidate is the name of a
    greeting at the start of the summary: the pattern matched there and
    nowhere else. *)
Definition openingGreetingAuthor (e : Entry) : jsstring :=
  match match_here introRegex (trim (entry_description_text e)) no_caps with
  | Some m => capture 2 m
  | None => []
  end.

(** Every record is the record of an entry the site serves, dated inside
    the window. *)
Definition fromWindow (fetch : jsstring -> FetchResult)
    (sd ed : option Z) (a : Article) : Prop :=
  exists e t, served fetch e /\ a = acceptedRecord e t
              /\ - maxTime <= t <= maxTime /\ inWindow sd ed t = true.

(** The date each of the two sources of an entry yields, if any: the
    datetime attribute, and the triple in the text of the time element. *)
Definition attributeDate (host : Host) (e : Entry) : option Z :=
  if truthy (archive_date_datetime e)
  then parse host (str_or (archive_date_datetime e) [])
  else None.

Definition textDate (host : Host) (e : Entry) : option Z :=
  match js_match dateRegex (trim (archive_date_text e)) with
  | Some m =>
    parse host (capture 1 m ++ [45] ++ padStart2 (capture 2 m)
                ++ [45] ++ padStart2 (capture 3 m))
  | None => None
  end.

End Notions.

(** ** Sample hosts, sites and inputs *)

Module Examples.
Import Date Scraper Notions.
Local Open Scope string_scope.

Definition utc : Host := {| localTZA := 0; legacyParse := fun _ => None |}.

(** Five hours west of Greenwich. *)
Definition new_york : Host :=
  {| localTZA := -18000000; legacyParse := fun _ => None |}.

Definition plain_entry (title : string) (href datetime : option string)
    (dateText : string) : Entry :=
  {| entry_title_text := js title;
     entry_title_href := option_map js href;
     archive_date_datetime := option_map js datetime;
     archive_date_text := js dateText;
     entry_author_name_text := [];
     data_user_name := None;
     entry_description_text := [];
     tag_labels := [] |}.


(** A site whose root lists the given entries on one page. *)
Definition one_page_site (l : list Entry) (u : jsstring) : FetchResult :=
  if str_eqb u blogUrl
  then Responded 200 (Some {| archive_entries := l; pager_next_href := None |})
  else Responded 404 None.

Definition july_2023 : Context :=
  {| startDate := js "2023-07-01"; endDate := js "2023-07-31"; maxPages := None |}.

(** Two entries of 4 July 2023 without a heading link. *)
Definition unlinked_A : Entry :=
  plain_entry "A" None (Some "2023-07-04T00:00:00Z") "".
Definition unlinked_B : Entry :=
  plain_entry "B" None (Some "2023-07-04T00:00:00Z") "".

(** Two entries with the same link. *)
Definition linked_A : Entry :=
  plain_entry "A" (Some "https://tec.tecotec.co.jp/entry/1")
              (Some "2023-07-04T00:00:00Z") "".
Definition linked_B : Entry :=
  plain_entry "B" (Some "https://tec.tecotec.co.jp/entry/1")
              (Some "2023-07-05T00:00:00Z") "".

(** Entries on and around the bounds of July 2023. *)
Definition first_day_entry : Entry :=
  plain_entry "first day" (Some "/entry/a") (Some "2023-07-01") "".
Definition last_day_entry : Entry :=
  plain_entry "last day" (Some "/entry/b") (Some "2023-07-31") "".
Definition day_before_entry : Entry :=
  plain_entry "day before" (Some "/entry/c") (Some "2023-06-30") "".
Definition day_after_entry : Entry :=
  plain_entry "day after" (Some "/entry/d") (Some "2023-08-01") "".

Definition july_window_site : jsstring -> FetchResult :=
  one_page_site [first_day_entry; last_day_entry; day_before_entry; day_after_entry].

(** An entry with its three author candidates present. *)
Definition three_authors : Entry :=
  {| entry_title_text := js "Title";
     entry_title_href := Some (js "/entry/e");
     archive_date_datetime := Some (js "2023-07-04");
     archive_date_text := [];
     entry_author_name_text := js " 山田 ";
     data_user_name := Some (js "tecotec-user");
     entry_description_text := js "こんにちは。次世代デジタル基盤開発事業部の田中です。";
     tag_labels := [] |}.

(** A site whose root has entries on pages 1 and 2, none on page 3, and
    some again on page 4. *)
Definition paged_site (u : jsstring) : FetchResult :=
  if str_eqb u blogUrl then
    Responded 200 (Some {| archive_entries :=
                             [plain_entry "one" (Some "/entry/1") (Some "2023-07-10") ""];
                           pager_next_href := Some (js "?page=2") |})
  else if str_eqb u (pageUrlOf blogUrl 2) then
    Responded 200 (Some {| archive_entries :=
                             [plain_entry "two" (Some "/entry/2") (Some "2023-07-09") ""];
                           pager_next_href := Some (js "?page=3") |})
  else if str_eqb u (pageUrlOf blogUrl 3) then
    Responded 200 (Some {| archive_entries := [];
                           pager_next_href := Some (js "?page=4") |})
  else if str_eqb u (pageUrlOf blogUrl 4) then
    Responded 200 (Some {| archive_entries :=
                             [plain_entry "four" (Some "/entry/4") (Some "2023-07-07") ""];
                           pager_next_href := None |})
  else Responded 404 None.

(** A site whose archive of 2023 cannot be fetched, and whose root lists one
    entry. *)
Definition broken_archive_site (u : jsstring) : FetchResult :=
  if str_eqb u (archiveUrl 2023) then NetworkError
  else one_page_site
         [plain_entry "kept" (Some "/entry/k") (Some "2023-07-10") ""] u.

(** An entry without author element and data attribute whose summary greets
    in its last sentence. *)
Definition late_greeting : Entry :=
  {| entry_title_text := js "Title";
     entry_title_href := Some (js "/entry/p");
     archive_date_datetime := Some (js "2023-07-04");
     archive_date_text := [];
     entry_author_name_text := [];
     data_user_name := None;
     entry_description_text :=
       js "AWS Lambdaの新機能を検証しました。結果と注意点をまとめます。最後になりましたが、こんにちは、開発部の田中です。";
     tag_labels := [] |}.

(** An entry stamped in the morning of the last day of July 2023. *)
Definition last_morning_entry : Entry :=
  plain_entry "last morning" (Some "/entry/m") (Some "2023-07-31T09:00:00Z") "".

(** An entry stamped with a machine-readable time, and one dated in text
    only. *)
Definition stamped_entry : Entry :=
  plain_entry "stamped" (Some "/entry/s") (Some "2023-07-04T00:00:00Z") "".
Definition text_dated_entry : Entry :=
  plain_entry "in text" (Some "/entry/t") None "2023年7月4日".
Definition undated_entry : Entry :=
  plain_entry "undated" (Some "/entry/u") None "yesterday".


(** Three entries of May 2024, the first and the third of the same day. *)
Definition may_2024 : Context :=
  {| startDate := js "2024-05-01"; endDate := js "2024-05-31"; maxPages := None |}.

Definition may_site : jsstring -> FetchResult :=
  one_page_site
    [ plain_entry "first" (Some "/entry/1") (Some "2024-05-01") "";
      plain_entry "second" (Some "/entry/2") (Some "2024-05-03") "";
      plain_entry "third" (Some "/entry/3") (Some "2024-05-01") "" ].


End Examples.


(** ** Notions used in the statements on the formatter *)

Module FormatNotions.
Import Date Formatter Notions.

(** An optional string that is absent or empty, and an optional list that
    is absent or empty. *)
Definition missing (o : option jsstring) : Prop := o = None \/ o = Some [].

Definition no_categories (o : option (list jsstring)) : Prop :=
  o = None \/ o = Some [].

Definition newerFirst (host : Host) : Article -> Article -> Prop :=
  latestFirst (getTime host).

(** Three articles, the first without author, summary and categories. *)
Definition bare : Article :=
  {| title := js "Bare"; url := js "/entry/1"; date := js "2024-05-01";
     author := None; summary := None; categories := None |}.

Definition full : Article :=
  {| title := js "Full"; url := js "/entry/2"; date := js "2024-05-03";
     author := Some (js "tanaka"); summary := Some (js "About it");
     categories := Some [js "AWS"; js "Rust"] |}.

Definition sample (f : Format) : Context :=
  {| articles := [bare; full]; format := f;
     includeCategories := true; includeSummary := true |}.

(** Three articles that have a title and a date only; the date of the
    second is no date. *)
Definition dated (name day : jsstring) : Article :=
  {| title := name; url := []; date := day;
     author := None; summary := None; categories := None |}.

Definition mixed_dates : list Article :=
  [dated (js "first") (js "2024-05-01");
   dated (js "second") (js "someday");
   dated (js "third") (js "2024-05-03")].

Definition mixed (l : list Article) : Context :=
  {| articles := l; format := markdown;
     includeCategories := false; includeSummary := false |}.

End FormatNotions.

(* ================================================================= *)
(** ** Notions used in the further properties *)

Module MoreNotions.
Import Date Scraper Notions.

(** A string without white space at either end. *)
Definition starts_clean (s : jsstring) : Prop :=
  match s with
  | c :: _ => is_space c = false
  | [] => True
  end.

Definition edge_free (s : jsstring) : Prop :=
  starts_clean s /\ starts_clean (List.rev s).

(** The requests of a crawl, base URL by base URL: for each one the number
    of its pages requested, from page 1 on. *)
Definition planRequests (plan : list (jsstring * nat)) : list jsstring :=
  flat_map (fun '(baseUrl, k) => map (pageUrlOf baseUrl) (pagesFrom 1 k)) plan.

(** The number a string of decimal digits writes. *)
Definition decimalValue (s : jsstring) : Z :=
  fold_left (fun acc c => 10 * acc + (c - 48)) s 0.

Definition all_digits (s : jsstring) : Prop := Forall (fun c => is_digit c = true) s.
Definition no_digit (s : jsstring) : Prop := Forall (fun c => is_digit c = false) s.

(** The next unit of [s] is not in the class [p], or there is none. *)
Definition stops (p : Z -> bool) (s : jsstring) : Prop :=
  match s with
  | c :: _ => p c = false
  | [] => True
  end.

(** The year in which local time lies at midnight UTC of a date, on a host
    less than a day west of Greenwich: the evening before. *)
Definition yearOfTheEveningBefore (y m d : Z) : Z :=
  if (m =? 1) && (d =? 1) then y - 1 else y.

(** Nine hours east of Greenwich. *)
Definition tokyo : Host :=
  {| localTZA := 32400000; legacyParse := fun _ => None |}.

Definition unparsable_dates : Context :=
  {| startDate := js "last week"; endDate := js "2023-07-31"; maxPages := None |}.

Definition no_pages : Context :=
  {| startDate := js "2023-07-01"; endDate := js "2023-07-31"; maxPages := Some 0 |}.

(** A page whose second entry carries a datetime attribute that is no
    date. *)
Definition garbled_entry : Entry :=
  Examples.plain_entry "garbled" (Some "/entry/g"%string) (Some "soon"%string) "".

Definition garbled_page : Page :=
  {| archive_entries :=
       [Examples.first_day_entry; garbled_entry; Examples.last_day_entry];
     pager_next_href := Some (js "?page=2") |}.

Definition garbled_site (u : jsstring) : FetchResult :=
  Responded 200 (Some garbled_page).

End MoreNotions.

Module MoreFormatNotions.
Import Date Formatter Notions FormatNotions.

(** *** Reading a CSV document

    A reader in the usual convention: fields are separated by commas, a
    record ends at a line feed, a field that starts with a quote runs to the
    next single quote, and two quotes inside it stand for one.  [cur] is the
    field being read (reversed), [fields] the fields of the record being
    read (reversed), [records] the records read (reversed). *)

Inductive CsvState := FieldStart | Bare | Quoted | QuoteSeen.

Fixpoint readCsv (st : CsvState) (cur : jsstring) (fields : list jsstring)
    (records : list (list jsstring)) (s : jsstring) : list (list jsstring) :=
  match s with
  | [] =>
    match st, fields with
    | FieldStart, [] => List.rev records
    | _, _ => List.rev (List.rev (List.rev cur :: fields) :: records)
    end
  | c :: r =>
    match st with
    | Quoted =>
      if c =? 34 then readCsv QuoteSeen cur fields records r
      else readCsv Quoted (c :: cur) fields records r
    | _ =>
      if c =? 44 then readCsv FieldStart [] (List.rev cur :: fields) records r
      else if c =? 10 then
        readCsv FieldStart [] [] (List.rev (List.rev cur :: fields) :: records) r
      else if c =? 34 then
        match st with
        | FieldStart => readCsv Quoted cur fields records r
        | QuoteSeen => readCsv Quoted (34 :: cur) fields records r
        | _ => readCsv Bare (c :: cur) fields records r
        end
      else readCsv Bare (c :: cur) fields records r
    end
  end.

Definition csvDocument (s : jsstring) : list (list jsstring) :=
  readCsv FieldStart [] [] [] s.

(** The names of the columns, and the fields of an article, as the CSV
    format lists them. *)
Definition csvHeader (includeCategories includeSummary : bool) : list jsstring :=
  [js "日付"; js "タイトル"; js "URL"; js "著者"]
  ++ (if includeCategories then [js "カテゴリ"] else [])
  ++ (if includeSummary then [js "概要"] else []).

Definition csvFields (includeCategories includeSummary : bool) (a : Article)
    : list jsstring :=
  [date a; title a; url a; str_or (author a) []]
  ++ (if includeCategories then [csvCategories a] else [])
  ++ (if includeSummary then [str_or (summary a) []] else []).

(** A string that can stand in a record without quotes. *)
Definition bare_safe (s : jsstring) : Prop :=
  Forall (fun c => c <> 44 /\ c <> 34 /\ c <> 10) s.

(** *** Counting units *)

Definition occurrences (c : Z) (s : jsstring) : nat := count_occ Z.eq_dec s c.

(** The strings of an article that a table row shows. *)
Definition shown (a : Article) : list jsstring :=
  [date a; title a; url a]
  ++ match author a with Some s => [s] | None => [] end
  ++ match summary a with Some s => [s] | None => [] end
  ++ match categories a with Some l => l | None => [] end.

Definition free_of (c : Z) (a : Article) : Prop :=
  Forall (fun s => ~ In c s) (shown a).

Definition b2n (b : bool) : nat := if b then 1%nat else 0%nat.

(** *** Articles that differ in one field only *)

Definition same_but_categories (a b : Article) : Prop :=
  title a = title b /\ url a = url b /\ date a = date b
  /\ author a = author b /\ summary a = summary b.

Definition same_but_summary (a b : Article) : Prop :=
  title a = title b /\ url a = url b /\ date a = date b
  /\ author a = author b /\ categories a = categories b.

(** *** From the scraper to the formatter

    A record of the scraper read through the input schema of the formatter:
    the six fields the schema names, all present. *)
Definition toFormatter (a : Scraper.Article) : Article :=
  {| title := Scraper.title a;
     url := Scraper.url a;
     date := Scraper.date a;
     author := Some (Scraper.author a);
     summary := Some (Scraper.summary a);
     categories := Some (Scraper.categories a) |}.

(** Sample articles. *)
Definition quoting : Article :=
  {| title := js "He said " ++ [34] ++ js "hi" ++ [34] ++ js ", twice";
     url := js "/entry/q";
     date := js "2024-05-02"; author := None;
     summary := Some [76; 49; 10; 76; 50];
     categories := Some [js "a,b"; js "c"] |}.

Definition uncategorized : Article :=
  {| title := title full; url := url full; date := date full;
     author := author full; summary := summary full; categories := None |}.

Definition quoting_csv : Context :=
  {| articles := [quoting]; format := csv;
     includeCategories := true; includeSummary := true |}.

Definition undatable (name : jsstring) : Article :=
  {| title := name; url := []; date := js "someday";
     author := None; summary := None; categories := None |}.

End MoreFormatNotions.

(* ================================================================= *)
(** * Properties *)

(** ** Dates *)

Module DateFacts.
Import Date.

Ltac break_ifs :=
  repeat match goal with
         | |- context [if ?b then _ else _] => destruct b eqn:?
         end;
  rewrite ?negb_true_iff, ?negb_false_iff, ?andb_true_iff, ?andb_false_iff,
    ?Z.eqb_eq, ?Z.eqb_neq, ?Z.ltb_lt, ?Z.ltb_ge, ?Z.leb_le, ?Z.leb_gt in *.

Ltac zdiv := Z.div_mod_to_equations; lia.

Lemma DayFromYear_succ y : DayFromYear (y + 1) = DayFromYear y + DaysInYear y.
Proof. unfold DayFromYear, DaysInYear. break_ifs; zdiv. Qed.

Lemma DaysInYear_cases y : DaysInYear y = 365 \/ DaysInYear y = 366.
Proof. unfold DaysInYear. break_ifs; auto. Qed.

Lemma DayFromYear_mono y1 y2 : y1 <= y2 -> DayFromYear y1 <= DayFromYear y2.
Proof. unfold DayFromYear. intros. zdiv. Qed.

(** [YearFromDay] is the year the standard defines: the one whose days
    include [d]. *)
Lemma YearFromDay_spec d :
  DayFromYear (YearFromDay d) <= d < DayFromYear (YearFromDay d + 1).
Proof. unfold YearFromDay. break_ifs; unfold DayFromYear in *; zdiv. Qed.

Lemma YearFromDay_unique d y :
  DayFromYear y <= d < DayFromYear (y + 1) -> YearFromDay d = y.
Proof.
  intros H. pose proof (YearFromDay_spec d) as S.
  destruct (Z.lt_trichotomy (YearFromDay d) y) as [L | [E | G]]; auto.
  - pose proof (DayFromYear_mono (YearFromDay d + 1) y). lia.
  - pose proof (DayFromYear_mono (y + 1) (YearFromDay d)). lia.
Qed.

Lemma YearFromDay_mono d1 d2 : d1 <= d2 -> YearFromDay d1 <= YearFromDay d2.
Proof.
  intros H. pose proof (YearFromDay_spec d1). pose proof (YearFromDay_spec d2).
  destruct (Z_le_gt_dec (YearFromDay d1) (YearFromDay d2)); auto.
  pose proof (DayFromYear_mono (YearFromDay d2 + 1) (YearFromDay d1)). lia.
Qed.

Lemma Day_mono t1 t2 : t1 <= t2 -> Day t1 <= Day t2.
Proof. unfold Day, msPerDay. intros. zdiv. Qed.

Lemma YearFromTime_mono t1 t2 : t1 <= t2 -> YearFromTime t1 <= YearFromTime t2.
Proof. intros. apply YearFromDay_mono, Day_mono; assumption. Qed.

(** *** Decimal fields *)

Lemma digits_length w n : List.length (digits w n) = w.
Proof.
  revert n. induction w; intros; cbn [digits]; auto.
  rewrite length_app, IHw. cbn [List.length]. lia.
Qed.

Lemma digits_range w n c : In c (digits w n) -> 48 <= c <= 57.
Proof.
  revert n. induction w; cbn [digits]; intros n H; [destruct H|].
  apply in_app_or in H. destruct H as [H | [H | []]]; eauto.
  subst. zdiv.
Qed.

Lemma take_digits_snoc w : forall acc s,
  take_digits (S w) acc s =
  match take_digits w acc s with
  | Some (a, c :: r) => if is_digit c then Some (10 * a + (c - 48), r) else None
  | _ => None
  end.
Proof.
  induction w; intros acc s.
  - cbn [take_digits]. destruct s; auto.
  - change (take_digits (S (S w)) acc s)
      with (match s with
            | c :: r => if is_digit c
                        then take_digits (S w) (10 * acc + (c - 48)) r else None
            | [] => None
            end).
    destruct s as [|c r]; auto.
    change (take_digits (S w) acc (c :: r))
      with (if is_digit c then take_digits w (10 * acc + (c - 48)) r else None).
    destruct (is_digit c); auto.
Qed.

Lemma take_digits_digits w : forall n acc r,
  0 <= n < 10 ^ Z.of_nat w ->
  take_digits w acc (digits w n ++ r) = Some (acc * 10 ^ Z.of_nat w + n, r).
Proof.
  induction w; intros n acc r H.
  - cbn [take_digits digits app]. change (10 ^ Z.of_nat 0) with 1 in *.
    f_equal. f_equal. lia.
  - rewrite take_digits_snoc. cbn [digits]. rewrite <- app_assoc.
    rewrite Nat2Z.inj_succ, Z.pow_succ_r in * by lia.
    rewrite IHw
      by (split; [apply Z.div_pos; lia | apply Z.div_lt_upper_bound; lia]).
    cbn [app].
    assert (D : is_digit (48 + n mod 10) = true).
    { unfold is_digit. apply andb_true_iff. split; apply Z.leb_le; zdiv. }
    rewrite D. f_equal. f_equal.
    assert (n = 10 * (n / 10) + n mod 10) by (apply Z.div_mod; lia). lia.
Qed.

Lemma digits_head w n :
  exists c r, digits (S w) n = c :: r /\ 48 <= c <= 57.
Proof.
  pose proof (digits_length (S w) n) as L.
  destruct (digits (S w) n) as [|c r] eqn:E; [discriminate|].
  exists c, r. split; auto. apply (digits_range (S w) n). rewrite E. left; auto.
Qed.

(** *** Calendar fields of a time value *)

Lemma leapDays_cases y : leapDays y = 0 \/ leapDays y = 1.
Proof. unfold leapDays. destruct (DaysInYear_cases y); lia. Qed.

Lemma DayWithinYear_range t :
  0 <= DayWithinYear t < 365 + leapDays (YearFromTime t).
Proof.
  unfold DayWithinYear, YearFromTime, leapDays.
  pose proof (YearFromDay_spec (Day t)) as S.
  rewrite DayFromYear_succ in S. lia.
Qed.

Lemma month_fields leap d :
  (leap = 0 \/ leap = 1) -> 0 <= d < 365 + leap ->
  0 <= monthOfDay leap d <= 11 /\
  1 <= d - monthStart leap (monthOfDay leap d) + 1
    <= monthStart leap (monthOfDay leap d + 1) - monthStart leap (monthOfDay leap d).
Proof.
  intros L R. unfold monthOfDay.
  repeat match goal with
         | |- context [if ?b then _ else _] => destruct b eqn:?
         end;
  rewrite ?Z.ltb_lt, ?Z.ltb_ge in *;
  unfold monthStart; simpl (_ =? _); cbv iota; lia.
Qed.

Lemma MakeDay_fields t :
  MakeDay (YearFromTime t) (MonthFromTime t) (DateFromTime t) = Day t.
Proof. unfold MakeDay, DateFromTime, MonthFromTime, DayWithinYear. lia. Qed.

Lemma YearFromTime_range t :
  - maxTime <= t <= maxTime -> -271821 <= YearFromTime t <= 275760.
Proof.
  intros H. pose proof (YearFromDay_spec (Day t)) as S. fold (YearFromTime t) in S.
  assert (D : -100000000 <= Day t <= 100000000)
    by (unfold Day, msPerDay, maxTime in *; zdiv).
  split.
  - destruct (Z_le_gt_dec (-271821) (YearFromTime t)); auto.
    pose proof (DayFromYear_mono (YearFromTime t + 1) (-271821)) as M.
    assert (E : DayFromYear (-271821) = -100000109) by reflexivity. lia.
  - destruct (Z_le_gt_dec (YearFromTime t) 275760); auto.
    pose proof (DayFromYear_mono 275761 (YearFromTime t)) as M.
    assert (E : DayFromYear 275761 = 100000110) by reflexivity. lia.
Qed.

(** *** Parsing what [toISOString] writes *)

Lemma expect_cons c r : expect c (c :: r) = Some r.
Proof. unfold expect. rewrite Z.eqb_refl. reflexivity. Qed.

Lemma take_digits0 w n r :
  0 <= n < 10 ^ Z.of_nat w -> take_digits w 0 (digits w n ++ r) = Some (n, r).
Proof. intros H. rewrite take_digits_digits by assumption. reflexivity. Qed.

Lemma parse_year_digits4 y r :
  0 <= y <= 9999 -> parse_year (digits 4 y ++ r) = Some (y, r).
Proof.
  intros H. destruct (digits_head 3 y) as (c & r' & E & R).
  unfold parse_year. rewrite E. cbn [app].
  replace (c =? 43) with false by (symmetry; apply Z.eqb_neq; lia).
  replace (c =? 45) with false by (symmetry; apply Z.eqb_neq; lia).
  change (c :: r' ++ r) with ((c :: r') ++ r). rewrite <- E.
  apply take_digits0. change (10 ^ Z.of_nat 4) with 10000. lia.
Qed.

Lemma parse_year_yearString y r :
  -999999 <= y <= 999999 -> parse_year (yearString y ++ r) = Some (y, r).
Proof.
  intros H. unfold yearString.
  destruct ((0 <=? y) && (y <=? 9999)) eqn:E4.
  - apply andb_true_iff in E4. destruct E4 as [A B].
    apply Z.leb_le in A. apply Z.leb_le in B. apply parse_year_digits4. lia.
  - assert (O : y < 0 \/ 9999 < y).
    { apply andb_false_iff in E4.
      destruct E4 as [A | B]; [apply Z.leb_gt in A | apply Z.leb_gt in B]; lia. }
    assert (P : 0 <= Z.abs y < 10 ^ Z.of_nat 6)
      by (change (10 ^ Z.of_nat 6) with 1000000; lia).
    destruct (y <? 0) eqn:N;
      [apply Z.ltb_lt in N | apply Z.ltb_ge in N];
      cbn [app parse_year]; simpl (_ =? _); cbv iota;
      rewrite (take_digits0 6 (Z.abs y) r P).
    + replace (Z.abs y =? 0) with false by (symmetry; apply Z.eqb_neq; lia).
      f_equal. f_equal. lia.
    + f_equal. f_equal. lia.
Qed.

Lemma parse_date_fields_full ys y m d :
  (forall r, parse_year (ys ++ r) = Some (y, r)) ->
  0 <= m <= 99 -> 0 <= d <= 99 ->
  parse_date_fields (ys ++ [45] ++ digits 2 m ++ [45] ++ digits 2 d)
  = Some (y, m, d, []).
Proof.
  intros Y M D. unfold parse_date_fields. rewrite Y.
  cbn [app]. rewrite expect_cons.
  rewrite take_digits0 by (change (10 ^ Z.of_nat 2) with 100; lia).
  rewrite expect_cons.
  rewrite <- (app_nil_r (digits 2 d)).
  rewrite take_digits0 by (change (10 ^ Z.of_nat 2) with 100; lia).
  reflexivity.
Qed.

Lemma parse_iso_full tza ys y m d :
  (forall r, parse_year (ys ++ r) = Some (y, r)) ->
  1 <= m <= 12 -> 1 <= d <= DaysInMonth y (m - 1) ->
  parse_iso tza (ys ++ [45] ++ digits 2 m ++ [45] ++ digits 2 d)
  = Some (MakeDate (MakeDay y (m - 1) d) 0).
Proof.
  intros Y M D.
  assert (D31 : DaysInMonth y (m - 1) <= 31).
  { unfold DaysInMonth, monthStart. destruct (leapDays_cases y) as [L | L];
      rewrite L; break_ifs; lia. }
  unfold parse_iso. rewrite (parse_date_fields_full ys y m d) by (auto; lia).
  replace ((1 <=? m) && (m <=? 12) && (1 <=? d) && (d <=? DaysInMonth y (m - 1)))
    with true; [reflexivity|].
  symmetry. repeat (apply andb_true_iff; split); apply Z.leb_le; lia.
Qed.

Lemma TimeClip_in t :
  - maxTime <= t <= maxTime -> TimeClip (Some t) = Some t.
Proof.
  intros H. unfold TimeClip.
  replace ((- maxTime <=? t) && (t <=? maxTime)) with true; auto.
  symmetry. apply andb_true_iff; split; apply Z.leb_le; lia.
Qed.

Lemma TimeClip_range o t : TimeClip o = Some t -> - maxTime <= t <= maxTime.
Proof.
  unfold TimeClip. destruct o as [v|]; [|discriminate].
  destruct ((- maxTime <=? v) && (v <=? maxTime)) eqn:E; [|discriminate].
  intros H; inversion H; subst. apply andb_true_iff in E. destruct E as [A B].
  apply Z.leb_le in A. apply Z.leb_le in B. lia.
Qed.

Lemma parse_range h s t : parse h s = Some t -> - maxTime <= t <= maxTime.
Proof. apply TimeClip_range. Qed.

(** The date part of [toISOString] parses back to midnight UTC of the same
    day. *)
Lemma parse_isoDateString h t :
  - maxTime <= t <= maxTime ->
  parse h (isoDateString t) = Some (Day t * msPerDay).
Proof.
  intros H. pose proof (YearFromTime_range t H) as YR.
  pose proof (DayWithinYear_range t) as WR.
  pose proof (month_fields _ _ (leapDays_cases (YearFromTime t)) WR) as [MR DR].
  fold (MonthFromTime t) in MR, DR. fold (DateFromTime t) in DR.
  unfold parse, isoDateString.
  rewrite (parse_iso_full (localTZA h) (yearString (YearFromTime t))
             (YearFromTime t) (MonthFromTime t + 1) (DateFromTime t)).
  - replace (MonthFromTime t + 1 - 1) with (MonthFromTime t) by lia.
    rewrite MakeDay_fields. unfold MakeDate. rewrite Z.add_0_r.
    apply TimeClip_in. unfold Day, msPerDay, maxTime in *. zdiv.
  - intros r. apply parse_year_yearString. lia.
  - lia.
  - unfold DaysInMonth.
    replace (MonthFromTime t + 1 - 1) with (MonthFromTime t) by lia. lia.
Qed.

Lemma yearString_no_T y : ~ In 84 (yearString y).
Proof.
  unfold yearString. intros H.
  destruct ((0 <=? y) && (y <=? 9999)).
  - apply digits_range in H. lia.
  - destruct H as [H | H]; [destruct (y <? 0); discriminate|].
    apply digits_range in H. lia.
Qed.

Lemma split_head_app sep a b :
  ~ In sep a -> split_head sep (a ++ sep :: b) = a.
Proof.
  induction a as [|c a IH]; intros N; cbn [app split_head].
  - rewrite Z.eqb_refl. reflexivity.
  - replace (c =? sep) with false.
    + f_equal. apply IH. intros I. apply N. right; assumption.
    + symmetry. apply Z.eqb_neq. intros E. apply N. left; assumption.
Qed.

(** [toISOString().split('T')[0]] is the date part. *)
Lemma split_toISOString t s :
  toISOString (Some t) = Some s -> split_head 84 s = isoDateString t.
Proof.
  intros H. inversion H; subst. clear H.
  apply split_head_app. unfold isoDateString. intros I.
  rewrite !in_app_iff in I. destruct I as [I | [I | [I | [I | I]]]].
  - exact (yearString_no_T _ I).
  - destruct I as [I | []]; discriminate.
  - apply digits_range in I. lia.
  - destruct I as [I | []]; discriminate.
  - apply digits_range in I. lia.
Qed.

(** *** Well-formed calendar dates *)

Import Notions.

Lemma valid_ymd_day y m d :
  valid_ymd y m d ->
  DayFromYear y <= MakeDay y (m - 1) d < DayFromYear (y + 1)
  /\ -719528 <= MakeDay y (m - 1) d <= 2932896.
Proof.
  intros (Y & M & D).
  assert (A : DayFromYear y <= MakeDay y (m - 1) d < DayFromYear (y + 1)).
  { rewrite DayFromYear_succ. unfold MakeDay.
    unfold DaysInMonth in D. fold (leapDays y) in *.
    replace (DaysInYear y) with (365 + leapDays y) by (unfold leapDays; lia).
    assert (C : m = 1 \/ m = 2 \/ m = 3 \/ m = 4 \/ m = 5 \/ m = 6 \/ m = 7
                \/ m = 8 \/ m = 9 \/ m = 10 \/ m = 11 \/ m = 12) by lia.
    destruct (leapDays_cases y) as [L | L]; rewrite L in *;
      repeat destruct C as [C | C]; subst m;
      unfold monthStart in *; simpl (_ =? _) in *; cbv iota in *; lia. }
  split; auto.
  pose proof (DayFromYear_mono 0 y). pose proof (DayFromYear_mono (y + 1) 10000).
  assert (DayFromYear 0 = -719528) by reflexivity.
  assert (DayFromYear 10000 = 2932897) by reflexivity. lia.
Qed.

(** A well-formed date parses to midnight UTC of its day. *)
Lemma parse_ymd h y m d :
  valid_ymd y m d -> parse h (ymd y m d) = Some (midnight y m d).
Proof.
  intros V. pose proof (valid_ymd_day y m d V) as [_ R].
  destruct V as (Y & M & D). unfold parse, ymd, midnight.
  rewrite (parse_iso_full (localTZA h) (digits 4 y) y m d); auto.
  - apply TimeClip_in. unfold MakeDate, msPerDay, maxTime. lia.
  - intros r. apply parse_year_digits4. assumption.
Qed.

Lemma Day_midnight y m d : Day (midnight y m d) = MakeDay y (m - 1) d.
Proof.
  unfold midnight, MakeDate, Day. rewrite Z.add_0_r.
  apply Z.div_mul. unfold msPerDay. lia.
Qed.

Lemma YearFromTime_midnight y m d :
  valid_ymd y m d -> YearFromTime (midnight y m d) = y.
Proof.
  intros V. unfold YearFromTime. rewrite Day_midnight.
  apply YearFromDay_unique. apply valid_ymd_day. assumption.
Qed.

(** The date part of [toISOString] at midnight of a well-formed date is the
    date as written. *)
Lemma isoDateString_midnight y m d :
  valid_ymd y m d -> isoDateString (midnight y m d) = ymd y m d.
Proof.
  intros V. pose proof (YearFromTime_midnight y m d V) as Y.
  destruct V as (Yr & M & D).
  assert (W : DayWithinYear (midnight y m d)
              = monthStart (leapDays y) (m - 1) + d - 1).
  { unfold DayWithinYear. rewrite Y, Day_midnight. unfold MakeDay. lia. }
  assert (Mo : MonthFromTime (midnight y m d) = m - 1).
  { unfold MonthFromTime. rewrite Y, W. unfold DaysInMonth in D.
    assert (C : m = 1 \/ m = 2 \/ m = 3 \/ m = 4 \/ m = 5 \/ m = 6 \/ m = 7
                \/ m = 8 \/ m = 9 \/ m = 10 \/ m = 11 \/ m = 12) by lia.
    destruct (leapDays_cases y) as [L | L]; rewrite L in *;
      repeat destruct C as [C | C]; subst m;
      unfold monthStart in *; simpl (_ =? _) in *; cbv iota in *;
      unfold monthOfDay; break_ifs; lia. }
  assert (Da : DateFromTime (midnight y m d) = d).
  { unfold DateFromTime. rewrite Mo, Y, W. lia. }
  unfold isoDateString, ymd. rewrite Y, Mo, Da.
  replace (m - 1 + 1) with m by lia. unfold yearString.
  replace ((0 <=? y) && (y <=? 9999)) with true; [reflexivity|].
  symmetry. apply andb_true_iff. split; apply Z.leb_le; lia.
Qed.

(** In a zone at or east of Greenwich the local year of a well-formed date
    is the year it is written with. *)
Lemma getFullYear_ymd h y m d :
  valid_ymd y m d -> 0 <= localTZA h < msPerDay ->
  getFullYear h (parse h (ymd y m d)) = Some y.
Proof.
  intros V Z. rewrite parse_ymd by assumption. unfold getFullYear. f_equal.
  unfold YearFromTime. apply YearFromDay_unique.
  replace (Day (midnight y m d + localTZA h)) with (MakeDay y (m - 1) d).
  - apply valid_ymd_day; assumption.
  - unfold midnight, MakeDate, Day, msPerDay in *. zdiv.
Qed.

End DateFacts.

(* ================================================================= *)
(** ** Sorting *)

Module SortFacts.
Import Notions.

Section Sorting.
Context {A : Type} (cmp : A -> A -> Z).

Lemma insert_perm x l : Permutation (insert cmp x l) (x :: l).
Proof.
  induction l as [|y l IH]; cbn [insert]; auto.
  destruct (cmp x y <=? 0); auto.
  eapply perm_trans; [apply perm_skip, IH | apply perm_swap].
Qed.

Lemma sort_perm l : Permutation (sort cmp l) l.
Proof.
  induction l as [|x l IH]; cbn [sort]; auto.
  eapply perm_trans; [apply insert_perm | apply perm_skip, IH].
Qed.

Lemma sort_In l a : In a (sort cmp l) <-> In a l.
Proof.
  split; apply Permutation_in; [| apply Permutation_sym]; apply sort_perm.
Qed.

Lemma sort_length l : List.length (sort cmp l) = List.length l.
Proof. apply Permutation_length, sort_perm. Qed.

(** Sortedness, when the comparator is the difference of a key. *)
Section Keyed.
Variable key : A -> Z.

Lemma insert_sorted x l :
  (forall y, In y l -> cmp x y = key y - key x) ->
  StronglySorted (descending key) l ->
  StronglySorted (descending key) (insert cmp x l).
Proof.
  intros K S. induction S as [|y l S IH F]; cbn [insert].
  - repeat constructor.
  - pose proof (K y (or_introl eq_refl)) as Ky.
    destruct (cmp x y <=? 0) eqn:C.
    + apply Z.leb_le in C. constructor; [constructor; assumption|].
      constructor; [unfold descending; lia|].
      eapply Forall_impl; [|exact F]. unfold descending. intros; lia.
    + apply Z.leb_gt in C. constructor.
      * apply IH. intros z Hz. apply K. right; assumption.
      * apply (Permutation_Forall (Permutation_sym (insert_perm x l))).
        constructor; [unfold descending; lia | assumption].
Qed.

Lemma sort_sorted l :
  (forall a b, In a l -> In b l -> cmp a b = key b - key a) ->
  StronglySorted (descending key) (sort cmp l).
Proof.
  induction l as [|x l IH]; intros K; cbn [sort]; [constructor|].
  apply insert_sorted.
  - intros y Hy. apply K; [left; reflexivity | right; apply sort_In; assumption].
  - apply IH. intros a b Ha Hb. apply K; right; assumption.
Qed.

End Keyed.

(** Stability: elements the comparator does not order strictly keep their
    relative order. *)
Lemma insert_filter (p : A -> bool) x l :
  (forall y, In y l -> p x = true -> p y = true -> cmp x y <= 0) ->
  filter p (insert cmp x l) = filter p (x :: l).
Proof.
  induction l as [|y l IH]; intros K; cbn [insert]; auto.
  destruct (cmp x y <=? 0) eqn:C; auto.
  apply Z.leb_gt in C.
  cbn [filter]. rewrite IH by (intros z Hz; apply K; right; assumption).
  cbn [filter].
  destruct (p x) eqn:Px; auto. destruct (p y) eqn:Py; auto.
  pose proof (K y (or_introl eq_refl) eq_refl Py). lia.
Qed.

Lemma sort_stable (p : A -> bool) l :
  (forall x y, In x l -> In y l -> p x = true -> p y = true -> cmp x y <= 0) ->
  filter p (sort cmp l) = filter p l.
Proof.
  induction l as [|x l IH]; intros K; cbn [sort]; auto.
  rewrite insert_filter.
  - cbn [filter]. rewrite IH; auto.
    intros a b Ha Hb. apply K; right; assumption.
  - intros y Hy. apply K; [left; reflexivity | right; apply sort_In; assumption].
Qed.

(** A comparator that subtracts times, an invalid one counting as a tie:
    the sort is stable, and sorts by time, latest first, when all times are
    valid. *)
Section ByTime.
Variable time : A -> option Z.
Hypothesis cmp_time : forall a b,
  cmp a b = match time b, time a with
            | Some tb, Some ta => tb - ta
            | _, _ => 0
            end.

Lemma cmp_same_time a b : time a = time b -> cmp a b = 0.
Proof. intros E. rewrite cmp_time, E. destruct (time b); lia. Qed.

Lemma StronglySorted_In_impl (R R' : A -> A -> Prop) l :
  (forall a b, In a l -> In b l -> R a b -> R' a b) ->
  StronglySorted R l -> StronglySorted R' l.
Proof.
  intros I S. induction S as [|x l S IH F]; constructor.
  - apply IH. intros a b Ha Hb. apply I; right; assumption.
  - rewrite Forall_forall in *. intros b Hb.
    apply I; [left; reflexivity | right; assumption | apply F; assumption].
Qed.

Lemma sort_by_time l :
  Permutation (sort cmp l) l
  /\ ((forall a, In a l -> exists t, time a = Some t) ->
      StronglySorted (latestFirst time) (sort cmp l))
  /\ (forall p : A -> bool,
        (forall x y, p x = true -> p y = true -> time x = time y) ->
        filter p (sort cmp l) = filter p l).
Proof.
  split; [apply sort_perm|]. split.
  - intros V. apply (StronglySorted_In_impl (descending (timeKey time))).
    + intros a b Ha Hb D. rewrite sort_In in Ha. rewrite sort_In in Hb.
      destruct (V a Ha) as (ta & Ta). destruct (V b Hb) as (tb & Tb).
      exists ta, tb. unfold descending, timeKey in D. rewrite Ta, Tb in D. auto.
    + apply sort_sorted. intros a b Ha Hb.
      destruct (V a Ha) as (ta & Ta). destruct (V b Hb) as (tb & Tb).
      rewrite cmp_time. unfold timeKey. rewrite Ta, Tb. reflexivity.
  - intros p P. apply sort_stable. intros x y _ _ Px Py.
    rewrite (cmp_same_time x y) by (apply P; assumption). lia.
Qed.

(** With valid and pairwise different times the result does not depend on
    the order of the input. *)
Lemma sorted_perm_unique l1 : forall l2,
  NoDup (map (timeKey time) l1) ->
  StronglySorted (descending (timeKey time)) l1 ->
  StronglySorted (descending (timeKey time)) l2 ->
  Permutation l1 l2 -> l1 = l2.
Proof.
  induction l1 as [|x l1 IH]; intros l2 N S1 S2 P.
  - apply Permutation_nil in P. congruence.
  - destruct l2 as [|y l2]; [apply Permutation_sym, Permutation_nil in P; discriminate|].
    inversion S1 as [|? ? S1' F1]; subst. inversion S2 as [|? ? S2' F2]; subst.
    inversion N as [|? ? Nx N']; subst.
    rewrite Forall_forall in F1, F2.
    assert (E : x = y).
    { assert (Ix : In x (y :: l2)) by (eapply Permutation_in; [exact P | left; auto]).
      assert (Iy : In y (x :: l1))
        by (eapply Permutation_in; [apply Permutation_sym; exact P | left; auto]).
      destruct Ix as [Ix | Ix]; [congruence|].
      destruct Iy as [Iy | Iy]; [congruence|].
      pose proof (F1 y Iy) as A1. pose proof (F2 x Ix) as A2.
      unfold descending in A1, A2.
      exfalso. apply Nx. replace (timeKey time x) with (timeKey time y) by lia.
      apply in_map. assumption. }
    subst y. f_equal. apply IH; auto.
    eapply Permutation_cons_inv. exact P.
Qed.

Lemma sort_order_independent l l' :
  Permutation l' l ->
  (forall a, In a l -> exists t, time a = Some t) ->
  NoDup (map (timeKey time) l) ->
  sort cmp l' = sort cmp l.
Proof.
  intros P V N.
  assert (K : forall m, Permutation m l ->
                StronglySorted (descending (timeKey time)) (sort cmp m)).
  { intros m Pm. apply sort_sorted. intros a b Ha Hb.
    destruct (V a (Permutation_in _ Pm Ha)) as (ta & Ta).
    destruct (V b (Permutation_in _ Pm Hb)) as (tb & Tb).
    rewrite cmp_time. unfold timeKey. rewrite Ta, Tb. reflexivity. }
  apply sorted_perm_unique.
  - eapply Permutation_NoDup; [|exact N].
    apply Permutation_map, Permutation_sym.
    eapply perm_trans; [apply sort_perm | exact P].
  - apply K. assumption.
  - apply K. apply Permutation_refl.
  - eapply perm_trans; [apply sort_perm|].
    eapply perm_trans; [exact P|]. apply Permutation_sym, sort_perm.
Qed.

End ByTime.

End Sorting.

End SortFacts.

(* ================================================================= *)
(** ** The scraper *)

Module ScraperFacts.
Import Date Scraper Notions DateFacts.

Lemma str_eqb_eq a b : str_eqb a b = true <-> a = b.
Proof. unfold str_eqb. destruct (list_eq_dec Z.eq_dec a b); split; congruence. Qed.

Lemma str_eqb_neq a b : str_eqb a b = false <-> a <> b.
Proof. unfold str_eqb. destruct (list_eq_dec Z.eq_dec a b); split; congruence. Qed.

Section Crawl.

Variable host : Host.
Variable fetch : jsstring -> FetchResult.
Variables startDateObj endDateObj : option Z.

Abbreviation processEntry := (processEntry host startDateObj endDateObj).
Abbreviation pageTurn := (pageTurn host fetch startDateObj endDateObj).
Abbreviation whileLoop := (fun fuel => whileLoop host fetch fuel startDateObj endDateObj).
Abbreviation forUrls := (fun fuel => forUrls host fetch fuel startDateObj endDateObj).

(** *** One entry *)

(** What the callback does, by the date of the entry. *)
Lemma processEntry_eq e s :
  processEntry e s =
  match entryTime host e with
  | None => Ok tt s
  | Some None => Throw RangeError s
  | Some (Some t) =>
    if inWindow startDateObj endDateObj t && negb (isDuplicate (articles s) e)
    then Ok tt (pushed s (acceptedRecord e t))
    else Ok tt s
  end.
Proof.
  unfold Scraper.processEntry, entryTime.
  destruct (truthy (entryDateText e)); [|reflexivity].
  destruct (parse host (str_or (entryDateText e) [])) as [t|]; [|reflexivity].
  unfold bind, isoString, inWindow, isDuplicate. cbn [toISOString ret].
  destruct (date_le startDateObj (Some t) && date_le (Some t) endDateObj);
    [|reflexivity].
  cbn [getArticles andb].
  destruct (existsb _ (articles s)); [reflexivity|].
  cbn [negb push]. unfold pushed, acceptedRecord.
  rewrite (split_toISOString t _ eq_refl). reflexivity.
Qed.

Lemma processEntry_cases e s :
  processEntry e s = Ok tt s
  \/ processEntry e s = Throw RangeError s
  \/ exists t, acceptable host startDateObj endDateObj e t (articles s)
               /\ processEntry e s = Ok tt (pushed s (acceptedRecord e t)).
Proof.
  rewrite processEntry_eq. unfold acceptable.
  destruct (entryTime host e) as [[t|]|]; auto.
  destruct (inWindow startDateObj endDateObj t) eqn:W; auto.
  destruct (isDuplicate (articles s) e) eqn:D; auto.
  right; right. exists t. auto.
Qed.

(** *** Invariants of the crawl *)

Section Invariant.

Variable J : State -> Prop.
Hypothesis J_push : forall s e t,
  J s -> served fetch e ->
  acceptable host startDateObj endDateObj e t (articles s) ->
  J (pushed s (acceptedRecord e t)).

Lemma each_inv l : forall s,
  (forall e, In e l -> served fetch e) -> J s ->
  (exists s', each processEntry l s = Ok tt s' /\ J s')
  \/ (exists s', each processEntry l s = Throw RangeError s' /\ J s').
Proof.
  induction l as [|e l IH]; intros s Hl Hs.
  - left. exists s. split; auto.
  - cbn [each]. unfold bind.
    destruct (processEntry_cases e s) as [E | [E | (t & A & E)]]; rewrite E.
    + apply IH; auto. intros x Hx. apply Hl. right; assumption.
    + right. exists s. split; auto.
    + apply IH.
      * intros x Hx. apply Hl. right; assumption.
      * apply J_push; auto. apply Hl. left; reflexivity.
Qed.

Hypothesis J_log : forall s u, J s -> J (logged s u).

(** A turn of the loop never throws and never diverges; it ends the loop or
    moves on by one page. *)
Lemma pageTurn_inv baseUrl currentPage s :
  J s ->
  exists c s',
    pageTurn baseUrl currentPage s = Ok c s' /\ J s'
    /\ (c = Break \/ c = Next currentPage false
        \/ exists hn, c = Next (currentPage + 1) hn).
Proof.
  intros Hs. unfold Scraper.pageTurn, try_catch, tryBlock, bind, doFetch.
  fold (logged s (pageUrlOf baseUrl currentPage)).
  pose proof (J_log s (pageUrlOf baseUrl currentPage) Hs) as H1.
  destruct (fetch (pageUrlOf baseUrl currentPage)) as [|status [page|]] eqn:F.
  - eexists _, _. split; [reflexivity|]. auto.
  - destruct (status =? 200) eqn:S200; cbn [negb].
    + apply Z.eqb_eq in S200. subst status.
      destruct (archive_entries page) as [|e l] eqn:El.
      * eexists _, _. split; [reflexivity|]. auto.
      * destruct (each_inv (e :: l) (logged s (pageUrlOf baseUrl currentPage)))
          as [(s' & E & Js) | (s' & E & Js)]; auto.
        -- intros x Hx. exists (pageUrlOf baseUrl currentPage), page.
           rewrite El. auto.
        -- rewrite E. eexists _, _. split; [reflexivity|]. eauto.
        -- rewrite E. eexists _, _. split; [reflexivity|]. auto.
    + eexists _, _. split; [reflexivity|]. auto.
  - destruct (status =? 200); cbn [negb];
      eexists _, _; (split; [reflexivity|]); auto.
Qed.

(** With more fuel than pages left, the loop over the pages of a base URL
    ends, without an exception. *)
Lemma whileLoop_inv baseUrl maxPages fuel : forall currentPage hasNextPage s,
  (Z.to_nat (maxPages - currentPage + 1) < fuel)%nat ->
  J s ->
  exists s',
    whileLoop fuel baseUrl maxPages currentPage hasNextPage s = Ok tt s' /\ J s'.
Proof.
  induction fuel as [|fuel IH]; intros cp hn s F Hs; [lia|].
  cbn [Scraper.whileLoop].
  destruct (hn && (cp <=? maxPages)) eqn:C.
  - apply andb_true_iff in C. destruct C as [_ C]. apply Z.leb_le in C.
    unfold bind.
    destruct (pageTurn_inv baseUrl cp s Hs) as (c & s' & E & Js & K).
    rewrite E. destruct K as [K | [K | (hn' & K)]]; subst c.
    + exists s'. split; auto.
    + destruct fuel; cbn [Scraper.whileLoop andb]; exists s'; split; auto.
    + apply IH; auto. lia.
  - exists s. split; auto.
Qed.

Lemma forUrls_inv maxPages fuel urls : forall s,
  (Z.to_nat maxPages < fuel)%nat ->
  J s ->
  exists s', forUrls fuel maxPages urls s = Ok tt s' /\ J s'.
Proof.
  induction urls as [|u urls IH]; intros s F Hs.
  - exists s. split; auto.
  - cbn [Scraper.forUrls]. unfold bind.
    destruct (whileLoop_inv u maxPages fuel 1 true s) as (s' & E & Js); auto.
    + replace (maxPages - 1 + 1) with maxPages by lia. assumption.
    + rewrite E. apply IH; auto.
Qed.

End Invariant.

(** *** What one turn of the loop does *)

Lemma each_effect l : forall s,
  exists s' added,
    (each processEntry l s = Ok tt s' \/ each processEntry l s = Throw RangeError s')
    /\ articles s' = articles s ++ added /\ requests s' = requests s.
Proof.
  induction l as [|e l IH]; intros s.
  - exists s, []. rewrite app_nil_r. auto.
  - cbn [each]. unfold bind.
    destruct (processEntry_cases e s) as [E | [E | (t & A & E)]]; rewrite E.
    + apply IH.
    + exists s, []. rewrite app_nil_r. auto.
    + destruct (IH (pushed s (acceptedRecord e t))) as (s' & added & R & Ha & Hr).
      exists s', (acceptedRecord e t :: added). split; auto.
      cbn [pushed articles requests] in *. rewrite Ha, <- app_assoc. auto.
Qed.

Lemma pageTurn_network baseUrl currentPage s :
  fetch (pageUrlOf baseUrl currentPage) = NetworkError ->
  pageTurn baseUrl currentPage s
  = Ok (Next currentPage false) (logged s (pageUrlOf baseUrl currentPage)).
Proof.
  intros F. unfold Scraper.pageTurn, try_catch, tryBlock, bind, doFetch.
  rewrite F. reflexivity.
Qed.

Lemma pageTurn_status baseUrl currentPage s status document :
  fetch (pageUrlOf baseUrl currentPage) = Responded status document ->
  status <> 200 ->
  pageTurn baseUrl currentPage s
  = Ok Break (logged s (pageUrlOf baseUrl currentPage)).
Proof.
  intros F N. unfold Scraper.pageTurn, try_catch, tryBlock, bind, doFetch.
  rewrite F. apply Z.eqb_neq in N. rewrite N. reflexivity.
Qed.

Lemma pageTurn_body baseUrl currentPage s :
  fetch (pageUrlOf baseUrl currentPage) = Responded 200 None ->
  pageTurn baseUrl currentPage s
  = Ok (Next currentPage false) (logged s (pageUrlOf baseUrl currentPage)).
Proof.
  intros F. unfold Scraper.pageTurn, try_catch, tryBlock, bind, doFetch.
  rewrite F. reflexivity.
Qed.

Lemma pageTurn_empty baseUrl currentPage s page :
  fetch (pageUrlOf baseUrl currentPage) = Responded 200 (Some page) ->
  archive_entries page = [] ->
  pageTurn baseUrl currentPage s
  = Ok (Next currentPage false) (logged s (pageUrlOf baseUrl currentPage)).
Proof.
  intros F E. unfold Scraper.pageTurn, try_catch, tryBlock, bind, doFetch.
  rewrite F. cbn. rewrite E. reflexivity.
Qed.

Lemma pageTurn_entries baseUrl currentPage s page :
  fetch (pageUrlOf baseUrl currentPage) = Responded 200 (Some page) ->
  archive_entries page <> [] ->
  pageTurn baseUrl currentPage s
  = match each processEntry (archive_entries page)
            (logged s (pageUrlOf baseUrl currentPage)) with
    | Ok _ s' => Ok (Next (currentPage + 1) (truthy (pager_next_href page))) s'
    | Throw _ s' => Ok (Next currentPage false) s'
    | Diverge => Diverge
    end.
Proof.
  intros F E. unfold Scraper.pageTurn, try_catch, tryBlock, bind, doFetch.
  rewrite F. cbn [negb Z.eqb Pos.eqb].
  fold (logged s (pageUrlOf baseUrl currentPage)).
  destruct (archive_entries page) as [|e l]; [congruence|].
  destruct (each processEntry (e :: l) (logged s (pageUrlOf baseUrl currentPage)));
    reflexivity.
Qed.

(** One turn sends one request, keeps the records there are, and ends in one
    of three ways. *)
Lemma pageTurn_shape baseUrl currentPage s :
  exists c s' added,
    pageTurn baseUrl currentPage s = Ok c s'
    /\ articles s' = articles s ++ added
    /\ requests s' = requests s ++ [pageUrlOf baseUrl currentPage]
    /\ (c = Break \/ c = Next currentPage false
        \/ exists hn, c = Next (currentPage + 1) hn)
    /\ (ends_crawl (fetch (pageUrlOf baseUrl currentPage)) ->
        c = Break \/ c = Next currentPage false
        \/ c = Next (currentPage + 1) false).
Proof.
  set (u := pageUrlOf baseUrl currentPage).
  destruct (fetch u) as [|status [page|]] eqn:F.
  - exists (Next currentPage false), (logged s u), [].
    rewrite pageTurn_network by assumption. rewrite app_nil_r. repeat split; auto.
  - destruct (Z.eq_dec status 200) as [S200 | S200].
    + subst status. destruct (archive_entries page) as [|e l] eqn:El.
      * exists (Next currentPage false), (logged s u), [].
        rewrite (pageTurn_empty _ _ _ page) by assumption.
        rewrite app_nil_r. repeat split; auto.
      * rewrite (pageTurn_entries _ _ _ page) by (fold u; congruence).
        fold u. rewrite El.
        destruct (each_effect (e :: l) (logged s u))
          as (s' & added & [R | R] & Ha & Hr); rewrite R.
        -- exists (Next (currentPage + 1) (truthy (pager_next_href page))), s', added.
           repeat split; auto.
           ++ right; right. eauto.
           ++ cbn [ends_crawl]. intros [N | [N | N]];
                [congruence | congruence | rewrite N; auto].
        -- exists (Next currentPage false), s', added. repeat split; auto.
    + exists Break, (logged s u), [].
      rewrite (pageTurn_status _ _ _ status (Some page)) by assumption.
      rewrite app_nil_r. repeat split; auto.
  - destruct (Z.eq_dec status 200) as [S200 | S200].
    + subst status. exists (Next currentPage false), (logged s u), [].
      rewrite pageTurn_body by assumption. rewrite app_nil_r. repeat split; auto.
    + exists Break, (logged s u), [].
      rewrite (pageTurn_status _ _ _ status None) by assumption.
      rewrite app_nil_r. repeat split; auto.
Qed.

(** *** The loop over the pages of one base URL *)

Lemma whileLoop_done fuel baseUrl maxPages currentPage hasNextPage s :
  hasNextPage && (currentPage <=? maxPages) = false ->
  whileLoop fuel baseUrl maxPages currentPage hasNextPage s = Ok tt s.
Proof. intros C. destruct fuel; cbn [Scraper.whileLoop]; rewrite C; reflexivity. Qed.

Lemma whileLoop_step fuel baseUrl maxPages currentPage s :
  currentPage <= maxPages ->
  whileLoop (S fuel) baseUrl maxPages currentPage true s
  = match pageTurn baseUrl currentPage s with
    | Ok Break s' => Ok tt s'
    | Ok (Next currentPage' hasNextPage') s' =>
      whileLoop fuel baseUrl maxPages currentPage' hasNextPage' s'
    | Throw e s' => Throw e s'
    | Diverge => Diverge
    end.
Proof.
  intros C. cbn [Scraper.whileLoop andb].
  apply Z.leb_le in C. rewrite C. unfold bind.
  destruct (pageTurn baseUrl currentPage s) as [[|cp' hn'] s'|e s'|]; reflexivity.
Qed.

(** The pages requested are consecutive from the current one and end at
    page [last] at the latest, where [last] is [maxPages] or a page whose
    response ends the crawl. *)
Lemma whileLoop_pages baseUrl maxPages last fuel :
  last = maxPages \/ ends_crawl (fetch (pageUrlOf baseUrl last)) ->
  forall currentPage hasNextPage s,
  currentPage <= last \/ maxPages < currentPage ->
  (Z.to_nat (maxPages - currentPage + 1) < fuel)%nat ->
  exists s' k added,
    whileLoop fuel baseUrl maxPages currentPage hasNextPage s = Ok tt s'
    /\ Z.of_nat k <= Z.max 0 (last - currentPage + 1)
    /\ requests s' = requests s ++ map (pageUrlOf baseUrl) (pagesFrom currentPage k)
    /\ articles s' = articles s ++ added.
Proof.
  intros L. induction fuel as [|fuel IH]; intros cp hn s B F; [lia|].
  destruct (hn && (cp <=? maxPages)) eqn:C.
  - apply andb_true_iff in C. destruct C as [Hn C]. apply Z.leb_le in C. subst hn.
    assert (Bl : cp <= last) by lia.
    rewrite whileLoop_step by assumption.
    destruct (pageTurn_shape baseUrl cp s) as (c & s1 & added & E & Ha & Hr & K & End).
    rewrite E.
    assert (Stop : forall cp' hn',
               hn' && (cp' <=? maxPages) = false ->
               exists s' k added0,
                 whileLoop fuel baseUrl maxPages cp' hn' s1 = Ok tt s'
                 /\ Z.of_nat k <= Z.max 0 (last - cp + 1)
                 /\ requests s' = requests s ++ map (pageUrlOf baseUrl) (pagesFrom cp k)
                 /\ articles s' = articles s ++ added0).
    { intros cp' hn' D. exists s1, 1%nat, added.
      rewrite whileLoop_done by assumption. cbn [pagesFrom map].
      repeat split; auto. lia. }
    destruct K as [K | [K | (hn' & K)]]; subst c.
    + exists s1, 1%nat, added. cbn [pagesFrom map]. repeat split; auto. lia.
    + apply Stop. reflexivity.
    + destruct (Z.eq_dec cp last) as [El | Nl].
      * destruct L as [L | L].
        -- apply Stop. apply andb_false_iff. right. apply Z.leb_gt. lia.
        -- subst cp. destruct (End L) as [K | [K | K]];
             [discriminate | inversion K; lia |].
           inversion K; subst. apply Stop. reflexivity.
      * destruct (IH (cp + 1) hn' s1) as (s' & k & added' & E' & Hk & Hr' & Ha');
          [lia | lia |].
        exists s', (S k), (added ++ added'). split; [exact E'|].
        cbn [pagesFrom map]. repeat split.
        -- lia.
        -- rewrite Hr', Hr, <- app_assoc. reflexivity.
        -- rewrite Ha', Ha, <- app_assoc. reflexivity.
  - exists s, 0%nat, []. rewrite whileLoop_done by assumption.
    cbn [pagesFrom map]. rewrite !app_nil_r. repeat split; auto. lia.
Qed.

(** Above the bound the fuel has no part in the result. *)
Lemma whileLoop_fuel baseUrl maxPages fuel1 :
  forall fuel2 currentPage hasNextPage s,
  (Z.to_nat (maxPages - currentPage + 1) < fuel1)%nat ->
  (Z.to_nat (maxPages - currentPage + 1) < fuel2)%nat ->
  whileLoop fuel1 baseUrl maxPages currentPage hasNextPage s
  = whileLoop fuel2 baseUrl maxPages currentPage hasNextPage s.
Proof.
  induction fuel1 as [|fuel1 IH]; intros fuel2 cp hn s F1 F2; [lia|].
  destruct fuel2 as [|fuel2]; [lia|].
  destruct (hn && (cp <=? maxPages)) eqn:C.
  - apply andb_true_iff in C. destruct C as [Hn C]. apply Z.leb_le in C. subst hn.
    rewrite !whileLoop_step by assumption.
    destruct (pageTurn_shape baseUrl cp s) as (c & s1 & added & E & _ & _ & K & _).
    rewrite E. destruct K as [K | [K | (hn' & K)]]; subst c.
    + reflexivity.
    + rewrite !whileLoop_done by reflexivity. reflexivity.
    + apply IH; lia.
  - rewrite !whileLoop_done by assumption. reflexivity.
Qed.

Lemma forUrls_fuel maxPages fuel1 fuel2 urls : forall s,
  (Z.to_nat maxPages < fuel1)%nat -> (Z.to_nat maxPages < fuel2)%nat ->
  forUrls fuel1 maxPages urls s = forUrls fuel2 maxPages urls s.
Proof.
  induction urls as [|u urls IH]; intros s F1 F2; [reflexivity|].
  cbn [Scraper.forUrls]. unfold bind.
  rewrite (whileLoop_fuel u maxPages fuel1 fuel2)
    by (replace (maxPages - 1 + 1) with maxPages by lia; assumption).
  destruct (Scraper.whileLoop host fetch fuel2 startDateObj endDateObj u maxPages
              1 true s); auto.
Qed.

End Crawl.

(** The tool, in terms of the crawl it runs first. *)
Lemma execute_eq host fetch fuel context s :
  execute host fetch fuel context s =
  match forUrls host fetch fuel (parse host (startDate context))
          (parse host (endDate context)) (maxPagesOf context)
          (urlsToCheck host (startDate context) (endDate context)) s with
  | Ok _ s1 =>
    let sorted := sort (compareFn host) (articles s1) in
    Ok {| result_articles := sorted;
          totalCount := Z.of_nat (List.length sorted);
          period_startDate := startDate context;
          period_endDate := endDate context |}
       {| articles := sorted; requests := requests s1 |}
  | Throw e s1 => Throw e s1
  | Diverge => Diverge
  end.
Proof.
  unfold execute, bind.
  destruct (forUrls _ _ _ _ _ _ _ s); reflexivity.
Qed.

Lemma execute_fuel host fetch fuel1 fuel2 context s :
  (Z.to_nat (maxPagesOf context) < fuel1)%nat ->
  (Z.to_nat (maxPagesOf context) < fuel2)%nat ->
  execute host fetch fuel1 context s = execute host fetch fuel2 context s.
Proof.
  intros F1 F2. rewrite !execute_eq.
  rewrite (forUrls_fuel host fetch _ _ (maxPagesOf context) fuel1 fuel2)
    by assumption.
  reflexivity.
Qed.

(** Under an invariant of the crawl the tool returns, and what it returns is
    the records accepted, sorted. *)
Lemma execute_inv host fetch fuel context (J : State -> Prop) :
  (forall s e t,
     J s -> served fetch e ->
     acceptable host (parse host (startDate context))
                (parse host (endDate context)) e t (articles s) ->
     J (pushed s (acceptedRecord e t))) ->
  (forall s u, J s -> J (logged s u)) ->
  J initial ->
  (Z.to_nat (maxPagesOf context) < fuel)%nat ->
  exists s1,
    forUrls host fetch fuel (parse host (startDate context))
      (parse host (endDate context)) (maxPagesOf context)
      (urlsToCheck host (startDate context) (endDate context)) initial = Ok tt s1
    /\ J s1 /\
    execute host fetch fuel context initial =
    Ok {| result_articles := sort (compareFn host) (articles s1);
          totalCount := Z.of_nat (List.length (articles s1));
          period_startDate := startDate context;
          period_endDate := endDate context |}
       {| articles := sort (compareFn host) (articles s1);
          requests := requests s1 |}.
Proof.
  intros Jp Jl J0 F. rewrite execute_eq.
  destruct (forUrls_inv host fetch _ _ J Jp Jl (maxPagesOf context) fuel
              (urlsToCheck host (startDate context) (endDate context)) initial F J0)
    as (s1 & E & Js).
  rewrite E. exists s1. cbv zeta. rewrite SortFacts.sort_length. auto.
Qed.

(** *** Invariants of the accepted records *)

Lemma isDuplicate_false arts e u :
  isDuplicate arts e = false -> entry_title_href e = Some u ->
  ~ In u (map url arts).
Proof.
  unfold isDuplicate. intros D H I. rewrite H in D.
  apply in_map_iff in I. destruct I as (a & Ua & Ia).
  assert (T : existsb (fun article => same_url article (Some u)) arts = true).
  { apply existsb_exists. exists a. split; auto.
    cbn [same_url]. apply str_eqb_eq. assumption. }
  congruence.
Qed.

Lemma isDuplicate_true arts e u :
  entry_title_href e = Some u -> In u (map url arts) ->
  isDuplicate arts e = true.
Proof.
  unfold isDuplicate. intros H I. rewrite H.
  apply in_map_iff in I. destruct I as (a & Ua & Ia).
  apply existsb_exists. exists a. split; auto.
  cbn [same_url]. apply str_eqb_eq. assumption.
Qed.

Lemma isDuplicate_unlinked arts e :
  entry_title_href e = None -> isDuplicate arts e = false.
Proof.
  unfold isDuplicate. intros H. rewrite H. cbn [same_url].
  induction arts; auto.
Qed.

Lemma linked_urls_app a b : linked_urls (a ++ b) = linked_urls a ++ linked_urls b.
Proof. unfold linked_urls. rewrite map_app, filter_app. reflexivity. Qed.

Lemma linked_urls_In arts u : In u (linked_urls arts) -> In u (map url arts).
Proof. unfold linked_urls. intros H. apply filter_In in H. tauto. Qed.

Lemma linked_urls_perm a b :
  Permutation a b -> Permutation (linked_urls a) (linked_urls b).
Proof.
  intros P. unfold linked_urls.
  induction (Permutation_map url P); cbn [filter];
    repeat match goal with |- context [negb ?c] => destruct (negb c) end;
    eauto using Permutation.
Qed.

(** The linked records have pairwise different urls. *)
Lemma unique_links_push host sd ed s e t :
  NoDup (linked_urls (articles s)) ->
  acceptable host sd ed e t (articles s) ->
  NoDup (linked_urls (articles (pushed s (acceptedRecord e t)))).
Proof.
  intros N (_ & _ & D). cbn [pushed articles]. rewrite linked_urls_app.
  unfold linked_urls at 2. cbn [map filter acceptedRecord url].
  destruct (entry_title_href e) as [[|c u]|] eqn:H; cbn [str_or];
    try (rewrite app_nil_r; assumption).
  replace (str_eqb (c :: u) []) with false
    by (symmetry; apply str_eqb_neq; discriminate).
  cbn [negb]. apply NoDup_app; auto.
  - repeat constructor. intros [].
  - intros x Hx [Hc | []]. subst x.
    apply (isDuplicate_false _ _ _ D H). apply linked_urls_In. assumption.
Qed.

End ScraperFacts.

(* ================================================================= *)
(** * The claims of the specification *)

Module Claims.
Import Date Scraper Notions DateFacts SortFacts ScraperFacts Examples.

(** ** Shared facts on what the tool returns *)

Lemma fromWindow_push host fetch sd ed s e t :
  Forall (fromWindow fetch sd ed) (articles s) ->
  served fetch e -> acceptable host sd ed e t (articles s) ->
  Forall (fromWindow fetch sd ed) (articles (pushed s (acceptedRecord e t))).
Proof.
  intros F S (T & W & _). cbn [pushed articles]. apply Forall_app. split; auto.
  constructor; [|constructor]. exists e, t. repeat split; auto;
    unfold entryTime in T; destruct (truthy (entryDateText e)); try discriminate;
    inversion T as [P]; apply (parse_range host _ _ P).
Qed.

(** The tool returns, with fuel for one more turn than [maxPages]; its
    records are the accepted ones, sorted; each comes from a served entry
    dated inside the window; the linked ones have different urls. *)
Lemma execute_summary host fetch fuel context :
  (Z.to_nat (maxPagesOf context) < fuel)%nat ->
  exists s1,
    forUrls host fetch fuel (parse host (startDate context))
      (parse host (endDate context)) (maxPagesOf context)
      (urlsToCheck host (startDate context) (endDate context)) initial = Ok tt s1
    /\ Forall (fromWindow fetch (parse host (startDate context))
                 (parse host (endDate context))) (articles s1)
    /\ NoDup (linked_urls (articles s1))
    /\ execute host fetch fuel context initial =
       Ok {| result_articles := sort (compareFn host) (articles s1);
             totalCount := Z.of_nat (List.length (articles s1));
             period_startDate := startDate context;
             period_endDate := endDate context |}
          {| articles := sort (compareFn host) (articles s1);
             requests := requests s1 |}.
Proof.
  intros F.
  destruct (execute_inv host fetch fuel context
              (fun s => Forall (fromWindow fetch (parse host (startDate context))
                                  (parse host (endDate context))) (articles s)
                        /\ NoDup (linked_urls (articles s))))
    as (s1 & E1 & (A & B) & E2); auto.
  - intros s e t (A & B) S Acc. split.
    + eapply fromWindow_push; eauto.
    + eapply unique_links_push; eauto.
  - split; constructor.
  - exists s1. auto.
Qed.

Lemma NoDup_filter_nth {A B} (f : A -> B) (p : B -> bool) (l : list A) :
  NoDup (filter p (map f l)) ->
  forall i j a b,
    nth_error l i = Some a -> nth_error l j = Some b -> i <> j ->
    f a = f b -> p (f a) = false.
Proof.
  induction l as [|x l IH]; intros N i j a b Hi Hj D E.
  - destruct i; discriminate.
  - cbn [map filter] in N.
    assert (Tail : NoDup (filter p (map f l))).
    { destruct (p (f x)); [inversion N|]; assumption. }
    assert (Fresh : forall c, In c l -> f c = f x -> p (f x) = false).
    { intros c Ic Ec. destruct (p (f x)) eqn:P; auto.
      inversion N as [|? ? Nin _]; subst. exfalso. apply Nin.
      apply filter_In. split; [|assumption].
      rewrite <- Ec. apply in_map. assumption. }
    destruct i as [|i], j as [|j]; cbn [nth_error] in Hi, Hj.
    + congruence.
    + inversion Hi; subst. apply (Fresh b); [eapply nth_error_In; eauto | auto].
    + inversion Hj; subst. rewrite E. apply (Fresh a); [eapply nth_error_In; eauto | auto].
    + apply (IH Tail i j a b); auto.
Qed.

(* ----------------------------------------------------------------- *)
(** ** C1: deduplication by url *)

(** C1, as stated, fails: two entries without a heading link are both
    recorded, each with the empty url, so two distinct records of the
    returned list carry the same url. *)
Lemma C1_two_unlinked_entries_share_the_empty_url :
  exists env s',
    execute utc (one_page_site [unlinked_A; unlinked_B]) 6 july_2023 initial
    = Ok env s'
    /\ map title (result_articles env) = [js "A"; js "B"]
    /\ map url (result_articles env) = [[]; []].
Proof. eexists _, _. vm_compute. repeat split. Qed.

(** C1, amended: in the list one run returns, two distinct records with the
    same url have the empty url, that is, the records with a link have
    pairwise different urls; an entry whose link is the url of a record
    already accepted adds nothing, so the first one stays; an entry whose
    link is new, or that has no link, is recorded when its date is in the
    window, the latter with the empty url and without any duplicate test. *)
Theorem C1_linked_urls_are_unique host fetch fuel context :
  (Z.to_nat (maxPagesOf context) < fuel)%nat ->
  let sd := parse host (startDate context) in
  let ed := parse host (endDate context) in
  (exists env s',
     execute host fetch fuel context initial = Ok env s'
     /\ forall i j a b,
          nth_error (result_articles env) i = Some a ->
          nth_error (result_articles env) j = Some b ->
          i <> j -> url a = url b -> url a = [])
  /\ (forall e s u,
        entry_title_href e = Some u -> In u (map url (articles s)) ->
        processEntry host sd ed e s = Ok tt s
        \/ processEntry host sd ed e s = Throw RangeError s)
  /\ (forall e s u t,
        entry_title_href e = Some u -> ~ In u (map url (articles s)) ->
        entryTime host e = Some (Some t) -> inWindow sd ed t = true ->
        processEntry host sd ed e s = Ok tt (pushed s (acceptedRecord e t))
        /\ url (acceptedRecord e t) = u)
  /\ (forall e s t,
        entry_title_href e = None ->
        entryTime host e = Some (Some t) -> inWindow sd ed t = true ->
        processEntry host sd ed e s = Ok tt (pushed s (acceptedRecord e t))
        /\ url (acceptedRecord e t) = []).
Proof.
  intros F sd ed. repeat split.
  - destruct (execute_summary host fetch fuel context F) as (s1 & _ & _ & N & E).
    eexists _, _. split; [exact E|]. cbn [result_articles].
    intros i j a b Hi Hj D U.
    assert (N' : NoDup (linked_urls (sort (compareFn host) (articles s1)))).
    { eapply Permutation_NoDup; [|exact N].
      apply linked_urls_perm, Permutation_sym, sort_perm. }
    pose proof (NoDup_filter_nth url _ _ N' i j a b Hi Hj D U) as P.
    apply negb_false_iff, str_eqb_eq in P. exact P.
  - intros e s u H I. rewrite processEntry_eq.
    rewrite (isDuplicate_true _ _ _ H I).
    destruct (entryTime host e) as [[t|]|]; auto.
    rewrite andb_false_r. auto.
  - rewrite processEntry_eq. rewrite H1, H2.
    replace (isDuplicate (articles s) e) with false; [reflexivity|].
    symmetry. unfold isDuplicate. rewrite H.
    destruct (existsb _ (articles s)) eqn:X; auto.
    apply existsb_exists in X. destruct X as (a & Ia & Sa).
    cbn [same_url] in Sa. apply str_eqb_eq in Sa.
    exfalso. apply H0. apply in_map_iff. eauto.
  - cbn [acceptedRecord url]. rewrite H. destruct u; reflexivity.
  - rewrite processEntry_eq. rewrite H0, H1.
    rewrite (isDuplicate_unlinked _ _ H). reflexivity.
  - cbn [acceptedRecord url]. rewrite H. reflexivity.
Qed.

Lemma C1_linked_urls_are_unique_witness :
  let site := one_page_site [linked_A; linked_B; unlinked_A; unlinked_B] in
  let sd := parse utc (startDate july_2023) in
  let ed := parse utc (endDate july_2023) in
  let after_A := pushed initial (acceptedRecord linked_A 1688428800000) in
  (Z.to_nat (maxPagesOf july_2023) < 6)%nat
  /\ (exists env s',
        execute utc site 6 july_2023 initial = Ok env s'
        /\ forall i j a b,
             nth_error (result_articles env) i = Some a ->
             nth_error (result_articles env) j = Some b ->
             i <> j -> url a = url b -> url a = [])
  /\ (processEntry utc sd ed linked_B after_A = Ok tt after_A
      \/ processEntry utc sd ed linked_B after_A = Throw RangeError after_A)
  /\ processEntry utc sd ed unlinked_B after_A
     = Ok tt (pushed after_A (acceptedRecord unlinked_B 1688428800000)).
Proof.
  intros site sd ed after_A.
  destruct (C1_linked_urls_are_unique utc site 6 july_2023
              ltac:(vm_compute; lia)) as (A & B & _ & D).
  split; [vm_compute; lia|]. split; [exact A|]. split.
  - apply (B linked_B after_A (js "https://tec.tecotec.co.jp/entry/1")).
    + vm_compute. reflexivity.
    + left. vm_compute. reflexivity.
  - apply (D unlinked_B after_A 1688428800000); vm_compute; reflexivity.
Defined.

(* ----------------------------------------------------------------- *)
(** ** C2: the closed date window *)

Lemma inWindow_iff lo hi t : inWindow (Some lo) (Some hi) t = true <-> lo <= t <= hi.
Proof.
  unfold inWindow, date_le. rewrite andb_true_iff, !Z.leb_le. tauto.
Qed.

Lemma inWindow_outside lo hi t :
  t < lo \/ hi < t -> inWindow (Some lo) (Some hi) t = false.
Proof.
  intros O. destruct (inWindow (Some lo) (Some hi) t) eqn:W; auto.
  apply inWindow_iff in W. lia.
Qed.

(** C2: with both input dates well formed, the bounds of the window are
    midnight UTC of the two days; the callback records an entry only if the
    time value of its date lies between the bounds, both included; an entry
    dated exactly at either bound is recorded (the window not being empty and
    the entry no duplicate), with the input date as its [date]; an entry
    dated outside, in particular one day before the start or one day after
    the end, is not; and every record returned has a [date] that parses to
    a time value between the bounds. *)
Theorem C2_closed_date_window host fetch fuel context ys ms ds ye me de :
  startDate context = ymd ys ms ds -> valid_ymd ys ms ds ->
  endDate context = ymd ye me de -> valid_ymd ye me de ->
  (Z.to_nat (maxPagesOf context) < fuel)%nat ->
  let startDateObj := parse host (startDate context) in
  let endDateObj := parse host (endDate context) in
  let lo := midnight ys ms ds in
  let hi := midnight ye me de in
  startDateObj = Some lo /\ endDateObj = Some hi
  /\ (forall e s s',
        processEntry host startDateObj endDateObj e s = Ok tt s' ->
        articles s' <> articles s ->
        exists t, entryTime host e = Some (Some t) /\ lo <= t <= hi)
  /\ (forall e s,
        lo <= hi -> isDuplicate (articles s) e = false ->
        entryTime host e = Some (Some lo) ->
        processEntry host startDateObj endDateObj e s
        = Ok tt (pushed s (acceptedRecord e lo))
        /\ date (acceptedRecord e lo) = startDate context)
  /\ (forall e s,
        lo <= hi -> isDuplicate (articles s) e = false ->
        entryTime host e = Some (Some hi) ->
        processEntry host startDateObj endDateObj e s
        = Ok tt (pushed s (acceptedRecord e hi))
        /\ date (acceptedRecord e hi) = endDate context)
  /\ (forall e s t,
        entryTime host e = Some (Some t) -> t < lo \/ hi < t ->
        processEntry host startDateObj endDateObj e s = Ok tt s)
  /\ (forall e s,
        entryTime host e = Some (Some (lo - msPerDay))
        \/ entryTime host e = Some (Some (hi + msPerDay)) ->
        processEntry host startDateObj endDateObj e s = Ok tt s)
  /\ (exists env s',
        execute host fetch fuel context initial = Ok env s'
        /\ Forall (fun a => exists t, parse host (date a) = Some t /\ lo <= t <= hi)
                  (result_articles env)).
Proof.
  intros Hs Vs He Ve F startDateObj endDateObj lo hi.
  assert (Ps : startDateObj = Some lo)
    by (unfold startDateObj; rewrite Hs; apply parse_ymd; assumption).
  assert (Pe : endDateObj = Some hi)
    by (unfold endDateObj; rewrite He; apply parse_ymd; assumption).
  assert (Out : forall e s t,
             entryTime host e = Some (Some t) -> t < lo \/ hi < t ->
             processEntry host startDateObj endDateObj e s = Ok tt s).
  { intros e s t T O. rewrite processEntry_eq, T, Ps, Pe.
    rewrite (inWindow_outside lo hi t O). reflexivity. }
  split; [exact Ps|]. split; [exact Pe|]. repeat split.
  - intros e s s' E D. rewrite processEntry_eq in E.
    destruct (entryTime host e) as [[t|]|]; try discriminate.
    + destruct (inWindow startDateObj endDateObj t) eqn:W.
      * exists t. split; auto. rewrite Ps, Pe in W. apply inWindow_iff; assumption.
      * cbn [andb] in E. inversion E; subst. congruence.
    + inversion E; subst. congruence.
  - rewrite processEntry_eq, H1, H0, Ps, Pe.
    replace (inWindow (Some lo) (Some hi) lo) with true; [reflexivity|].
    symmetry. apply inWindow_iff. lia.
  - cbn [acceptedRecord date]. rewrite Hs. apply isoDateString_midnight. assumption.
  - rewrite processEntry_eq, H1, H0, Ps, Pe.
    replace (inWindow (Some lo) (Some hi) hi) with true; [reflexivity|].
    symmetry. apply inWindow_iff. lia.
  - cbn [acceptedRecord date]. rewrite He. apply isoDateString_midnight. assumption.
  - exact Out.
  - intros e s [T | T]; apply (Out e s _ T); unfold msPerDay; lia.
  - destruct (execute_summary host fetch fuel context F) as (s1 & _ & W & _ & E).
    eexists _, _. split; [exact E|]. cbn [result_articles].
    apply Forall_forall. intros a Ia. apply sort_In in Ia.
    rewrite Forall_forall in W. destruct (W a Ia) as (e & t & _ & Ea & R & Wt).
    fold startDateObj endDateObj in Wt. rewrite Ps, Pe in Wt.
    apply inWindow_iff in Wt.
    exists (Day t * msPerDay). subst a. cbn [acceptedRecord date].
    split; [apply parse_isoDateString; assumption|].
    unfold lo, hi, midnight, MakeDate, Day, msPerDay in *. zdiv.
Qed.

Lemma C2_closed_date_window_witness :
  let first_day := first_day_entry in
  let day_after := day_after_entry in
  let sd := parse utc (startDate july_2023) in
  let ed := parse utc (endDate july_2023) in
  (exists env s',
     execute utc july_window_site 6 july_2023 initial = Ok env s'
     /\ Forall (fun a => exists t, parse utc (date a) = Some t
                                   /\ midnight 2023 7 1 <= t <= midnight 2023 7 31)
               (result_articles env))
  /\ (processEntry utc sd ed first_day initial
      = Ok tt (pushed initial (acceptedRecord first_day (midnight 2023 7 1)))
      /\ date (acceptedRecord first_day (midnight 2023 7 1)) = startDate july_2023)
  /\ processEntry utc sd ed day_after initial = Ok tt initial.
Proof.
  intros first_day day_after sd ed.
  assert (V1 : valid_ymd 2023 7 1)
    by (unfold valid_ymd; vm_compute; intuition discriminate).
  assert (V2 : valid_ymd 2023 7 31)
    by (unfold valid_ymd; vm_compute; intuition discriminate).
  destruct (C2_closed_date_window utc july_window_site 6 july_2023
              2023 7 1 2023 7 31 eq_refl V1 eq_refl V2 ltac:(vm_compute; lia))
    as (_ & _ & _ & B & _ & _ & O & R).
  split; [exact R|]. split.
  - apply (B first_day initial).
    + vm_compute. discriminate.
    + vm_compute. reflexivity.
    + vm_compute. reflexivity.
  - apply (O day_after initial). right. vm_compute. reflexivity.
Defined.

(** The comparison is by full time value: an entry stamped after midnight
    UTC on the last day of the window is outside it. *)
Lemma stamp_later_on_the_end_day_is_outside :
  processEntry utc (parse utc (startDate july_2023)) (parse utc (endDate july_2023))
               last_morning_entry initial = Ok tt initial
  /\ entryTime utc last_morning_entry = Some (Some (midnight 2023 7 31 + 32400000))
  /\ isoDateString (midnight 2023 7 31 + 32400000) = endDate july_2023.
Proof. repeat split; vm_compute; reflexivity. Qed.

(* ----------------------------------------------------------------- *)
(** ** C3: the author of a record *)

Lemma author_acceptedRecord e t :
  author (acceptedRecord e t)
  = first_nonempty [explicitAuthor e; dataAuthor e; greetingAuthor e] defaultAuthor.
Proof.
  cbn [acceptedRecord author first_nonempty].
  unfold explicitAuthor, dataAuthor, greetingAuthor.
  destruct (trim (entry_author_name_text e)), (str_or (data_user_name e) []),
    (entryAuthorFromIntro e); reflexivity.
Qed.

Lemma first_nonempty_head x l d : x <> [] -> first_nonempty (x :: l) d = x.
Proof. destruct x; [congruence | reflexivity]. Qed.

Lemma or_else_nil a : or_else a [] = a.
Proof. destruct a; reflexivity. Qed.

Lemma js_match_at_start re s m :
  match_here re s no_caps = Some m -> js_match re s = Some m.
Proof. intros H. destruct s; cbn [js_match]; rewrite H; reflexivity. Qed.

(** C3, as stated, fails: the greeting need not be at the start of the
    summary.  An entry without author element and data attribute, whose
    summary greets in its last sentence, gets the name of the greeting,
    where the order of the claim, with the greeting looked for at the start
    of the summary, gives the default name. *)
Lemma C3_greeting_after_a_preface_names_the_author :
  exists env s',
    execute utc (one_page_site [late_greeting]) 6 july_2023 initial = Ok env s'
    /\ map author (result_articles env) = [js "田中"]
    /\ first_nonempty [explicitAuthor late_greeting; dataAuthor late_greeting;
                       openingGreetingAuthor late_greeting] defaultAuthor
       = js "テコテック"
    /\ js "田中" <> js "テコテック".
Proof.
  eexists _, _. vm_compute. repeat split. discriminate.
Qed.

(** C3, amended: the record the callback pushes for an entry has as
    [author] the first non-empty string among the text of the author-name
    element, the user name of the data attribute, the name the greeting
    pattern extracts from the summary at its leftmost match (the name of a
    greeting that opens the summary, when there is one), and the default
    name, in this order; with the three extracted candidates non-empty it is
    the first of them.  So has every record the tool returns, for an entry
    the site serves. *)
Theorem C3_author_priority host fetch fuel context :
  (Z.to_nat (maxPagesOf context) < fuel)%nat ->
  let sd := parse host (startDate context) in
  let ed := parse host (endDate context) in
  let resolved e a :=
    author a = first_nonempty [explicitAuthor e; dataAuthor e; greetingAuthor e]
                              defaultAuthor
    /\ (explicitAuthor e <> [] -> dataAuthor e <> [] -> greetingAuthor e <> [] ->
        author a = explicitAuthor e) in
  (forall e s s',
     processEntry host sd ed e s = Ok tt s' -> articles s' <> articles s ->
     exists a, articles s' = articles s ++ [a] /\ resolved e a)
  /\ (forall e,
        greetingAuthor e
        = match js_match introRegex (trim (entry_description_text e)) with
          | Some m => capture 2 m
          | None => []
          end)
  /\ (forall e,
        openingGreetingAuthor e <> [] ->
        greetingAuthor e = openingGreetingAuthor e)
  /\ (exists env s',
        execute host fetch fuel context initial = Ok env s'
        /\ Forall (fun a => exists e, served fetch e /\ resolved e a)
                  (result_articles env)).
Proof.
  intros F sd ed resolved.
  assert (R : forall e t, resolved e (acceptedRecord e t)).
  { intros e t. split; [apply author_acceptedRecord|].
    intros X _ _. rewrite author_acceptedRecord.
    apply first_nonempty_head. assumption. }
  assert (G : forall e,
             greetingAuthor e
             = match js_match introRegex (trim (entry_description_text e)) with
               | Some m => capture 2 m
               | None => []
               end).
  { intros e. unfold greetingAuthor, entryAuthorFromIntro. rewrite or_else_nil.
    destruct (js_match introRegex (trim (entry_description_text e)));
      [apply or_else_nil | reflexivity]. }
  split; [|split; [exact G | split]].
  - intros e s s' E D. rewrite processEntry_eq in E.
    destruct (entryTime host e) as [[t|]|]; try discriminate.
    + destruct (inWindow sd ed t && negb (isDuplicate (articles s) e));
        inversion E; subst; [|congruence].
      exists (acceptedRecord e t). split; [reflexivity | apply R].
    + inversion E; subst. congruence.
  - intros e O. rewrite G. unfold openingGreetingAuthor in *.
    destruct (match_here introRegex (trim (entry_description_text e)) no_caps)
      as [m|] eqn:M; [|congruence].
    rewrite (js_match_at_start _ _ _ M). reflexivity.
  - destruct (execute_summary host fetch fuel context F) as (s1 & _ & W & _ & E).
    eexists _, _. split; [exact E|]. cbn [result_articles].
    apply Forall_forall. intros a Ia. apply sort_In in Ia.
    rewrite Forall_forall in W. destruct (W a Ia) as (e & t & S & Ea & _).
    exists e. subst a. split; [assumption | apply R].
Qed.

Lemma C3_author_priority_witness :
  exists env s',
    execute utc (one_page_site [three_authors]) 6 july_2023 initial = Ok env s'
    /\ Forall (fun a => exists e,
                 served (one_page_site [three_authors]) e
                 /\ author a = first_nonempty
                                 [explicitAuthor e; dataAuthor e; greetingAuthor e]
                                 defaultAuthor
                 /\ (explicitAuthor e <> [] -> dataAuthor e <> [] ->
                     greetingAuthor e <> [] -> author a = explicitAuthor e))
              (result_articles env).
Proof.
  apply (C3_author_priority utc (one_page_site [three_authors]) 6 july_2023).
  vm_compute. lia.
Defined.

(* ----------------------------------------------------------------- *)
(** ** C4: the loop over the pages ends *)

Lemma pageUrlOf_1 baseUrl : pageUrlOf baseUrl 1 = baseUrl.
Proof. reflexivity. Qed.

Lemma pageUrlOf_next baseUrl p :
  p <> 1 -> pageUrlOf baseUrl p = baseUrl ++ js "?page=" ++ numToString p.
Proof. intros N. unfold pageUrlOf. apply Z.eqb_neq in N. rewrite N. reflexivity. Qed.

Lemma pageUrlOf_4_fresh baseUrl :
  ~ In (pageUrlOf baseUrl 4)
       [pageUrlOf baseUrl 1; pageUrlOf baseUrl 2; pageUrlOf baseUrl 3].
Proof.
  rewrite pageUrlOf_1, !pageUrlOf_next by lia.
  intros [E | [E | [E | []]]].
  - apply (f_equal (@List.length Z)) in E. rewrite length_app in E.
    cbn in E. lia.
  - apply app_inv_head in E. vm_compute in E. discriminate.
  - apply app_inv_head in E. vm_compute in E. discriminate.
Qed.

(** C4: given more fuel than [maxPages], the loop over the pages of a base
    URL ends; it requests consecutive pages from page 1, at most [maxPages]
    of them; it requests no page after one whose fetch fails, whose status
    is not 200, whose body cannot be read, that lists no entry or that has
    no next-page link.  With entries and a next-page link on pages 1 and 2
    and no entry on page 3, and [maxPages] above 3, the loop requests pages
    1, 2 and 3, not page 4, and leaves the records of pages 1 and 2. *)
Theorem C4_pagination_terminates host fetch sd ed baseUrl maxPages fuel s :
  (Z.to_nat maxPages < fuel)%nat ->
  let loop := whileLoop host fetch fuel sd ed baseUrl maxPages 1 true in
  (exists s' k added,
     loop s = Ok tt s'
     /\ Z.of_nat k <= Z.max 0 maxPages
     /\ requests s' = requests s ++ map (pageUrlOf baseUrl) (pagesFrom 1 k)
     /\ articles s' = articles s ++ added)
  /\ (forall last,
        1 <= last -> ends_crawl (fetch (pageUrlOf baseUrl last)) ->
        exists s' k added,
          loop s = Ok tt s'
          /\ Z.of_nat k <= last
          /\ requests s' = requests s ++ map (pageUrlOf baseUrl) (pagesFrom 1 k)
          /\ articles s' = articles s ++ added)
  /\ (forall page1 page2 page3 s1 s2,
        3 < maxPages ->
        fetch (pageUrlOf baseUrl 1) = Responded 200 (Some page1) ->
        archive_entries page1 <> [] -> truthy (pager_next_href page1) = true ->
        each (processEntry host sd ed) (archive_entries page1)
             (logged s (pageUrlOf baseUrl 1)) = Ok tt s1 ->
        fetch (pageUrlOf baseUrl 2) = Responded 200 (Some page2) ->
        archive_entries page2 <> [] -> truthy (pager_next_href page2) = true ->
        each (processEntry host sd ed) (archive_entries page2)
             (logged s1 (pageUrlOf baseUrl 2)) = Ok tt s2 ->
        fetch (pageUrlOf baseUrl 3) = Responded 200 (Some page3) ->
        archive_entries page3 = [] ->
        exists s',
          loop s = Ok tt s'
          /\ articles s' = articles s2
          /\ requests s' = requests s ++ [pageUrlOf baseUrl 1; pageUrlOf baseUrl 2;
                                          pageUrlOf baseUrl 3]
          /\ ~ In (pageUrlOf baseUrl 4)
                  [pageUrlOf baseUrl 1; pageUrlOf baseUrl 2; pageUrlOf baseUrl 3]).
Proof.
  intros F loop. repeat split.
  - destruct (whileLoop_pages host fetch sd ed baseUrl maxPages maxPages fuel
                (or_introl eq_refl) 1 true s) as (s' & k & added & E & K & R & A);
      [lia | replace (maxPages - 1 + 1) with maxPages by lia; assumption |].
    exists s', k, added. repeat split; auto. lia.
  - intros last L End.
    destruct (whileLoop_pages host fetch sd ed baseUrl maxPages last fuel
                (or_intror End) 1 true s) as (s' & k & added & E & K & R & A);
      [lia | replace (maxPages - 1 + 1) with maxPages by lia; assumption |].
    exists s', k, added. repeat split; auto. lia.
  - intros page1 page2 page3 s1 s2 M F1 N1 X1 E1 F2 N2 X2 E2 F3 N3.
    exists (logged s2 (pageUrlOf baseUrl 3)). unfold loop.
    do 4 (destruct fuel as [|fuel]; [lia|]).
    rewrite whileLoop_step by lia.
    rewrite (pageTurn_entries _ _ _ _ _ _ _ page1 F1 N1), E1, X1.
    change (1 + 1) with 2. rewrite whileLoop_step by lia.
    rewrite (pageTurn_entries _ _ _ _ _ _ _ page2 F2 N2), E2, X2.
    change (2 + 1) with 3. rewrite whileLoop_step by lia.
    rewrite (pageTurn_empty _ _ _ _ _ _ _ page3 F3 N3).
    rewrite whileLoop_done by reflexivity.
    destruct (each_effect host sd ed (archive_entries page1)
                (logged s (pageUrlOf baseUrl 1))) as (x1 & a1 & [R1 | R1] & _ & Q1);
      rewrite E1 in R1; inversion R1; subst x1.
    destruct (each_effect host sd ed (archive_entries page2)
                (logged s1 (pageUrlOf baseUrl 2))) as (x2 & a2 & [R2 | R2] & _ & Q2);
      rewrite E2 in R2; inversion R2; subst x2.
    repeat split.
    + cbn [logged requests] in *. rewrite Q2, Q1, <- !app_assoc. reflexivity.
    + apply pageUrlOf_4_fresh.
Qed.

Lemma C4_pagination_terminates_witness :
  exists s',
    whileLoop utc paged_site 6 (parse utc (js "2023-07-01"))
              (parse utc (js "2023-07-31")) blogUrl 5 1 true initial = Ok tt s'
    /\ map title (articles s') = [js "one"; js "two"]
    /\ requests s' = [pageUrlOf blogUrl 1; pageUrlOf blogUrl 2; pageUrlOf blogUrl 3].
Proof.
  destruct (C4_pagination_terminates utc paged_site (parse utc (js "2023-07-01"))
              (parse utc (js "2023-07-31")) blogUrl 5 6 initial
              ltac:(vm_compute; lia)) as (_ & _ & P).
  destruct (P _ _ _ _ _ ltac:(lia) eq_refl ltac:(discriminate) eq_refl eq_refl
              eq_refl ltac:(discriminate) eq_refl eq_refl eq_refl eq_refl)
    as (s' & E & A & R & _).
  exists s'. split; [exact E|]. split; [rewrite A | rewrite R]; reflexivity.
Defined.

(* ----------------------------------------------------------------- *)
(** ** The base URLs *)

Lemma set_add_fresh y acc :
  (forall x, In x acc -> x < y) -> set_add y acc = acc ++ [y].
Proof.
  intros L. unfold set_add.
  destruct (existsb (Z.eqb y) acc) eqn:X; auto.
  apply existsb_exists in X. destruct X as (x & Ix & Ex).
  apply Z.eqb_eq in Ex. specialize (L x Ix). lia.
Qed.

Lemma yearsLoop_range n : forall y acc,
  (forall x, In x acc -> x < y) ->
  yearsLoop n y acc = acc ++ yearsFrom y n.
Proof.
  induction n as [|n IH]; intros y acc L; cbn [yearsLoop yearsFrom pagesFrom].
  - rewrite app_nil_r. reflexivity.
  - rewrite set_add_fresh by assumption. rewrite IH.
    + rewrite <- app_assoc. reflexivity.
    + intros x Ix. apply in_app_or in Ix.
      destruct Ix as [Ix | [Ix | []]]; [specialize (L x Ix) |]; lia.
Qed.

(** The years enumerated: those from the local year of the start to the
    local year of the end. *)
Lemma yearsOf_range host s e :
  yearsOf host (Some s) (Some e)
  = yearsFrom (YearFromTime (s + localTZA host))
              (Z.to_nat (YearFromTime (e + localTZA host)
                         - YearFromTime (s + localTZA host) + 1)).
Proof.
  unfold yearsOf. cbn [getFullYear].
  rewrite yearsLoop_range by (intros x []). reflexivity.
Qed.

Lemma yearsFrom_In y n x : In x (yearsFrom y n) -> y <= x.
Proof.
  unfold yearsFrom. revert y. induction n as [|n IH]; intros y H; [destruct H|].
  destruct H as [H | H]; [lia|]. apply IH in H. lia.
Qed.

Lemma yearsFrom_NoDup y n : NoDup (yearsFrom y n).
Proof.
  unfold yearsFrom. revert y. induction n as [|n IH]; intros y; constructor; auto.
  intros I. apply (yearsFrom_In (y + 1) n y) in I. lia.
Qed.

Lemma uint_units_range u c : In c (uint_units u) -> 48 <= c <= 57.
Proof.
  induction u; cbn [uint_units]; intros H; try destruct H as [H | H];
    try (subst; lia); auto; destruct H.
Qed.

Lemma uint_units_inj u : forall v, uint_units u = uint_units v -> u = v.
Proof.
  induction u; intros v H; destruct v; cbn [uint_units] in H;
    try discriminate; try reflexivity;
    inversion H; f_equal; auto.
Qed.

Lemma numToString_inj a b : numToString a = numToString b -> a = b.
Proof.
  unfold numToString. intros H. apply DecimalZ.to_int_inj.
  destruct (Z.to_int a) as [u | u], (Z.to_int b) as [v | v].
  - f_equal. apply uint_units_inj. assumption.
  - exfalso. assert (I : In 45 (uint_units u)) by (rewrite H; left; reflexivity).
    apply uint_units_range in I. lia.
  - exfalso. assert (I : In 45 (uint_units v)) by (rewrite <- H; left; reflexivity).
    apply uint_units_range in I. lia.
  - inversion H. f_equal. apply uint_units_inj. assumption.
Qed.

Lemma archiveUrl_inj a b : archiveUrl a = archiveUrl b -> a = b.
Proof.
  unfold archiveUrl. intros H. apply app_inv_head in H. apply app_inv_head in H.
  apply numToString_inj. assumption.
Qed.

Lemma archiveUrl_not_root y : archiveUrl y <> blogUrl.
Proof.
  unfold archiveUrl. intros H. apply (f_equal (@List.length Z)) in H.
  rewrite !length_app in H.
  change (List.length (js "archive/")) with 8%nat in H. lia.
Qed.

Lemma urls_NoDup years :
  NoDup years -> NoDup (map archiveUrl years ++ [blogUrl]).
Proof.
  intros N. apply NoDup_app.
  - induction N as [|y l Nin N IH]; cbn [map]; constructor; auto.
    intros I. apply in_map_iff in I. destruct I as (z & E & Iz).
    apply archiveUrl_inj in E. subst z. contradiction.
  - repeat constructor. intros [].
  - intros u I [E | []]. subst u. apply in_map_iff in I.
    destruct I as (y & E & _). exact (archiveUrl_not_root y E).
Qed.

(** On a host at or east of Greenwich, well-formed dates give one archive
    URL for each year from the year of the start to the year of the end, in
    ascending order, then the root, all different. *)
Lemma urlsToCheck_east_of_greenwich host ys ms ds ye me de :
  valid_ymd ys ms ds -> valid_ymd ye me de ->
  0 <= localTZA host < msPerDay ->
  urlsToCheck host (ymd ys ms ds) (ymd ye me de)
  = map archiveUrl (yearsFrom ys (Z.to_nat (ye - ys + 1))) ++ [blogUrl]
  /\ NoDup (urlsToCheck host (ymd ys ms ds) (ymd ye me de)).
Proof.
  intros Vs Ve Z.
  assert (E : urlsToCheck host (ymd ys ms ds) (ymd ye me de)
              = map archiveUrl (yearsFrom ys (Z.to_nat (ye - ys + 1))) ++ [blogUrl]).
  { unfold urlsToCheck, yearsOf.
    rewrite (getFullYear_ymd host ys ms ds Vs Z).
    rewrite (getFullYear_ymd host ye me de Ve Z).
    rewrite yearsLoop_range by (intros x []). reflexivity. }
  split; [exact E|]. rewrite E. apply urls_NoDup, yearsFrom_NoDup.
Qed.

(** The dates of the example of the specification give the archives of
    2022 and 2023 and the root on every host within a day of Greenwich. *)
Lemma urlsToCheck_2022_2023 host :
  - msPerDay <= localTZA host <= msPerDay ->
  urlsToCheck host (js "2022-03-01") (js "2023-01-15")
  = [archiveUrl 2022; archiveUrl 2023; blogUrl].
Proof.
  intros Z. unfold urlsToCheck.
  replace (parse host (js "2022-03-01")) with (Some 1646092800000)
    by (vm_compute; reflexivity).
  replace (parse host (js "2023-01-15")) with (Some 1673740800000)
    by (vm_compute; reflexivity).
  rewrite yearsOf_range.
  assert (Y1 : YearFromTime (1646092800000 + localTZA host) = 2022).
  { apply YearFromDay_unique.
    change (DayFromYear 2022) with 18993. change (DayFromYear (2022 + 1)) with 19358.
    unfold Day, msPerDay in *. zdiv. }
  assert (Y2 : YearFromTime (1673740800000 + localTZA host) = 2023).
  { apply YearFromDay_unique.
    change (DayFromYear 2023) with 19358. change (DayFromYear (2023 + 1)) with 19723.
    unfold Day, msPerDay in *. zdiv. }
  rewrite Y1, Y2. reflexivity.
Qed.

(* ----------------------------------------------------------------- *)
(** ** C5: the base URLs of a run *)

(** C5 fails on a host west of Greenwich: the year is read in local time
    from a date parsed as UTC.  Five hours west, a start on 1 January 2023
    adds the archive of 2022, and an end on 1 January 2023 loses the archive
    of 2023. *)
Theorem C5_january_first_west_of_greenwich :
  urlsToCheck new_york (js "2023-01-01") (js "2023-01-15")
  = [js "https://tec.tecotec.co.jp/archive/2022";
     js "https://tec.tecotec.co.jp/archive/2023";
     js "https://tec.tecotec.co.jp/"]
  /\ urlsToCheck new_york (js "2022-06-01") (js "2023-01-01")
     = [js "https://tec.tecotec.co.jp/archive/2022";
        js "https://tec.tecotec.co.jp/"]
  /\ urlsToCheck utc (js "2022-03-01") (js "2023-01-15")
     = [js "https://tec.tecotec.co.jp/archive/2022";
        js "https://tec.tecotec.co.jp/archive/2023";
        js "https://tec.tecotec.co.jp/"].
Proof. repeat split; vm_compute; reflexivity. Qed.

(* ----------------------------------------------------------------- *)
(** ** C6: the order of the result *)

Lemma getTime_fromWindow host fetch sd ed a :
  fromWindow fetch sd ed a -> exists t, getTime host a = Some t.
Proof.
  intros (e & t & _ & E & R & _). subst a. unfold getTime.
  cbn [acceptedRecord date]. rewrite parse_isoDateString by assumption. eauto.
Qed.

Lemma compareFn_time host a b :
  compareFn host a b = match getTime host b, getTime host a with
                       | Some tb, Some ta => tb - ta
                       | _, _ => 0
                       end.
Proof. reflexivity. Qed.

(** C6: the list returned is the list of the accepted records, in the order
    of their acceptance, sorted by the time of their [date], latest first,
    records of the same date keeping their order.  Records dated
    2024-05-01, 2024-05-03, 2024-05-01, in this order, come out as the
    second, the first, the third. *)
Theorem C6_final_ordering host fetch fuel context :
  (Z.to_nat (maxPagesOf context) < fuel)%nat ->
  (exists accepted env s',
     forUrls host fetch fuel (parse host (startDate context))
       (parse host (endDate context)) (maxPagesOf context)
       (urlsToCheck host (startDate context) (endDate context)) initial
     = Ok tt accepted
     /\ execute host fetch fuel context initial = Ok env s'
     /\ Permutation (result_articles env) (articles accepted)
     /\ StronglySorted (newerFirst host) (result_articles env)
     /\ (forall d,
           filter (fun a => str_eqb (date a) d) (result_articles env)
           = filter (fun a => str_eqb (date a) d) (articles accepted)))
  /\ (forall a b c,
        date a = js "2024-05-01" -> date b = js "2024-05-03" ->
        date c = js "2024-05-01" ->
        sort (compareFn host) [a; b; c] = [b; a; c]).
Proof.
  intros F. split.
  - destruct (execute_summary host fetch fuel context F) as (s1 & E1 & W & _ & E).
    exists s1. eexists _, _. split; [exact E1|]. split; [exact E|].
    cbn [result_articles].
    destruct (sort_by_time (compareFn host) (getTime host) (compareFn_time host)
                (articles s1)) as (P & S & T).
    split; [exact P|]. split.
    + apply S. intros a Ia. rewrite Forall_forall in W.
      eapply getTime_fromWindow. apply W. assumption.
    + intros d. apply T. intros x y Px Py.
      apply str_eqb_eq in Px. apply str_eqb_eq in Py.
      unfold getTime. congruence.
  - intros a b c Ha Hb Hc.
    assert (T1 : parse host (js "2024-05-01") = Some 1714521600000)
      by (vm_compute; reflexivity).
    assert (T3 : parse host (js "2024-05-03") = Some 1714694400000)
      by (vm_compute; reflexivity).
    assert (Cbc : compareFn host b c = -172800000)
      by (unfold compareFn, getTime; rewrite Hb, Hc, T1, T3; reflexivity).
    assert (Cab : compareFn host a b = 172800000)
      by (unfold compareFn, getTime; rewrite Ha, Hb, T1, T3; reflexivity).
    assert (Cac : compareFn host a c = 0)
      by (unfold compareFn, getTime; rewrite Ha, Hc, T1; reflexivity).
    cbn [sort insert]. rewrite Cbc. cbn [insert Z.leb Z.compare].
    rewrite Cab. cbn [insert Z.leb Z.compare]. rewrite Cac. reflexivity.
Qed.

Lemma C6_final_ordering_witness :
  exists env s',
    execute utc may_site 6 may_2024 initial = Ok env s'
    /\ map title (result_articles env) = [js "second"; js "first"; js "third"]
    /\ StronglySorted (newerFirst utc) (result_articles env).
Proof.
  destruct (C6_final_ordering utc may_site 6 may_2024 ltac:(vm_compute; lia))
    as ((accepted & env & s' & _ & E & _ & S & _) & _).
  exists env, s'. split; [exact E|]. split; [|exact S].
  assert (X : Ok env s' = execute utc may_site 6 may_2024 initial)
    by (symmetry; exact E).
  vm_compute in X. inversion X. reflexivity.
Defined.

(* ----------------------------------------------------------------- *)
(** ** C7: a failure stays within its base URL *)

Lemma tryBlock_throw_turn host fetch sd ed baseUrl currentPage s e s1 :
  tryBlock host fetch sd ed baseUrl currentPage s = Throw e s1 ->
  pageTurn host fetch sd ed baseUrl currentPage s = Ok (Next currentPage false) s1.
Proof. intros T. unfold pageTurn, try_catch. rewrite T. reflexivity. Qed.

(** C7: given more fuel than [maxPages], the tool returns a result and no
    exception, whatever the site does.  When the try block of a page throws,
    at the fetch, at the body or in an entry, the loop of that base URL ends
    there: no further page of it is requested and the records accepted so
    far stay.  The loop over the base URLs then goes on with the next one,
    from its page 1.  If no page can be fetched at all the result is the
    empty list. *)
Theorem C7_failure_isolation host fetch fuel context :
  (Z.to_nat (maxPagesOf context) < fuel)%nat ->
  let sd := parse host (startDate context) in
  let ed := parse host (endDate context) in
  let maxPages := maxPagesOf context in
  (exists env s', execute host fetch fuel context initial = Ok env s')
  /\ (forall baseUrl currentPage s e s1,
        currentPage <= maxPages ->
        tryBlock host fetch sd ed baseUrl currentPage s = Throw e s1 ->
        whileLoop host fetch fuel sd ed baseUrl maxPages currentPage true s = Ok tt s1
        /\ requests s1 = requests s ++ [pageUrlOf baseUrl currentPage]
        /\ exists added, articles s1 = articles s ++ added)
  /\ (forall baseUrl rest s s1,
        whileLoop host fetch fuel sd ed baseUrl maxPages 1 true s = Ok tt s1 ->
        forUrls host fetch fuel sd ed maxPages (baseUrl :: rest) s
        = forUrls host fetch fuel sd ed maxPages rest s1)
  /\ ((forall u, fetch u = NetworkError) ->
      exists s',
        execute host fetch fuel context initial
        = Ok {| result_articles := [];
                totalCount := 0;
                period_startDate := startDate context;
                period_endDate := endDate context |} s').
Proof.
  intros F sd ed maxPages. repeat split.
  - destruct (execute_summary host fetch fuel context F) as (s1 & _ & _ & _ & E).
    eexists _, _. exact E.
  - destruct fuel as [|fuel]; [lia|]. rewrite whileLoop_step by assumption.
    rewrite (tryBlock_throw_turn _ _ _ _ _ _ _ _ _ H0).
    apply whileLoop_done. reflexivity.
  - pose proof (tryBlock_throw_turn _ _ _ _ _ _ _ _ _ H0) as T.
    destruct (pageTurn_shape host fetch sd ed baseUrl currentPage s)
      as (c & s' & added & E & _ & R & _).
    rewrite T in E. inversion E; subst. assumption.
  - pose proof (tryBlock_throw_turn _ _ _ _ _ _ _ _ _ H0) as T.
    destruct (pageTurn_shape host fetch sd ed baseUrl currentPage s)
      as (c & s' & added & E & A & _).
    rewrite T in E. inversion E; subst. exists added. assumption.
  - intros baseUrl rest s s1 E. cbn [forUrls]. unfold bind. rewrite E. reflexivity.
  - intros Down.
    destruct (execute_inv host fetch fuel context (fun s => articles s = []))
      as (s1 & _ & A & E); auto.
    + intros s e t _ (u & page & S & _). rewrite Down in S. discriminate.
    + eexists. rewrite E, A. reflexivity.
Qed.

Lemma C7_failure_isolation_witness :
  let sd := parse utc (startDate july_2023) in
  let ed := parse utc (endDate july_2023) in
  (exists env s', execute utc broken_archive_site 6 july_2023 initial = Ok env s')
  /\ whileLoop utc broken_archive_site 6 sd ed (archiveUrl 2023) 5 1 true initial
     = Ok tt (logged initial (archiveUrl 2023)).
Proof.
  intros sd ed.
  destruct (C7_failure_isolation utc broken_archive_site 6 july_2023
              ltac:(vm_compute; lia)) as (A & B & _).
  split; [exact A|].
  apply (B (archiveUrl 2023) 1 initial FetchError
           (logged initial (archiveUrl 2023))).
  - vm_compute. discriminate.
  - vm_compute. reflexivity.
Defined.

(* ----------------------------------------------------------------- *)
(** ** C8: the date of a record *)

Lemma entryTime_sources host e :
  entryTime host e =
  if truthy (archive_date_datetime e) then Some (attributeDate host e)
  else match js_match dateRegex (trim (archive_date_text e)) with
       | Some _ => Some (textDate host e)
       | None => None
       end.
Proof.
  unfold entryTime, entryDateText, attributeDate, textDate.
  destruct (truthy (archive_date_datetime e)) eqn:T; cbn [negb].
  - rewrite T. reflexivity.
  - destruct (js_match dateRegex (trim (archive_date_text e))) as [m|].
    + remember (capture 1 m ++ [45] ++ padStart2 (capture 2 m)
                ++ [45] ++ padStart2 (capture 3 m)) as d eqn:D.
      assert (Td : truthy (Some d) = true).
      { subst d. destruct (capture 1 m); reflexivity. }
      rewrite Td. f_equal. f_equal.
      destruct d; [discriminate | reflexivity].
    + rewrite T. reflexivity.
Qed.

(** C8: an entry whose datetime attribute is 2023-07-04T00:00:00Z is
    recorded with [date] 2023-07-04; so is an entry without the attribute
    whose time element reads 2023年7月4日, month and day padded to two digits
    (each when inside the window and no duplicate); an entry for which
    neither the attribute nor the text yields a date adds no record. *)
Theorem C8_date_normalization host sd ed e s :
  let t := 1688428800000 in
  date (acceptedRecord e t) = js "2023-07-04"
  /\ (archive_date_datetime e = Some (js "2023-07-04T00:00:00Z") ->
      inWindow sd ed t = true -> isDuplicate (articles s) e = false ->
      processEntry host sd ed e s = Ok tt (pushed s (acceptedRecord e t)))
  /\ (truthy (archive_date_datetime e) = false ->
      archive_date_text e = js "2023年7月4日" ->
      inWindow sd ed t = true -> isDuplicate (articles s) e = false ->
      processEntry host sd ed e s = Ok tt (pushed s (acceptedRecord e t)))
  /\ (attributeDate host e = None -> textDate host e = None ->
      processEntry host sd ed e s = Ok tt s
      \/ processEntry host sd ed e s = Throw RangeError s).
Proof.
  intros t. split; [reflexivity|]. repeat split.
  - intros A W D. rewrite processEntry_eq, entryTime_sources.
    unfold attributeDate. rewrite A. cbn [truthy str_or].
    change (js "2023-07-04T00:00:00Z")
      with [50; 48; 50; 51; 45; 48; 55; 45; 48; 52; 84; 48; 48; 58; 48; 48; 58;
            48; 48; 90].
    cbn [truthy str_or].
    replace (parse host [50; 48; 50; 51; 45; 48; 55; 45; 48; 52; 84; 48; 48; 58;
                         48; 48; 58; 48; 48; 90]) with (Some t)
      by (vm_compute; reflexivity).
    rewrite W, D. reflexivity.
  - intros A X W D. rewrite processEntry_eq, entryTime_sources, A.
    unfold textDate. rewrite X.
    replace (js_match dateRegex (trim (js "2023年7月4日")))
      with (Some {| opened := [];
                    closed := [(3%nat, [52]); (2%nat, [55]);
                               (1%nat, [50; 48; 50; 51])] |})
      by (vm_compute; reflexivity).
    replace (parse host _) with (Some t) by (vm_compute; reflexivity).
    rewrite W, D. reflexivity.
  - intros A X. rewrite processEntry_eq, entryTime_sources, A, X.
    destruct (truthy (archive_date_datetime e)); auto.
    destruct (js_match dateRegex (trim (archive_date_text e))); auto.
Qed.

Lemma C8_date_normalization_witness :
  processEntry utc (parse utc (js "2023-07-01")) (parse utc (js "2023-07-31"))
               stamped_entry initial
  = Ok tt (pushed initial (acceptedRecord stamped_entry 1688428800000))
  /\ processEntry utc (parse utc (js "2023-07-01")) (parse utc (js "2023-07-31"))
                  text_dated_entry initial
     = Ok tt (pushed initial (acceptedRecord text_dated_entry 1688428800000))
  /\ (processEntry utc (parse utc (js "2023-07-01")) (parse utc (js "2023-07-31"))
                   undated_entry initial = Ok tt initial
      \/ processEntry utc (parse utc (js "2023-07-01")) (parse utc (js "2023-07-31"))
                      undated_entry initial = Throw RangeError initial).
Proof.
  split; [|split].
  - destruct (C8_date_normalization utc (parse utc (js "2023-07-01"))
                (parse utc (js "2023-07-31")) stamped_entry initial)
      as (_ & A & _). apply A; reflexivity.
  - destruct (C8_date_normalization utc (parse utc (js "2023-07-01"))
                (parse utc (js "2023-07-31")) text_dated_entry initial)
      as (_ & _ & A & _). apply A; reflexivity.
  - destruct (C8_date_normalization utc (parse utc (js "2023-07-01"))
                (parse utc (js "2023-07-31")) undated_entry initial)
      as (_ & _ & _ & A). apply A; reflexivity.
Defined.

(* ----------------------------------------------------------------- *)
(** ** C10: an inverted range *)




End Claims.

(* ================================================================= *)
(** ** The formatter *)

Module FormatterClaims.
Import Date Formatter Notions FormatNotions SortFacts.

Lemma fold_left_rows (row : Article -> jsstring) l : forall acc,
  fold_left (fun acc article => acc ++ row article) l acc
  = acc ++ List.concat (map row l).
Proof.
  induction l as [|a l IH]; intros acc; cbn [fold_left map List.concat].
  - rewrite app_nil_r. reflexivity.
  - rewrite IH, <- app_assoc. reflexivity.
Qed.

Lemma formatter_compareFn_time host a b :
  compareFn host a b = match getTime host b, getTime host a with
                       | Some tb, Some ta => tb - ta
                       | _, _ => 0
                       end.
Proof. reflexivity. Qed.

Lemma str_or_missing o d : missing o -> str_or o d = d.
Proof. intros [E | E]; subst; reflexivity. Qed.

(** What each format writes for one article, cell by cell. *)
Lemma markdownRow_cells ic isum a :
  exists A C S,
    markdownRow ic isum a
    = js "| " ++ date a ++ js " | [" ++ title a ++ js "](" ++ url a ++ js ") | "
      ++ A ++ js " "
      ++ (if ic then js "| " ++ C ++ js " " else [])
      ++ (if isum then js "| " ++ S ++ js " " else [])
      ++ js "|" ++ nl
    /\ (missing (author a) -> A = NA)
    /\ (no_categories (categories a) -> C = NA)
    /\ (missing (summary a) -> S = NA).
Proof.
  exists (str_or (author a) NA), (markdownCategories a), (str_or (summary a) NA).
  split; [|split; [|split]].
  - unfold markdownRow. destruct ic, isum; rewrite <- ?app_assoc; reflexivity.
  - apply str_or_missing.
  - unfold markdownCategories. intros [E | E]; rewrite E; reflexivity.
  - apply str_or_missing.
Qed.

Lemma htmlRow_cells ic isum a :
  exists A C S,
    htmlRow ic isum a
    = lines [ [];
              js "      <tr>";
              js "        <td>" ++ date a ++ js "</td>";
              js "        <td><a href=" ++ quote ++ url a ++ quote ++ js " target="
                ++ quote ++ js "_blank" ++ quote ++ js ">" ++ title a
                ++ js "</a></td>";
              js "        <td>" ++ A ++ js "</td>";
              js "        " ++ (if ic then js "<td>" ++ C ++ js "</td>" else []);
              js "        " ++ (if isum then js "<td>" ++ S ++ js "</td>" else []);
              js "      </tr>";
              js "    " ]
    /\ (missing (author a) -> A = NA)
    /\ (no_categories (categories a) -> C = NA)
    /\ (missing (summary a) -> S = NA).
Proof.
  exists (str_or (author a) NA), (htmlCategories a), (str_or (summary a) NA).
  split; [|split; [|split]].
  - reflexivity.
  - apply str_or_missing.
  - unfold htmlCategories. intros [E | E]; rewrite E; reflexivity.
  - apply str_or_missing.
Qed.

Lemma csvRow_cells ic isum a :
  exists A C S,
    csvRow ic isum a
    = date a ++ js "," ++ escapeCsv (title a) ++ js "," ++ url a ++ js "," ++ A
      ++ (if ic then js "," ++ C else [])
      ++ (if isum then js "," ++ S else [])
      ++ nl
    /\ (missing (author a) -> A = [])
    /\ (no_categories (categories a) -> C = [])
    /\ (missing (summary a) -> S = []).
Proof.
  exists (escapeCsv (str_or (author a) [])), (escapeCsv (csvCategories a)),
         (escapeCsv (str_or (summary a) [])).
  split; [|split; [|split]].
  - unfold csvRow. destruct ic, isum; rewrite <- ?app_assoc; reflexivity.
  - intros M. rewrite (str_or_missing _ _ M). reflexivity.
  - unfold csvCategories. intros [E | E]; rewrite E; reflexivity.
  - intros M. rewrite (str_or_missing _ _ M). reflexivity.
Qed.

(** C9, as stated, fails: the comparator counts a date that does not parse
    as a tie with every other date, so a list in which such a date stands
    between an earlier and a later date is left as it is, in this order and
    in the reverse order: the output is not latest first, and it depends on
    the order of the input. *)
Lemma C9_unparsable_date_among_parsable_ones :
  sort (compareFn Examples.utc) mixed_dates = mixed_dates
  /\ sort (compareFn Examples.utc) (List.rev mixed_dates) = List.rev mixed_dates
  /\ map date (sort (compareFn Examples.utc) mixed_dates)
     = [js "2024-05-01"; js "someday"; js "2024-05-03"]
  /\ map (getTime Examples.utc) (sort (compareFn Examples.utc) mixed_dates)
     = [Some 1714521600000; None; Some 1714694400000]
  /\ rendered (execute Examples.utc (fun _ => []) (mixed mixed_dates))
     = rendered (formatMarkdown mixed_dates false false)
  /\ rendered (execute Examples.utc (fun _ => []) (mixed (List.rev mixed_dates)))
     <> rendered (execute Examples.utc (fun _ => []) (mixed mixed_dates)).
Proof. vm_compute. repeat split. discriminate. Qed.

(** C9, amended: the formatter returns one string under the name of the
    format; when every date parses, the articles are sorted by the time of
    [date], latest first, by a stable sort (a permutation of the input, the
    same for every order of an input with pairwise different dates), and the
    string is made of the head of the table, the rows of the sorted
    articles in order and, for html, the tail; in markdown and html the cell
    of a missing author, summary or list of categories reads N/A, in csv the
    field is empty. *)
Theorem C9_formatter_contract host JSON_stringify context :
  let sorted := sort (compareFn host) (articles context) in
  let ic := includeCategories context in
  let isum := includeSummary context in
  let out := execute host JSON_stringify context in
  key out = formatName (format context)
  /\ ((forall a, In a (articles context) -> exists t, getTime host a = Some t) ->
      Permutation sorted (articles context)
      /\ StronglySorted (newerFirst host) sorted
      /\ (forall p : Article -> bool,
            (forall x y, p x = true -> p y = true ->
                         getTime host x = getTime host y) ->
            filter p sorted = filter p (articles context))
      /\ (forall l',
            Permutation l' (articles context) ->
            NoDup (map (timeKey (getTime host)) (articles context)) ->
            sort (compareFn host) l' = sorted)
      /\ rendered out
         = match format context with
           | markdown =>
             rendered (formatMarkdown [] ic isum)
             ++ List.concat (map (markdownRow ic isum) sorted)
           | html =>
             htmlHead ic isum ++ List.concat (map (htmlRow ic isum) sorted)
             ++ htmlTail
           | csv =>
             rendered (formatCsv [] ic isum)
             ++ List.concat (map (csvRow ic isum) sorted)
           | json => JSON_stringify sorted
           end)
  /\ (forall a,
        exists A C S,
          markdownRow ic isum a
          = js "| " ++ date a ++ js " | [" ++ title a ++ js "](" ++ url a ++ js ") | "
            ++ A ++ js " "
            ++ (if ic then js "| " ++ C ++ js " " else [])
            ++ (if isum then js "| " ++ S ++ js " " else [])
            ++ js "|" ++ nl
          /\ (missing (author a) -> A = NA)
          /\ (no_categories (categories a) -> C = NA)
          /\ (missing (summary a) -> S = NA))
  /\ (forall a,
        exists A C S,
          htmlRow ic isum a
          = lines [ [];
                    js "      <tr>";
                    js "        <td>" ++ date a ++ js "</td>";
                    js "        <td><a href=" ++ quote ++ url a ++ quote
                      ++ js " target=" ++ quote ++ js "_blank" ++ quote ++ js ">"
                      ++ title a ++ js "</a></td>";
                    js "        <td>" ++ A ++ js "</td>";
                    js "        " ++ (if ic then js "<td>" ++ C ++ js "</td>" else []);
                    js "        " ++ (if isum then js "<td>" ++ S ++ js "</td>" else []);
                    js "      </tr>";
                    js "    " ]
          /\ (missing (author a) -> A = NA)
          /\ (no_categories (categories a) -> C = NA)
          /\ (missing (summary a) -> S = NA))
  /\ (forall a,
        exists A C S,
          csvRow ic isum a
          = date a ++ js "," ++ escapeCsv (title a) ++ js "," ++ url a ++ js ","
            ++ A
            ++ (if ic then js "," ++ C else [])
            ++ (if isum then js "," ++ S else [])
            ++ nl
          /\ (missing (author a) -> A = [])
          /\ (no_categories (categories a) -> C = [])
          /\ (missing (summary a) -> S = [])).
Proof.
  intros sorted ic isum out.
  destruct (sort_by_time (compareFn host) (getTime host) (formatter_compareFn_time host)
              (articles context)) as (P & S & St).
  split; [|split; [|split; [|split]]].
  - unfold out, execute. destruct (format context); reflexivity.
  - intros V. split; [exact P|]. split; [apply S; exact V|].
    split; [exact St|]. split.
    + intros l' Pl N.
      apply (sort_order_independent (compareFn host) (getTime host)
               (formatter_compareFn_time host)); assumption.
    + unfold out, execute. fold sorted ic isum.
      destruct (format context); cbn [rendered];
        unfold formatMarkdown, formatHtml, formatCsv; cbn [rendered fold_left];
        rewrite ?fold_left_rows, <- ?app_assoc; reflexivity.
  - intros a. apply markdownRow_cells.
  - intros a. apply htmlRow_cells.
  - intros a. apply csvRow_cells.
Qed.

Lemma C9_formatter_contract_witness :
  StronglySorted (newerFirst Examples.utc) (sort (compareFn Examples.utc) (articles (sample markdown)))
  /\ key (execute Examples.utc (fun _ => []) (sample csv)) = js "csv"
  /\ map title (sort (compareFn Examples.utc) (articles (sample markdown)))
     = [js "Full"; js "Bare"].
Proof.
  destruct (C9_formatter_contract Examples.utc (fun _ => []) (sample markdown))
    as (_ & S & _).
  destruct (C9_formatter_contract Examples.utc (fun _ => []) (sample csv))
    as (K & _).
  split; [|split; [exact K | reflexivity]].
  apply S. intros a [E | [E | []]]; subst a; eexists; vm_compute; reflexivity.
Defined.

End FormatterClaims.
(* ================================================================= *)
(** * Further properties of the scraper *)

Module ScraperExtras.
Import Date Scraper Notions MoreNotions DateFacts SortFacts ScraperFacts Examples.

(** ** Inputs at the edge *)

Lemma inWindow_invalid_bound sd ed t :
  sd = None \/ ed = None -> inWindow sd ed t = false.
Proof.
  unfold inWindow, date_le. intros [E | E]; subst; [reflexivity|].
  destruct sd; [apply andb_false_r | reflexivity].
Qed.

Lemma yearsOf_invalid host sd ed :
  sd = None \/ ed = None -> yearsOf host sd ed = [].
Proof.
  unfold yearsOf. intros [E | E]; subst; cbn [getFullYear]; [reflexivity|].
  destruct (getFullYear host sd); reflexivity.
Qed.

(** X1: when one of the two input dates does not parse, the tool still
    returns without an exception: the only base URL is the root, only pages
    of the root are requested, no entry is accepted, and the result is the
    empty list with count 0 and the inputs as given. *)
Theorem unparsable_date_gives_the_empty_result host fetch fuel context :
  parse host (startDate context) = None \/ parse host (endDate context) = None ->
  (Z.to_nat (maxPagesOf context) < fuel)%nat ->
  urlsToCheck host (startDate context) (endDate context) = [blogUrl]
  /\ exists k,
       Z.of_nat k <= Z.max 0 (maxPagesOf context)
       /\ execute host fetch fuel context initial
          = Ok {| result_articles := [];
                  totalCount := 0;
                  period_startDate := startDate context;
                  period_endDate := endDate context |}
               {| articles := [];
                  requests := map (pageUrlOf blogUrl) (pagesFrom 1 k) |}.
Proof.
  intros Bad F.
  assert (U : urlsToCheck host (startDate context) (endDate context) = [blogUrl]).
  { unfold urlsToCheck. rewrite yearsOf_invalid by assumption. reflexivity. }
  split; [exact U|].
  destruct (whileLoop_pages host fetch (parse host (startDate context))
              (parse host (endDate context)) blogUrl (maxPagesOf context)
              (maxPagesOf context) fuel (or_introl eq_refl) 1 true initial)
    as (s1 & k & added & E & K & R & A);
    [lia | replace (maxPagesOf context - 1 + 1) with (maxPagesOf context) by lia;
           assumption |].
  destruct (whileLoop_inv host fetch (parse host (startDate context))
              (parse host (endDate context)) (fun s => articles s = [])
              ltac:(intros s e t _ _ (_ & W & _);
                    rewrite (inWindow_invalid_bound _ _ t Bad) in W; discriminate)
              ltac:(intros s u H; exact H)
              blogUrl (maxPagesOf context) fuel 1 true initial)
    as (s2 & E2 & A2);
    [replace (maxPagesOf context - 1 + 1) with (maxPagesOf context) by lia;
     assumption | reflexivity |].
  rewrite E in E2. inversion E2; subst s2.
  exists k. split; [lia|].
  rewrite execute_eq, U. cbn [forUrls]. unfold bind. rewrite E. cbn [ret].
  cbv zeta. rewrite A2. cbn [sort List.length Z.of_nat].
  cbn [initial requests app] in R. rewrite R. reflexivity.
Qed.

Lemma unparsable_date_gives_the_empty_result_witness :
  exists k,
    execute utc july_window_site 6 unparsable_dates initial
    = Ok {| result_articles := [];
            totalCount := 0;
            period_startDate := js "last week";
            period_endDate := js "2023-07-31" |}
         {| articles := []; requests := map (pageUrlOf blogUrl) (pagesFrom 1 k) |}.
Proof.
  destruct (unparsable_date_gives_the_empty_result utc july_window_site 6
              unparsable_dates)
    as (_ & k & _ & E).
  - left. vm_compute. reflexivity.
  - vm_compute. lia.
  - exists k. exact E.
Defined.

Lemma forUrls_no_turn host fetch fuel sd ed maxPages urls : forall s,
  maxPages <= 0 -> forUrls host fetch fuel sd ed maxPages urls s = Ok tt s.
Proof.
  induction urls as [|u urls IH]; intros s M; [reflexivity|].
  cbn [forUrls]. unfold bind.
  rewrite whileLoop_done
    by (apply andb_false_iff; right; apply Z.leb_gt; lia).
  apply IH. assumption.
Qed.

(** X2: with [maxPages] zero or negative the tool sends no request at all,
    whatever the fuel, and returns the empty result. *)
Theorem nonpositive_maxPages_sends_no_request host fetch fuel context :
  maxPagesOf context <= 0 ->
  execute host fetch fuel context initial
  = Ok {| result_articles := [];
          totalCount := 0;
          period_startDate := startDate context;
          period_endDate := endDate context |}
       {| articles := []; requests := [] |}.
Proof.
  intros M. rewrite execute_eq, forUrls_no_turn by assumption. reflexivity.
Qed.

Lemma nonpositive_maxPages_sends_no_request_witness :
  execute utc july_window_site 0 no_pages initial
  = Ok {| result_articles := [];
          totalCount := 0;
          period_startDate := js "2023-07-01";
          period_endDate := js "2023-07-31" |}
       {| articles := []; requests := [] |}.
Proof.
  apply (nonpositive_maxPages_sends_no_request utc july_window_site 0 no_pages).
  vm_compute. discriminate.
Defined.

(** ** The base URLs *)

Lemma urlsToCheck_shape host sd ed :
  exists y n,
    urlsToCheck host sd ed = map archiveUrl (yearsFrom y n) ++ [blogUrl].
Proof.
  unfold urlsToCheck.
  destruct (parse host sd) as [s|] eqn:Ps; [destruct (parse host ed) as [e|] eqn:Pe|].
  - rewrite Claims.yearsOf_range. eexists _, _. reflexivity.
  - rewrite yearsOf_invalid by auto. exists 0, 0%nat. reflexivity.
  - rewrite yearsOf_invalid by auto. exists 0, 0%nat. reflexivity.
Qed.

Lemma urlsToCheck_NoDup host sd ed : NoDup (urlsToCheck host sd ed).
Proof.
  destruct (urlsToCheck_shape host sd ed) as (y & n & E). rewrite E.
  apply Claims.urls_NoDup, Claims.yearsFrom_NoDup.
Qed.

(** X3: whatever the two input strings are, the base URLs are the archives
    of a run of consecutive years in ascending order, followed by the root
    of the blog, and no base URL occurs twice. *)
Theorem base_urls_are_consecutive_archives_then_the_root host sd ed :
  exists y n,
    urlsToCheck host sd ed = map archiveUrl (yearsFrom y n) ++ [blogUrl]
    /\ NoDup (urlsToCheck host sd ed).
Proof.
  destruct (urlsToCheck_shape host sd ed) as (y & n & E).
  exists y, n. split; [exact E | apply urlsToCheck_NoDup].
Qed.

Lemma pagesFrom_In a k p : In p (pagesFrom a k) <-> a <= p < a + Z.of_nat k.
Proof.
  revert a. induction k as [|k IH]; intros a; cbn [pagesFrom In].
  - split; [intros [] | lia].
  - rewrite IH. lia.
Qed.

Lemma pagesFrom_length a k : List.length (pagesFrom a k) = k.
Proof. revert a. induction k as [|k IH]; intros a; cbn [pagesFrom List.length]; auto. Qed.

(** X4: on a host at or east of Greenwich, two well-formed dates give one
    archive for each calendar year from the year of the start date to the
    year of the end date and for no other year, then the root. *)
Theorem one_archive_per_year_east_of_greenwich host ys ms ds ye me de :
  valid_ymd ys ms ds -> valid_ymd ye me de ->
  0 <= localTZA host < msPerDay ->
  urlsToCheck host (ymd ys ms ds) (ymd ye me de)
  = map archiveUrl (yearsFrom ys (Z.to_nat (ye - ys + 1))) ++ [blogUrl]
  /\ (forall y, In (archiveUrl y) (urlsToCheck host (ymd ys ms ds) (ymd ye me de))
                <-> ys <= y <= ye)
  /\ List.length (urlsToCheck host (ymd ys ms ds) (ymd ye me de))
     = S (Z.to_nat (ye - ys + 1)).
Proof.
  intros Vs Ve Tz.
  destruct (Claims.urlsToCheck_east_of_greenwich host ys ms ds ye me de Vs Ve Tz)
    as (E & _).
  rewrite E. split; [reflexivity|]. split.
  - intros y. rewrite in_app_iff, in_map_iff. split.
    + intros [(x & Ex & Ix) | [Er | []]].
      * apply Claims.archiveUrl_inj in Ex. subst x.
        unfold yearsFrom in Ix. apply pagesFrom_In in Ix. lia.
      * symmetry in Er. destruct (Claims.archiveUrl_not_root y Er).
    + intros R. left. exists y. split; [reflexivity|].
      unfold yearsFrom. apply pagesFrom_In. lia.
  - rewrite length_app, length_map. unfold yearsFrom. rewrite pagesFrom_length.
    cbn [List.length]. lia.
Qed.

Lemma one_archive_per_year_east_of_greenwich_witness :
  urlsToCheck tokyo (js "2022-12-31") (js "2024-01-01")
  = [archiveUrl 2022; archiveUrl 2023; archiveUrl 2024; blogUrl].
Proof.
  destruct (one_archive_per_year_east_of_greenwich tokyo 2022 12 31 2024 1 1)
    as (E & _).
  - vm_compute. repeat split; discriminate.
  - vm_compute. repeat split; discriminate.
  - vm_compute. split; [discriminate | reflexivity].
  - exact E.
Defined.

Lemma getFullYear_west h y m d :
  valid_ymd y m d -> - msPerDay <= localTZA h < 0 ->
  getFullYear h (parse h (ymd y m d)) = Some (yearOfTheEveningBefore y m d).
Proof.
  intros V Tz. rewrite parse_ymd by assumption. unfold getFullYear. f_equal.
  unfold YearFromTime. apply YearFromDay_unique.
  replace (Day (midnight y m d + localTZA h)) with (MakeDay y (m - 1) d - 1)
    by (unfold midnight, MakeDate, Day, msPerDay in *; zdiv).
  pose proof (valid_ymd_day y m d V) as ((Lo & Hi) & _).
  destruct V as (_ & M & D).
  unfold yearOfTheEveningBefore.
  destruct ((m =? 1) && (d =? 1)) eqn:J.
  - apply andb_true_iff in J. destruct J as (Jm & Jd).
    apply Z.eqb_eq in Jm, Jd. subst m d.
    replace (y - 1 + 1) with y by lia.
    pose proof (DayFromYear_succ (y - 1)) as S.
    replace (y - 1 + 1) with y in S by lia.
    destruct (DaysInYear_cases (y - 1)).
    + unfold MakeDay. change (monthStart (leapDays y) (1 - 1)) with 0. lia.
    + unfold MakeDay. change (monthStart (leapDays y) (1 - 1)) with 0. lia.
  - split; [|lia].
    apply andb_false_iff in J. unfold MakeDay.
    destruct (leapDays_cases y) as [L | L]; rewrite L;
      assert (C : m = 1 \/ m = 2 \/ m = 3 \/ m = 4 \/ m = 5 \/ m = 6 \/ m = 7
                  \/ m = 8 \/ m = 9 \/ m = 10 \/ m = 11 \/ m = 12) by lia;
      repeat (destruct C as [C | C]; [subst m; cbn; destruct J as [J | J];
                                       try discriminate;
                                       try (apply Z.eqb_neq in J); lia|]);
      subst m; cbn; lia.
Qed.

(** X5: on a host less than a day west of Greenwich a bound that is the
    first of January counts for the year before: the archives crawled run
    from the year of the evening before the start date to the year of the
    evening before the end date. *)
Theorem base_urls_west_of_greenwich host ys ms ds ye me de :
  valid_ymd ys ms ds -> valid_ymd ye me de ->
  - msPerDay <= localTZA host < 0 ->
  urlsToCheck host (ymd ys ms ds) (ymd ye me de)
  = map archiveUrl
      (yearsFrom (yearOfTheEveningBefore ys ms ds)
         (Z.to_nat (yearOfTheEveningBefore ye me de
                    - yearOfTheEveningBefore ys ms ds + 1)))
    ++ [blogUrl].
Proof.
  intros Vs Ve Tz. unfold urlsToCheck, yearsOf.
  rewrite (getFullYear_west host ys ms ds Vs Tz).
  rewrite (getFullYear_west host ye me de Ve Tz).
  rewrite Claims.yearsLoop_range by (intros x []). reflexivity.
Qed.

Lemma base_urls_west_of_greenwich_witness :
  urlsToCheck new_york (ymd 2023 1 1) (ymd 2024 1 1)
  = [archiveUrl 2022; archiveUrl 2023; blogUrl].
Proof.
  rewrite (base_urls_west_of_greenwich new_york 2023 1 1 2024 1 1).
  - vm_compute. reflexivity.
  - vm_compute. repeat split; discriminate.
  - vm_compute. repeat split; discriminate.
  - vm_compute. split; [discriminate | reflexivity].
Defined.

(** ** The requests of a run *)

Lemma planRequests_cons baseUrl k plan :
  planRequests ((baseUrl, k) :: plan)
  = map (pageUrlOf baseUrl) (pagesFrom 1 k) ++ planRequests plan.
Proof. reflexivity. Qed.

Lemma forUrls_plan host fetch sd ed maxPages fuel urls : forall s,
  (Z.to_nat maxPages < fuel)%nat ->
  exists s' plan,
    forUrls host fetch fuel sd ed maxPages urls s = Ok tt s'
    /\ map fst plan = urls
    /\ Forall (fun visit => Z.of_nat (snd visit) <= Z.max 0 maxPages) plan
    /\ requests s' = requests s ++ planRequests plan.
Proof.
  induction urls as [|u urls IH]; intros s F.
  - exists s, []. cbn. rewrite app_nil_r. auto.
  - cbn [forUrls]. unfold bind.
    destruct (whileLoop_pages host fetch sd ed u maxPages maxPages fuel
                (or_introl eq_refl) 1 true s)
      as (s1 & k & added & E & K & R & _);
      [lia | replace (maxPages - 1 + 1) with maxPages by lia; assumption |].
    rewrite E.
    destruct (IH s1 F) as (s2 & plan & E2 & P1 & P2 & R2).
    exists s2, ((u, k) :: plan). split; [assumption|]. split; [|split].
    + cbn [map fst]. congruence.
    + constructor; [cbn [snd]; lia | assumption].
    + rewrite R2, R, planRequests_cons, app_assoc. reflexivity.
Qed.

Lemma planRequests_length plan bound :
  Forall (fun visit : jsstring * nat => (snd visit <= bound)%nat) plan ->
  (List.length (planRequests plan) <= List.length plan * bound)%nat.
Proof.
  induction 1 as [|[u k] plan K _ IH]; [cbn; lia|].
  rewrite planRequests_cons, length_app, length_map, pagesFrom_length.
  cbn [snd List.length] in *. lia.
Qed.

(** X6: the requests of a run are, for each base URL in turn, its pages
    from page 1 on without a gap, at most [maxPages] of them; so a run sends
    at most [maxPages] requests for each base URL. *)
Theorem requests_are_the_first_pages_of_each_base_url host fetch fuel context :
  (Z.to_nat (maxPagesOf context) < fuel)%nat ->
  exists envelope s' plan,
    execute host fetch fuel context initial = Ok envelope s'
    /\ map fst plan = urlsToCheck host (startDate context) (endDate context)
    /\ Forall (fun visit => Z.of_nat (snd visit) <= Z.max 0 (maxPagesOf context)) plan
    /\ requests s' = planRequests plan
    /\ (List.length (requests s')
        <= List.length (urlsToCheck host (startDate context) (endDate context))
           * Z.to_nat (maxPagesOf context))%nat.
Proof.
  intros F.
  destruct (forUrls_plan host fetch (parse host (startDate context))
              (parse host (endDate context)) (maxPagesOf context) fuel
              (urlsToCheck host (startDate context) (endDate context)) initial F)
    as (s1 & plan & E & P1 & P2 & R).
  rewrite execute_eq, E. cbv zeta. eexists _, _, plan.
  split; [reflexivity|]. cbn [requests] in *.
  repeat split; auto.
  rewrite R, <- P1, length_map. cbn [initial requests app].
  apply planRequests_length.
  eapply Forall_impl; [|exact P2]. intros [u k]. cbn [snd]. lia.
Qed.

Lemma requests_are_the_first_pages_of_each_base_url_witness :
  exists envelope s' plan,
    execute utc july_window_site 6 july_2023 initial = Ok envelope s'
    /\ requests s' = planRequests plan
    /\ (List.length (requests s') <= 2 * 5)%nat.
Proof.
  destruct (requests_are_the_first_pages_of_each_base_url utc july_window_site 6
              july_2023)
    as (envelope & s' & plan & E & _ & _ & R & L).
  - vm_compute. lia.
  - exists envelope, s', plan. split; [exact E|]. split; [exact R|].
    exact L.
Defined.

Lemma split_at_query u : forall u' x y,
  ~ In 63 u -> ~ In 63 u' -> u ++ 63 :: x = u' ++ 63 :: y -> u = u' /\ x = y.
Proof.
  induction u as [|c u IH]; intros [|c' u'] x y N N' E; cbn [app] in E.
  - inversion E. auto.
  - inversion E. subst c'. destruct N'. left; reflexivity.
  - inversion E. subst c. destruct N. left; reflexivity.
  - inversion E. subst c'.
    destruct (IH u' x y) as (A & B); auto.
    + intros I. apply N. right; assumption.
    + intros I. apply N'. right; assumption.
    + subst. auto.
Qed.

Lemma query_prefix : js "?page=" = 63 :: js "page=".
Proof. reflexivity. Qed.

(** Different pages of query-free base URLs have different page URLs. *)
Lemma pageUrlOf_inj u u' p q :
  ~ In 63 u -> ~ In 63 u' ->
  pageUrlOf u p = pageUrlOf u' q -> u = u' /\ p = q.
Proof.
  intros N N' E. unfold pageUrlOf in E.
  destruct (p =? 1) eqn:P, (q =? 1) eqn:Q.
  - apply Z.eqb_eq in P, Q. subst. auto.
  - exfalso. apply N. rewrite E, query_prefix, in_app_iff. right; left; reflexivity.
  - exfalso. apply N'. rewrite <- E, query_prefix, in_app_iff. right; left; reflexivity.
  - rewrite query_prefix in E. cbn [app] in E.
    apply split_at_query in E; auto. destruct E as (A & B).
    apply app_inv_head in B. apply Claims.numToString_inj in B. auto.
Qed.

Lemma not_In_63 u : forallb (fun c => negb (c =? 63)) u = true -> ~ In 63 u.
Proof.
  intros H I. rewrite forallb_forall in H. apply H in I. discriminate.
Qed.

Lemma numToString_no_query n : ~ In 63 (numToString n).
Proof.
  unfold numToString. destruct (Z.to_int n) as [u | u].
  - intros I. apply Claims.uint_units_range in I. lia.
  - intros [I | I]; [discriminate|]. apply Claims.uint_units_range in I. lia.
Qed.

Lemma base_url_no_query host sd ed u :
  In u (urlsToCheck host sd ed) -> ~ In 63 u.
Proof.
  unfold urlsToCheck. rewrite in_app_iff, in_map_iff.
  intros [(y & E & _) | [E | []]]; subst u.
  - unfold archiveUrl. rewrite !in_app_iff. intros [I | [I | I]].
    + revert I. apply not_In_63. reflexivity.
    + revert I. apply not_In_63. reflexivity.
    + exact (numToString_no_query y I).
  - apply not_In_63. reflexivity.
Qed.

Lemma planRequests_In plan r :
  In r (planRequests plan) ->
  exists u k p, In (u, k) plan /\ 1 <= p /\ r = pageUrlOf u p.
Proof.
  induction plan as [|[u k] plan IH]; [intros []|].
  rewrite planRequests_cons, in_app_iff, in_map_iff.
  intros [(p & E & I) | I].
  - apply pagesFrom_In in I. exists u, k, p. split; [left; reflexivity|].
    split; [lia | auto].
  - destruct (IH I) as (u' & k' & p & I' & P & E).
    exists u', k', p. split; [right; assumption | auto].
Qed.

Lemma NoDup_map_on {A B} (f : A -> B) (l : list A) :
  (forall x y, In x l -> In y l -> f x = f y -> x = y) ->
  NoDup l -> NoDup (map f l).
Proof.
  intros Inj N. induction N as [|x l Nx N IH]; cbn [map]; constructor.
  - intros I. apply in_map_iff in I. destruct I as (y & E & Iy).
    apply Inj in E; [subst; contradiction | right; assumption | left; reflexivity].
  - apply IH. intros a b Ia Ib. apply Inj; right; assumption.
Qed.

Lemma planRequests_NoDup plan :
  NoDup (map fst plan) ->
  (forall u, In u (map fst plan) -> ~ In 63 u) ->
  NoDup (planRequests plan).
Proof.
  induction plan as [|[u k] plan IH]; intros N Q; [constructor|].
  cbn [map fst] in N, Q. inversion N as [|? ? Nu Nr]; subst.
  rewrite planRequests_cons. apply NoDup_app.
  - apply NoDup_map_on.
    + intros p q _ _ E. apply pageUrlOf_inj in E; [tauto | |]; apply Q; left; reflexivity.
    + apply (Claims.yearsFrom_NoDup 1 k).
  - apply IH; auto. intros x I. apply Q. right; assumption.
  - intros r I1 I2. apply in_map_iff in I1. destruct I1 as (p & E1 & _).
    apply planRequests_In in I2. destruct I2 as (u' & k' & q & I' & _ & E2).
    subst r. apply pageUrlOf_inj in E2.
    + destruct E2 as (E2 & _). subst u'. apply Nu.
      apply in_map_iff. exists (u, k'). auto.
    + apply Q. left; reflexivity.
    + apply Q. right. apply in_map_iff. exists (u', k'). auto.
Qed.

(** X7: no URL is requested twice in a run, whatever the site answers. *)
Theorem no_url_is_requested_twice host fetch fuel context :
  (Z.to_nat (maxPagesOf context) < fuel)%nat ->
  exists envelope s',
    execute host fetch fuel context initial = Ok envelope s'
    /\ NoDup (requests s').
Proof.
  intros F.
  destruct (forUrls_plan host fetch (parse host (startDate context))
              (parse host (endDate context)) (maxPagesOf context) fuel
              (urlsToCheck host (startDate context) (endDate context)) initial F)
    as (s1 & plan & E & P1 & _ & R).
  rewrite execute_eq, E. cbv zeta. eexists _, _.
  split; [reflexivity|]. cbn [requests initial app] in *. rewrite R.
  apply planRequests_NoDup; unfold jsstring in *.
  - rewrite P1. apply urlsToCheck_NoDup.
  - intros u. rewrite P1. apply base_url_no_query.
Qed.

Lemma no_url_is_requested_twice_witness :
  exists envelope s',
    execute utc july_window_site 6 july_2023 initial = Ok envelope s'
    /\ NoDup (requests s').
Proof.
  apply (no_url_is_requested_twice utc july_window_site 6 july_2023).
  vm_compute. lia.
Defined.

(** ** The fields of a record *)

Lemma trimStart_suffix s : exists p, s = p ++ trimStart s.
Proof.
  induction s as [|c s (p & IH)]; [exists []; reflexivity|].
  cbn [trimStart]. destruct (is_space c).
  - exists (c :: p). cbn [app]. congruence.
  - exists []. reflexivity.
Qed.

Lemma trimStart_starts_clean s : starts_clean (trimStart s).
Proof.
  induction s as [|c s IH]; [exact I|].
  cbn [trimStart]. destruct (is_space c) eqn:C; [assumption | exact C].
Qed.

Lemma trim_edge_free s : edge_free (trim s).
Proof.
  unfold edge_free, trim. rewrite rev_involutive. split.
  - pose proof (trimStart_starts_clean s) as A.
    destruct (trimStart_suffix (List.rev (trimStart s))) as (p & E).
    apply (f_equal (@List.rev Z)) in E. rewrite rev_involutive, rev_app_distr in E.
    destruct (List.rev (trimStart (List.rev (trimStart s)))) as [|c r]; [exact I|].
    rewrite E in A. exact A.
  - apply trimStart_starts_clean.
Qed.

Lemma trimStart_clean s : starts_clean s -> trimStart s = s.
Proof.
  destruct s as [|c s]; [reflexivity|]. cbn [starts_clean trimStart].
  intros C. rewrite C. reflexivity.
Qed.

(** Trimming a trimmed string changes nothing. *)
Lemma trim_idempotent s : trim (trim s) = trim s.
Proof.
  destruct (trim_edge_free s) as (A & B). unfold trim at 1.
  rewrite (trimStart_clean _ A), (trimStart_clean _ B). apply rev_involutive.
Qed.

(** X8: every record of the result has an author and a summary that are not
    empty, and its title and each of its categories have no white space at
    either end. *)
Theorem records_have_author_and_summary_and_trimmed_text host fetch fuel context :
  (Z.to_nat (maxPagesOf context) < fuel)%nat ->
  exists envelope s',
    execute host fetch fuel context initial = Ok envelope s'
    /\ Forall (fun a => author a <> [] /\ summary a <> []
                        /\ edge_free (title a)
                        /\ Forall edge_free (categories a))
              (result_articles envelope).
Proof.
  intros F.
  destruct (Claims.execute_summary host fetch fuel context F) as (s1 & _ & W & _ & E).
  rewrite E. eexists _, _. split; [reflexivity|]. cbn [result_articles].
  apply Forall_forall. intros a Ia. rewrite sort_In in Ia.
  rewrite Forall_forall in W. destruct (W a Ia) as (e & t & _ & Ea & _).
  subst a. cbn [acceptedRecord author summary title categories].
  split; [|split; [|split]].
  - destruct (trim (entry_author_name_text e)); [|discriminate].
    destruct (str_or (data_user_name e) []); [|discriminate].
    destruct (entryAuthorFromIntro e); [|discriminate].
    cbn [or_else]. vm_compute. discriminate.
  - destruct (trim (entry_description_text e)); [|discriminate].
    cbn [or_else]. intros N. apply app_eq_nil in N. destruct N as (_ & N).
    vm_compute in N. discriminate.
  - apply trim_edge_free.
  - apply Forall_forall. intros c Ic. apply in_map_iff in Ic.
    destruct Ic as (x & Ex & _). subst c. apply trim_edge_free.
Qed.

Lemma records_have_author_and_summary_and_trimmed_text_witness :
  exists envelope s',
    execute utc july_window_site 6 july_2023 initial = Ok envelope s'
    /\ Forall (fun a => author a <> [] /\ summary a <> []
                        /\ edge_free (title a)
                        /\ Forall edge_free (categories a))
              (result_articles envelope).
Proof.
  apply (records_have_author_and_summary_and_trimmed_text utc july_window_site 6
           july_2023).
  vm_compute. lia.
Defined.

(** The date part of the ISO string of a time value in the years 0 to 9999
    is the well-formed date of its UTC day. *)
Lemma isoDateString_ymd t :
  0 <= YearFromTime t <= 9999 ->
  valid_ymd (YearFromTime t) (MonthFromTime t + 1) (DateFromTime t)
  /\ isoDateString t = ymd (YearFromTime t) (MonthFromTime t + 1) (DateFromTime t).
Proof.
  intros Y.
  pose proof (DayWithinYear_range t) as WR.
  pose proof (month_fields _ _ (leapDays_cases (YearFromTime t)) WR) as [MR DR].
  fold (MonthFromTime t) in MR, DR. fold (DateFromTime t) in DR.
  split.
  - unfold valid_ymd, DaysInMonth.
    replace (MonthFromTime t + 1 - 1) with (MonthFromTime t) by lia. lia.
  - unfold isoDateString, ymd, yearString.
    replace ((0 <=? YearFromTime t) && (YearFromTime t <=? 9999)) with true;
      [reflexivity|].
    symmetry. apply andb_true_iff. split; apply Z.leb_le; lia.
Qed.

(** X9: when both input dates are well-formed dates YYYY-MM-DD, the date of
    every record of the result is a well-formed date YYYY-MM-DD too, ten
    units long, of a year from the start year to the end year. *)
Theorem record_dates_are_well_formed host fetch fuel ys ms ds ye me de maxPages :
  valid_ymd ys ms ds -> valid_ymd ye me de ->
  let context := {| startDate := ymd ys ms ds; endDate := ymd ye me de;
                    maxPages := maxPages |} in
  (Z.to_nat (maxPagesOf context) < fuel)%nat ->
  exists envelope s',
    execute host fetch fuel context initial = Ok envelope s'
    /\ Forall (fun a => exists y m d,
                 valid_ymd y m d /\ ys <= y <= ye
                 /\ date a = ymd y m d /\ List.length (date a) = 10%nat)
              (result_articles envelope).
Proof.
  intros Vs Ve context F.
  destruct (Claims.execute_summary host fetch fuel context F) as (s1 & _ & W & _ & E).
  rewrite E. eexists _, _. split; [reflexivity|]. cbn [result_articles].
  apply Forall_forall. intros a Ia. rewrite sort_In in Ia.
  rewrite Forall_forall in W. destruct (W a Ia) as (e & t & _ & Ea & _ & In_).
  subst a. cbn [acceptedRecord date].
  subst context. cbn [startDate endDate] in In_.
  rewrite (parse_ymd host ys ms ds Vs), (parse_ymd host ye me de Ve) in In_.
  unfold inWindow, date_le in In_. apply andb_true_iff in In_.
  destruct In_ as (Lo & Hi). apply Z.leb_le in Lo, Hi.
  pose proof (YearFromTime_mono _ _ Lo) as Y1.
  pose proof (YearFromTime_mono _ _ Hi) as Y2.
  rewrite (YearFromTime_midnight ys ms ds Vs) in Y1.
  rewrite (YearFromTime_midnight ye me de Ve) in Y2.
  assert (Y : 0 <= YearFromTime t <= 9999).
  { destruct Vs as (? & _), Ve as (? & _). lia. }
  destruct (isoDateString_ymd t Y) as (V & Ed).
  exists (YearFromTime t), (MonthFromTime t + 1), (DateFromTime t).
  repeat split; try apply V; try lia; try exact Ed.
  rewrite Ed. unfold ymd. rewrite !length_app, !digits_length. reflexivity.
Qed.

Lemma record_dates_are_well_formed_witness :
  exists envelope s',
    execute utc july_window_site 6 july_2023 initial = Ok envelope s'
    /\ Forall (fun a => exists y m d,
                 valid_ymd y m d /\ 2023 <= y <= 2023
                 /\ date a = ymd y m d /\ List.length (date a) = 10%nat)
              (result_articles envelope).
Proof.
  apply (record_dates_are_well_formed utc july_window_site 6 2023 7 1 2023 7 31 None).
  - vm_compute. repeat split; discriminate.
  - vm_compute. repeat split; discriminate.
  - vm_compute. lia.
Defined.

(** ** The date in the text of the time element *)

Lemma match_here_open g re s k :
  match_here (Open g :: re) s k = match_here re s (open_group g k).
Proof. reflexivity. Qed.

Lemma match_here_close g re s k :
  match_here (Close g :: re) s k = match_here re s (close_group g k).
Proof. reflexivity. Qed.

Lemma try_down_first {A} n lo (f : nat -> option A) r :
  f (lo + n)%nat = Some r -> try_down n lo f = Some r.
Proof. intros H. destruct n; cbn [try_down]; rewrite H; reflexivity. Qed.

(** A class item takes the whole run of its class when the rest of the
    pattern matches after it. *)
Lemma match_here_cls p lo hi re pre post k r :
  run p hi (pre ++ post) = List.length pre ->
  (lo <= List.length pre)%nat ->
  match_here re post (consume pre k) = Some r ->
  match_here (Cls p lo hi :: re) (pre ++ post) k = Some r.
Proof.
  intros R L H. cbn [match_here]. cbv zeta. rewrite R.
  replace (List.length pre <? lo)%nat with false
    by (symmetry; apply Nat.ltb_ge; assumption).
  apply try_down_first.
  replace (lo + (List.length pre - lo))%nat with (List.length pre) by lia.
  rewrite skipn_app, firstn_app, skipn_all, firstn_all, Nat.sub_diag.
  cbn [skipn firstn app]. rewrite app_nil_r. assumption.
Qed.

Lemma match_here_cls_short p lo hi re s k :
  (run p hi s < lo)%nat -> match_here (Cls p lo hi :: re) s k = None.
Proof.
  intros R. cbn [match_here]. cbv zeta.
  apply Nat.ltb_lt in R. rewrite R. reflexivity.
Qed.

Lemma run_unbounded p pre post :
  Forall (fun c => p c = true) pre -> stops p post ->
  run p None (pre ++ post) = List.length pre.
Proof.
  intros A S. induction A as [|c pre C A IH]; cbn [app run List.length].
  - destruct post as [|c r]; [reflexivity|]. cbn [stops] in S. cbn [run].
    rewrite S. reflexivity.
  - rewrite C, IH. reflexivity.
Qed.

Lemma run_bounded p pre post : forall h,
  Forall (fun c => p c = true) pre ->
  (List.length pre <= h)%nat ->
  List.length pre = h \/ stops p post ->
  run p (Some h) (pre ++ post) = List.length pre.
Proof.
  intros h A. revert h.
  induction A as [|c pre C A IH]; intros h L S; cbn [app List.length] in *.
  - destruct post as [|c r]; [reflexivity|]. cbn [run].
    destruct h as [|h]; [reflexivity|].
    destruct S as [S | S]; [discriminate|]. cbn [stops] in S.
    rewrite S. reflexivity.
  - destruct h as [|h]; [lia|]. cbn [run]. rewrite C, IH; [reflexivity | lia |].
    destruct S as [S | S]; [left; lia | right; assumption].
Qed.

Lemma no_digit_not_digit s :
  no_digit s -> Forall (fun c => not_digit c = true) s.
Proof.
  apply Forall_impl. intros c H. unfold not_digit. rewrite H. reflexivity.
Qed.

Lemma stops_at_digit s post :
  all_digits s -> s <> [] -> stops not_digit (s ++ post).
Proof.
  intros A N. destruct A as [|c s C _]; [congruence|].
  cbn [app stops]. unfold not_digit. rewrite C. reflexivity.
Qed.

Lemma stops_at_no_digit s post :
  no_digit s -> s <> [] -> stops is_digit (s ++ post).
Proof.
  intros A N. destruct A as [|c s C _]; [congruence|]. exact C.
Qed.

(** The pattern of the date, matched where the year starts. *)
Lemma dateRegex_here ys sep1 ms sep2 ds rest :
  all_digits ys -> List.length ys = 4%nat ->
  no_digit sep1 -> sep1 <> [] ->
  all_digits ms -> (1 <= List.length ms <= 2)%nat ->
  no_digit sep2 -> sep2 <> [] ->
  all_digits ds -> (1 <= List.length ds <= 2)%nat ->
  List.length ds = 2%nat \/ stops is_digit rest ->
  exists m,
    match_here dateRegex (ys ++ sep1 ++ ms ++ sep2 ++ ds ++ rest) no_caps = Some m
    /\ capture 1 m = ys /\ capture 2 m = ms /\ capture 3 m = ds.
Proof.
  intros Ay Ly A1 N1 Am Lm A2 N2 Ad Ld End.
  assert (Nm : ms <> []) by (destruct ms; [cbn in Lm; lia | discriminate]).
  assert (Nd : ds <> []) by (destruct ds; [cbn in Ld; lia | discriminate]).
  eexists. split.
  - unfold dateRegex. rewrite match_here_open.
    apply match_here_cls;
      [apply run_bounded; [exact Ay | lia | left; lia] | lia |].
    rewrite match_here_close.
    apply match_here_cls;
      [apply run_unbounded;
       [apply no_digit_not_digit; assumption | apply stops_at_digit; assumption]
      | destruct sep1; [congruence | cbn; lia] |].
    rewrite match_here_open.
    apply match_here_cls;
      [apply run_bounded; [exact Am | lia |];
       right; apply stops_at_no_digit; assumption
      | lia |].
    rewrite match_here_close.
    apply match_here_cls;
      [apply run_unbounded;
       [apply no_digit_not_digit; assumption | apply stops_at_digit; assumption]
      | destruct sep2; [congruence | cbn; lia] |].
    rewrite match_here_open.
    apply match_here_cls; [apply run_bounded; [exact Ad | lia | exact End] | lia |].
    rewrite match_here_close. reflexivity.
  - unfold capture. cbn. rewrite !app_nil_r, !rev_involutive. auto.
Qed.

Lemma dateRegex_skip c s :
  is_digit c = false -> js_match dateRegex (c :: s) = js_match dateRegex s.
Proof.
  intros C. cbn [js_match].
  replace (match_here dateRegex (c :: s) no_caps) with (@None caps); [reflexivity|].
  symmetry. unfold dateRegex. rewrite match_here_open.
  apply match_here_cls_short. cbn [run]. rewrite C. lia.
Qed.

Lemma dateRegex_after pre s :
  no_digit pre -> js_match dateRegex (pre ++ s) = js_match dateRegex s.
Proof.
  induction 1 as [|c pre C _ IH]; [reflexivity|].
  cbn [app]. rewrite dateRegex_skip; assumption.
Qed.

Lemma digit_range c : is_digit c = true -> 48 <= c <= 57.
Proof. unfold is_digit. intros H. apply andb_true_iff in H. lia. Qed.

Lemma digits4_decimalValue s :
  all_digits s -> List.length s = 4%nat -> digits 4 (decimalValue s) = s.
Proof.
  intros A L. destruct s as [|a [|b [|c [|d [|]]]]]; try discriminate.
  inversion A as [|? ? Ha A1]; subst. inversion A1 as [|? ? Hb A2]; subst.
  inversion A2 as [|? ? Hc A3]; subst. inversion A3 as [|? ? Hd _]; subst.
  apply digit_range in Ha, Hb, Hc, Hd.
  unfold decimalValue. cbn [fold_left digits app].
  repeat f_equal; zdiv.
Qed.

Lemma padStart2_decimalValue s :
  all_digits s -> (1 <= List.length s <= 2)%nat ->
  padStart2 s = digits 2 (decimalValue s).
Proof.
  intros A L. destruct s as [|a [|b [|]]]; cbn [List.length] in L; try lia.
  - inversion A as [|? ? Ha _]; subst. apply digit_range in Ha.
    unfold decimalValue. cbn [fold_left digits app padStart2].
    repeat f_equal; zdiv.
  - inversion A as [|? ? Ha A1]; subst. inversion A1 as [|? ? Hb _]; subst.
    apply digit_range in Ha, Hb.
    unfold decimalValue. cbn [fold_left digits app padStart2].
    repeat f_equal; zdiv.
Qed.

(** X10: an entry without datetime attribute is dated by the text of its time
    element: the first four digits there are the year, the next one or two
    digits after at least one other unit the month, the next one or two the
    day; both are padded to two digits, and when the three form a date of
    the calendar the entry is dated at midnight UTC of that day. *)
Theorem text_date_is_read_as_year_month_day
    host e pre ys sep1 ms sep2 ds rest :
  truthy (archive_date_datetime e) = false ->
  trim (archive_date_text e) = pre ++ ys ++ sep1 ++ ms ++ sep2 ++ ds ++ rest ->
  no_digit pre ->
  all_digits ys -> List.length ys = 4%nat ->
  no_digit sep1 -> sep1 <> [] ->
  all_digits ms -> (1 <= List.length ms <= 2)%nat ->
  no_digit sep2 -> sep2 <> [] ->
  all_digits ds -> (1 <= List.length ds <= 2)%nat ->
  List.length ds = 2%nat \/ no_digit (firstn 1 rest) ->
  entryDateText e
  = Some (ymd (decimalValue ys) (decimalValue ms) (decimalValue ds))
  /\ (valid_ymd (decimalValue ys) (decimalValue ms) (decimalValue ds) ->
      entryTime host e
      = Some (Some (midnight (decimalValue ys) (decimalValue ms) (decimalValue ds)))).
Proof.
  intros T E Ap Ay Ly A1 N1 Am Lm A2 N2 Ad Ld End.
  assert (S : List.length ds = 2%nat \/ stops is_digit rest).
  { destruct End as [End | End]; [auto | right].
    destruct rest as [|c r]; [exact I|].
    cbn [firstn] in End. inversion End; assumption. }
  destruct (dateRegex_here ys sep1 ms sep2 ds rest) as (m & M & C1 & C2 & C3); auto.
  apply Claims.js_match_at_start in M.
  assert (D : entryDateText e
              = Some (ymd (decimalValue ys) (decimalValue ms) (decimalValue ds))).
  { unfold entryDateText. cbv zeta. rewrite T. cbn [negb].
    rewrite E, dateRegex_after, M, C1, C2, C3 by assumption.
    unfold ymd. rewrite digits4_decimalValue by assumption.
    rewrite <- !padStart2_decimalValue by assumption. reflexivity. }
  split; [exact D|]. intros V.
  unfold entryTime. rewrite D.
  assert (Ne : exists c r,
             ymd (decimalValue ys) (decimalValue ms) (decimalValue ds) = c :: r).
  { unfold ymd. rewrite digits4_decimalValue by assumption.
    destruct ys as [|c r]; [discriminate|]. eexists _, _. reflexivity. }
  destruct Ne as (c & r & Ne). rewrite Ne. cbn [truthy str_or].
  rewrite <- Ne, parse_ymd by assumption. reflexivity.
Qed.

Lemma text_date_is_read_as_year_month_day_witness :
  entryDateText text_dated_entry = Some (js "2023-07-04")
  /\ entryTime utc text_dated_entry = Some (Some (midnight 2023 7 4)).
Proof.
  destruct (text_date_is_read_as_year_month_day utc text_dated_entry
              [] (js "2023") (js "年") (js "7") (js "月") (js "4") (js "日"))
    as (D & T).
  - vm_compute. reflexivity.
  - vm_compute. reflexivity.
  - constructor.
  - vm_compute. repeat constructor.
  - vm_compute. reflexivity.
  - vm_compute. repeat constructor.
  - vm_compute. discriminate.
  - vm_compute. repeat constructor.
  - vm_compute. lia.
  - vm_compute. repeat constructor.
  - vm_compute. discriminate.
  - vm_compute. repeat constructor.
  - vm_compute. lia.
  - right. vm_compute. repeat constructor.
  - split.
    + rewrite D. vm_compute. reflexivity.
    + rewrite T; [vm_compute; reflexivity|].
      vm_compute. repeat split; discriminate.
Defined.

(** ** An entry whose date cannot be read *)

Lemma each_app {A} (f : A -> M unit) l1 l2 s :
  each f (l1 ++ l2) s
  = match each f l1 s with
    | Ok _ s1 => each f l2 s1
    | Throw e s1 => Throw e s1
    | Diverge => Diverge
    end.
Proof.
  revert s. induction l1 as [|x l1 IH]; intros s; [reflexivity|].
  cbn [app each]. unfold bind. destruct (f x s) as [[] s1|e s1|]; auto.
Qed.

Lemma each_readable host sd ed l : forall s,
  (forall e, In e l -> entryTime host e <> Some None) ->
  exists s', each (processEntry host sd ed) l s = Ok tt s'.
Proof.
  induction l as [|e l IH]; intros s G; [exists s; reflexivity|].
  cbn [each]. unfold bind.
  destruct (processEntry_cases host sd ed e s) as [E | [E | (t & _ & E)]]; rewrite E.
  - apply IH. intros x Ix. apply G. right; assumption.
  - rewrite processEntry_eq in E. exfalso.
    pose proof (G e (or_introl eq_refl)) as Ge.
    destruct (entryTime host e) as [[t|]|]; try congruence.
    destruct (inWindow sd ed t && negb (isDuplicate (articles s) e)); discriminate.
  - apply IH. intros x Ix. apply G. right; assumption.
Qed.

(** X11: when a page lists an entry whose date text is no date, the entries
    listed before it are processed as usual, the entries listed after it on
    the page are not looked at, and the crawl of the base URL ends with this
    page, whether or not the page links to a next one. *)
Theorem unreadable_date_ends_the_base_url
    host fetch sd ed fuel baseUrl maxPages currentPage page before bad after s :
  fetch (pageUrlOf baseUrl currentPage) = Responded 200 (Some page) ->
  archive_entries page = before ++ bad :: after ->
  (forall e, In e before -> entryTime host e <> Some None) ->
  entryTime host bad = Some None ->
  currentPage <= maxPages ->
  exists s',
    each (processEntry host sd ed) before (logged s (pageUrlOf baseUrl currentPage))
    = Ok tt s'
    /\ whileLoop host fetch (S fuel) sd ed baseUrl maxPages currentPage true s
       = Ok tt s'
    /\ requests s' = requests s ++ [pageUrlOf baseUrl currentPage].
Proof.
  intros F E G B C.
  destruct (each_readable host sd ed before
              (logged s (pageUrlOf baseUrl currentPage)) G) as (s' & Eb).
  exists s'. split; [exact Eb|]. split.
  - rewrite whileLoop_step by assumption.
    rewrite (pageTurn_entries host fetch sd ed baseUrl currentPage s page F)
      by (rewrite E; destruct before; discriminate).
    rewrite E, each_app, Eb. cbn [each]. unfold bind.
    rewrite processEntry_eq, B. apply whileLoop_done. reflexivity.
  - destruct (each_effect host sd ed before
                (logged s (pageUrlOf baseUrl currentPage)))
      as (s2 & added & [R | R] & _ & Rq); rewrite Eb in R; inversion R; subst s2.
    exact Rq.
Qed.

Lemma unreadable_date_ends_the_base_url_witness :
  exists s',
    whileLoop utc garbled_site 1
      (parse utc (js "2023-07-01")) (parse utc (js "2023-07-31"))
      blogUrl 5 1 true initial = Ok tt s'
    /\ requests s' = [blogUrl].
Proof.
  destruct (unreadable_date_ends_the_base_url utc garbled_site
              (parse utc (js "2023-07-01")) (parse utc (js "2023-07-31"))
              0 blogUrl 5 1 garbled_page [first_day_entry] garbled_entry
              [last_day_entry] initial)
    as (s' & _ & W & R).
  - reflexivity.
  - reflexivity.
  - intros e [E | []]. subst e. vm_compute. discriminate.
  - vm_compute. reflexivity.
  - lia.
  - exists s'. split; [exact W|]. rewrite R. vm_compute. reflexivity.
Defined.

End ScraperExtras.

(* ================================================================= *)
(** * The sort of the language and its model

    For a comparator that subtracts keys the language asks of the built-in
    sort a sorted permutation that keeps the order of equal keys.  There is
    one such list, and it is the one [sort] returns: on these inputs every
    engine gives the result of the model. *)

Module SortModel.
Import Notions SortFacts.

Lemma filter_key_head {A} (key : A -> Z) x l :
  filter (fun a => key a =? key x) (x :: l)
  = x :: filter (fun a => key a =? key x) l.
Proof. cbn [filter]. rewrite Z.eqb_refl. reflexivity. Qed.

Lemma head_key_le {A} (key : A -> Z) a l b r :
  StronglySorted (descending key) (b :: r) ->
  filter (fun x => key x =? key a) (a :: l)
  = filter (fun x => key x =? key a) (b :: r) ->
  key a <= key b.
Proof.
  intros S E. rewrite filter_key_head in E.
  assert (I : In a (filter (fun x => key x =? key a) (b :: r)))
    by (rewrite <- E; left; reflexivity).
  apply filter_In in I. destruct I as ([I | I] & _); [subst; lia|].
  inversion S as [|? ? _ F]; subst. rewrite Forall_forall in F.
  apply (F a I).
Qed.

Lemma stable_sorted_unique {A} (key : A -> Z) l1 : forall l2,
  StronglySorted (descending key) l1 ->
  StronglySorted (descending key) l2 ->
  (forall k, filter (fun a => key a =? k) l1 = filter (fun a => key a =? k) l2) ->
  l1 = l2.
Proof.
  induction l1 as [|a r1 IH]; intros [|b r2] S1 S2 E.
  - reflexivity.
  - specialize (E (key b)). rewrite filter_key_head in E. discriminate.
  - specialize (E (key a)). rewrite filter_key_head in E. discriminate.
  - assert (K : key a = key b).
    { pose proof (head_key_le key a r1 b r2 S2 (E (key a))).
      pose proof (head_key_le key b r2 a r1 S1 (eq_sym (E (key b)))). lia. }
    pose proof (E (key a)) as Ea. cbn [filter] in Ea.
    rewrite <- K, Z.eqb_refl in Ea. inversion Ea as [[Eab Er]]. subst b.
    f_equal. inversion S1; subst. inversion S2; subst. apply IH; auto.
    intros k. specialize (E k). cbn [filter] in E.
    destruct (key a =? k); [inversion E; reflexivity | exact E].
Qed.

Lemma sort_is_the_stable_sort {A} (cmp : A -> A -> Z) (key : A -> Z) l l' :
  (forall a b, In a l -> In b l -> cmp a b = key b - key a) ->
  StronglySorted (descending key) l' ->
  (forall k, filter (fun a => key a =? k) l' = filter (fun a => key a =? k) l) ->
  l' = sort cmp l.
Proof.
  intros K S E. apply (stable_sorted_unique key); [assumption | |].
  - apply sort_sorted. assumption.
  - intros k. rewrite E. symmetry. apply sort_stable.
    intros x y Ix Iy Px Py. apply Z.eqb_eq in Px, Py.
    rewrite (K x y Ix Iy). lia.
Qed.

End SortModel.

(* ================================================================= *)
(** * Further properties of the formatter *)

Module FormatterExtras.
Import Date Formatter Notions FormatNotions MoreFormatNotions SortFacts.

(** ** Reading the CSV output back *)

Lemma read_bare f : forall st cur fields records rest,
  st = FieldStart \/ st = Bare ->
  bare_safe f ->
  readCsv st cur fields records (f ++ 44 :: rest)
  = readCsv FieldStart [] ((List.rev cur ++ f) :: fields) records rest
  /\ readCsv st cur fields records (f ++ 10 :: rest)
     = readCsv FieldStart [] []
         (List.rev ((List.rev cur ++ f) :: fields) :: records) rest.
Proof.
  induction f as [|c f IH]; intros st cur fields records rest St B.
  - cbn [app readCsv]. rewrite app_nil_r.
    destruct St; subst st; auto.
  - inversion B as [|? ? (C1 & C2 & C3) B']; subst.
    apply Z.eqb_neq in C1, C2, C3. cbn [app readCsv].
    destruct (IH Bare (c :: cur) fields records rest (or_intror eq_refl) B')
      as (I1 & I2).
    cbn [List.rev] in I1, I2. rewrite <- app_assoc in I1, I2. cbn [app] in I1, I2.
    destruct St; subst st; rewrite C1, C3, C2; auto.
Qed.

Lemma read_quoted str : forall cur fields records rest,
  readCsv Quoted cur fields records
    (flat_map (fun c => if c =? 34 then [34; 34] else [c]) str ++ 34 :: 44 :: rest)
  = readCsv FieldStart [] ((List.rev cur ++ str) :: fields) records rest
  /\ readCsv Quoted cur fields records
       (flat_map (fun c => if c =? 34 then [34; 34] else [c]) str ++ 34 :: 10 :: rest)
     = readCsv FieldStart [] []
         (List.rev ((List.rev cur ++ str) :: fields) :: records) rest.
Proof.
  induction str as [|c str IH]; intros cur fields records rest.
  - cbn. rewrite app_nil_r. auto.
  - cbn [flat_map].
    destruct (IH (c :: cur) fields records rest) as (I1 & I2).
    cbn [List.rev] in I1, I2. rewrite <- app_assoc in I1, I2. cbn [app] in I1, I2.
    destruct (c =? 34) eqn:C.
    + apply Z.eqb_eq in C. subst c. cbn [app readCsv Z.eqb Pos.eqb]. auto.
    + cbn [app readCsv]. rewrite C. auto.
Qed.

(** A field written by [escapeCsv] is read back as it was. *)
Lemma read_escaped str fields records rest :
  readCsv FieldStart [] fields records (escapeCsv str ++ 44 :: rest)
  = readCsv FieldStart [] (str :: fields) records rest
  /\ readCsv FieldStart [] fields records (escapeCsv str ++ 10 :: rest)
     = readCsv FieldStart [] [] (List.rev (str :: fields) :: records) rest.
Proof.
  destruct str as [|c str]; [cbn; auto|].
  unfold escapeCsv, quote. rewrite <- !app_assoc.
  cbn [app readCsv Z.eqb Pos.eqb].
  apply (read_quoted (c :: str) [] fields records rest).
Qed.

Lemma read_row ic isum a records rest :
  bare_safe (date a) -> bare_safe (url a) ->
  readCsv FieldStart [] [] records (csvRow ic isum a ++ rest)
  = readCsv FieldStart [] [] (csvFields ic isum a :: records) rest.
Proof.
  intros Bd Bu. unfold csvRow, csvFields. cbv zeta.
  change (js ",") with [44]. unfold nl.
  destruct ic, isum; rewrite <- !app_assoc; cbn [app];
    rewrite (proj1 (read_bare (date a) FieldStart [] [] _ _ (or_introl eq_refl) Bd));
    rewrite (proj1 (read_escaped (title a) _ _ _));
    rewrite (proj1 (read_bare (url a) FieldStart [] _ _ _ (or_introl eq_refl) Bu));
    cbn [List.rev app].
  - rewrite (proj1 (read_escaped _ _ _ _)), (proj1 (read_escaped _ _ _ _)).
    rewrite (proj2 (read_escaped _ _ _ _)). reflexivity.
  - rewrite (proj1 (read_escaped _ _ _ _)).
    rewrite (proj2 (read_escaped _ _ _ _)). reflexivity.
  - rewrite (proj1 (read_escaped _ _ _ _)).
    rewrite (proj2 (read_escaped _ _ _ _)). reflexivity.
  - rewrite (proj2 (read_escaped _ _ _ _)). reflexivity.
Qed.

Lemma read_rows ic isum l : forall records,
  Forall (fun a => bare_safe (date a) /\ bare_safe (url a)) l ->
  readCsv FieldStart [] [] records (List.concat (map (csvRow ic isum) l))
  = List.rev records ++ map (csvFields ic isum) l.
Proof.
  induction l as [|a l IH]; intros records B.
  - cbn. rewrite app_nil_r. reflexivity.
  - inversion B as [|? ? (Bd & Bu) B']; subst.
    cbn [map List.concat]. rewrite read_row, IH by assumption.
    cbn [List.rev map]. rewrite <- app_assoc. reflexivity.
Qed.

Lemma read_header ic isum rest :
  readCsv FieldStart [] [] [] (rendered (formatCsv [] ic isum) ++ rest)
  = readCsv FieldStart [] [] [csvHeader ic isum] rest.
Proof. destruct ic, isum; vm_compute; reflexivity. Qed.

(** X12: what [formatCsv] writes, read back by the usual convention (comma
    between fields, line feed after a record, a quoted field running to its
    closing quote, two quotes for one), is the header followed by one record
    for each article, in the order given, with the fields of the article
    unchanged, whatever commas, quotes and line feeds the title, the author,
    the categories and the summary contain; the date and the url are
    written without quotes and must contain none of the three.  When every
    date parses, the output of the tool reads back as the header and the
    records of the articles latest first. *)
Theorem csv_output_reads_back host (JSON_stringify : list Article -> jsstring)
    l ic isum :
  Forall (fun a => bare_safe (date a) /\ bare_safe (url a)) l ->
  csvDocument (rendered (formatCsv l ic isum))
  = csvHeader ic isum :: map (csvFields ic isum) l
  /\ ((forall a, In a l -> exists t, getTime host a = Some t) ->
      StronglySorted (newerFirst host) (sort (compareFn host) l)
      /\ csvDocument
           (rendered (execute host JSON_stringify
                        {| articles := l; format := csv;
                           includeCategories := ic; includeSummary := isum |}))
         = csvHeader ic isum
           :: map (csvFields ic isum) (sort (compareFn host) l)).
Proof.
  intros B.
  assert (R : forall l',
             Forall (fun a => bare_safe (date a) /\ bare_safe (url a)) l' ->
             csvDocument (rendered (formatCsv l' ic isum))
             = csvHeader ic isum :: map (csvFields ic isum) l').
  { intros l' B'. unfold formatCsv at 1. cbv zeta. cbn [rendered].
    rewrite FormatterClaims.fold_left_rows. unfold csvDocument.
    change (readCsv FieldStart [] [] []
              (rendered (formatCsv [] ic isum)
               ++ List.concat (map (csvRow ic isum) l'))
            = csvHeader ic isum :: map (csvFields ic isum) l').
    rewrite read_header, read_rows by assumption. reflexivity. }
  split; [apply R; assumption|].
  intros V. split.
  - destruct (sort_by_time (compareFn host) (getTime host)
                (FormatterClaims.formatter_compareFn_time host) l) as (_ & S & _).
    apply S. exact V.
  - unfold execute. cbn [articles format includeCategories includeSummary].
    apply R. apply Forall_forall. intros a Ia. rewrite sort_In in Ia.
    rewrite Forall_forall in B. auto.
Qed.

Lemma csv_output_reads_back_witness :
  csvDocument (rendered (execute Examples.utc (fun _ => []) quoting_csv))
  = [ [js "日付"; js "タイトル"; js "URL"; js "著者"; js "カテゴリ"; js "概要"];
      [js "2024-05-02"; title quoting; js "/entry/q"; [];
       js "a,b; c"; [76; 49; 10; 76; 50]] ].
Proof.
  destruct (csv_output_reads_back Examples.utc (fun _ => []) [quoting] true true)
    as (_ & E).
  - vm_compute. repeat constructor; discriminate.
  - destruct E as (_ & E).
    + intros a [Ea | []]. subst a. eexists. vm_compute. reflexivity.
    + unfold quoting_csv. rewrite E. vm_compute. reflexivity.
Defined.

(** ** The shape of the Markdown table *)

Lemma occurrences_app c s t :
  occurrences c (s ++ t) = (occurrences c s + occurrences c t)%nat.
Proof. apply count_occ_app. Qed.

Lemma occurrences_free c s : ~ In c s -> occurrences c s = 0%nat.
Proof. apply count_occ_not_In. Qed.

Lemma join_free c sep l :
  ~ In c sep -> Forall (fun s => ~ In c s) l -> ~ In c (join sep l).
Proof.
  intros Ns A. induction A as [|x l Nx A IH]; [intros []|].
  destruct l as [|y l]; [exact Nx|].
  change (join sep (x :: y :: l)) with (x ++ sep ++ join sep (y :: l)).
  rewrite !in_app_iff. tauto.
Qed.

Lemma free_of_cells c a :
  ~ In c NA -> ~ In c (js ", ") ->
  free_of c a ->
  ~ In c (date a) /\ ~ In c (title a) /\ ~ In c (url a)
  /\ ~ In c (str_or (author a) NA)
  /\ ~ In c (markdownCategories a)
  /\ ~ In c (str_or (summary a) NA).
Proof.
  intros Nna Nsep F. unfold free_of, shown in F.
  rewrite !Forall_app in F. destruct F as (F1 & Fa & Fs & Fc).
  inversion F1 as [|? ? Fd F2]; subst. inversion F2 as [|? ? Ft F3]; subst.
  inversion F3 as [|? ? Fu _]; subst.
  repeat split; auto.
  - destruct (author a) as [[|x r]|]; cbn [str_or]; auto.
    inversion Fa; assumption.
  - unfold markdownCategories. destruct (categories a) as [[|x r]|]; auto.
    apply join_free; assumption.
  - destruct (summary a) as [[|x r]|]; cbn [str_or]; auto.
    inversion Fs; assumption.
Qed.

Lemma markdownRow_occurrences c ic isum a :
  ~ In c NA -> ~ In c (js ", ") -> free_of c a ->
  occurrences c (markdownRow ic isum a)
  = occurrences c
      (markdownRow ic isum
         {| title := []; url := []; date := []; author := None;
            summary := None; categories := None |}).
Proof.
  intros Nna Nsep F.
  destruct (free_of_cells c a Nna Nsep F) as (Fd & Ft & Fu & Fa & Fc & Fs).
  unfold markdownRow. cbv zeta.
  destruct ic, isum; rewrite !occurrences_app;
    rewrite ?(occurrences_free c (date a)), ?(occurrences_free c (title a)),
      ?(occurrences_free c (url a)), ?(occurrences_free c (str_or (author a) NA)),
      ?(occurrences_free c (markdownCategories a)),
      ?(occurrences_free c (str_or (summary a) NA)) by assumption;
    unfold markdownCategories;
    cbn [title url date author summary categories str_or];
    rewrite ?(occurrences_free c NA Nna); reflexivity.
Qed.

Lemma rows_occurrences (row : Article -> jsstring) l c n :
  Forall (fun a => occurrences c (row a) = n) l ->
  occurrences c (List.concat (map row l)) = (List.length l * n)%nat.
Proof.
  intros H. induction H as [|a r Ha _ IH]; [reflexivity|].
  cbn [map List.concat List.length]. rewrite occurrences_app, Ha, IH. lia.
Qed.

(** X13: in the Markdown output every row of an article whose strings
    contain no pipe and no line feed is one line with as many pipes as the
    header line, 4 plus one for each optional column; the whole output has
    that number of pipes on each of its table lines and four lines before
    the rows. *)
Theorem markdown_rows_match_the_header ic isum l :
  Forall (fun a => free_of 124 a /\ free_of 10 a) l ->
  Forall (fun a =>
            occurrences 124 (markdownRow ic isum a) = (4 + b2n ic + b2n isum)%nat
            /\ occurrences 10 (markdownRow ic isum a) = 1%nat
            /\ exists line, markdownRow ic isum a = line ++ nl) l
  /\ occurrences 124 (rendered (formatMarkdown l ic isum))
     = ((2 + List.length l) * (4 + b2n ic + b2n isum))%nat
  /\ occurrences 10 (rendered (formatMarkdown l ic isum))
     = (4 + List.length l)%nat.
Proof.
  intros F.
  assert (R : Forall (fun a =>
            occurrences 124 (markdownRow ic isum a) = (4 + b2n ic + b2n isum)%nat
            /\ occurrences 10 (markdownRow ic isum a) = 1%nat
            /\ exists line, markdownRow ic isum a = line ++ nl) l).
  { eapply Forall_impl; [|exact F]. intros a (Fp & Fn). split; [|split].
    - rewrite markdownRow_occurrences by
        (try assumption; apply count_occ_not_In with (eq_dec := Z.eq_dec);
         reflexivity).
      destruct ic, isum; reflexivity.
    - rewrite markdownRow_occurrences by
        (try assumption; apply count_occ_not_In with (eq_dec := Z.eq_dec);
         reflexivity).
      destruct ic, isum; reflexivity.
    - unfold markdownRow. cbv zeta. eexists. apply app_assoc. }
  split; [exact R|].
  unfold formatMarkdown at 1 2. cbv zeta. cbn [rendered].
  rewrite FormatterClaims.fold_left_rows, !occurrences_app.
  pose proof (rows_occurrences (markdownRow ic isum) l) as C.
  rewrite (C 124%Z (4 + b2n ic + b2n isum)%nat)
    by (eapply Forall_impl; [|exact R]; intros a (H & _); exact H).
  rewrite (C 10%Z 1%nat)
    by (eapply Forall_impl; [|exact R]; intros a (_ & H & _); exact H).
  split.
  - destruct ic, isum; rewrite ?occurrences_app;
      match goal with
      | |- (?h + ?n * ?k)%nat = _ =>
        let v := eval vm_compute in h in change h with v
      end; cbn [b2n]; lia.
  - destruct ic, isum; rewrite ?occurrences_app;
      match goal with
      | |- (?h + ?n * ?k)%nat = _ =>
        let v := eval vm_compute in h in change h with v
      end; lia.
Qed.

Lemma markdown_rows_match_the_header_witness :
  occurrences 124 (rendered (formatMarkdown [bare; full] true true)) = 24%nat
  /\ occurrences 10 (rendered (formatMarkdown [bare; full] true true)) = 6%nat.
Proof.
  destruct (markdown_rows_match_the_header true true [bare; full]) as (_ & P & N).
  - repeat constructor; vm_compute;
      intros H; repeat (destruct H as [H | H]; [discriminate|]); exact H.
  - split; [exact P | exact N].
Defined.

(** ** Columns that are not shown *)

Lemma insert_related {A} (R : A -> A -> Prop) (cmp : A -> A -> Z) x x' l l' :
  (forall a a' b b', R a a' -> R b b' -> cmp a b = cmp a' b') ->
  R x x' -> Forall2 R l l' -> Forall2 R (insert cmp x l) (insert cmp x' l').
Proof.
  intros C Rx F. induction F as [|y y' l l' Ry F IH]; cbn [insert].
  - repeat constructor. assumption.
  - rewrite (C x x' y y' Rx Ry). destruct (cmp x' y' <=? 0);
      repeat (constructor; try assumption).
Qed.

Lemma sort_related {A} (R : A -> A -> Prop) (cmp : A -> A -> Z) l l' :
  (forall a a' b b', R a a' -> R b b' -> cmp a b = cmp a' b') ->
  Forall2 R l l' -> Forall2 R (sort cmp l) (sort cmp l').
Proof.
  intros C F. induction F as [|x x' l l' Rx F IH]; cbn [sort]; [constructor|].
  apply insert_related; assumption.
Qed.

Lemma rows_related (R : Article -> Article -> Prop) (row : Article -> jsstring) l l' :
  (forall a b, R a b -> row a = row b) ->
  Forall2 R l l' ->
  forall acc,
    fold_left (fun acc article => acc ++ row article) l acc
    = fold_left (fun acc article => acc ++ row article) l' acc.
Proof.
  intros E F. induction F as [|a b l l' Rab F IH]; intros acc; [reflexivity|].
  cbn [fold_left]. rewrite (E a b Rab). apply IH.
Qed.

Lemma compareFn_date host a a' b b' :
  date a = date a' -> date b = date b' ->
  compareFn host a b = compareFn host a' b'.
Proof. unfold compareFn, getTime. intros -> ->. reflexivity. Qed.

Lemma render_related host (JSON_stringify : list Article -> jsstring)
    (R : Article -> Article -> Prop) f ic isum l l' :
  f <> json ->
  (forall a b, R a b -> date a = date b) ->
  (forall a b, R a b ->
     markdownRow ic isum a = markdownRow ic isum b
     /\ htmlRow ic isum a = htmlRow ic isum b
     /\ csvRow ic isum a = csvRow ic isum b) ->
  Forall2 R l l' ->
  execute host JSON_stringify
    {| articles := l; format := f;
       includeCategories := ic; includeSummary := isum |}
  = execute host JSON_stringify
      {| articles := l'; format := f;
         includeCategories := ic; includeSummary := isum |}.
Proof.
  intros Nj Rd Rr F.
  assert (S : Forall2 R (sort (compareFn host) l) (sort (compareFn host) l')).
  { apply sort_related; [|assumption].
    intros a a' b b' Ra Rb. apply compareFn_date; auto. }
  unfold execute.
  cbn [articles format includeCategories includeSummary].
  destruct f; [| | |congruence].
  - unfold formatMarkdown. cbv zeta. f_equal.
    apply (rows_related R); [|assumption]. intros a b Rab. apply (Rr a b Rab).
  - unfold formatHtml. cbv zeta. f_equal. f_equal.
    apply (rows_related R); [|assumption]. intros a b Rab. apply (Rr a b Rab).
  - unfold formatCsv. cbv zeta. f_equal.
    apply (rows_related R); [|assumption]. intros a b Rab. apply (Rr a b Rab).
Qed.

(** X14: in the three table formats a column that is switched off does not
    reach the output: with [includeCategories] false two lists of articles
    that differ in their categories only give the same output, and with
    [includeSummary] false so do two lists that differ in their summaries
    only. *)
Theorem hidden_columns_do_not_reach_the_output
    host (JSON_stringify : list Article -> jsstring) f flag l l' :
  f <> json ->
  (Forall2 same_but_categories l l' ->
   execute host JSON_stringify
     {| articles := l; format := f;
        includeCategories := false; includeSummary := flag |}
   = execute host JSON_stringify
       {| articles := l'; format := f;
          includeCategories := false; includeSummary := flag |})
  /\ (Forall2 same_but_summary l l' ->
      execute host JSON_stringify
        {| articles := l; format := f;
           includeCategories := flag; includeSummary := false |}
      = execute host JSON_stringify
          {| articles := l'; format := f;
             includeCategories := flag; includeSummary := false |}).
Proof.
  intros Nj. split; intros F.
  - apply (render_related host JSON_stringify same_but_categories); auto.
    + intros a b (_ & _ & D & _). exact D.
    + intros a b (T & U & D & A & S).
      unfold markdownRow, htmlRow, csvRow. cbv zeta.
      rewrite T, U, D, A, S. auto.
  - apply (render_related host JSON_stringify same_but_summary); auto.
    + intros a b (_ & _ & D & _). exact D.
    + intros a b (T & U & D & A & C).
      unfold markdownRow, htmlRow, csvRow, markdownCategories, htmlCategories,
        csvCategories. cbv zeta.
      rewrite T, U, D, A, C. auto.
Qed.

Lemma hidden_columns_do_not_reach_the_output_witness :
  execute Examples.utc (fun _ => [])
    {| articles := [full]; format := html;
       includeCategories := false; includeSummary := true |}
  = execute Examples.utc (fun _ => [])
      {| articles := [uncategorized]; format := html;
         includeCategories := false; includeSummary := true |}.
Proof.
  destruct (hidden_columns_do_not_reach_the_output Examples.utc (fun _ => [])
              html true [full] [uncategorized]) as (C & _).
  - discriminate.
  - apply C. repeat constructor.
Defined.

(** ** Input that is in order already *)

Lemma sort_fixed {A} (cmp : A -> A -> Z) l :
  StronglySorted (fun x y => cmp x y <= 0) l -> sort cmp l = l.
Proof.
  induction 1 as [|x l S IH F]; [reflexivity|].
  cbn [sort]. rewrite IH. destruct l as [|y r]; [reflexivity|].
  cbn [insert]. inversion F as [|? ? C _]; subst.
  apply Z.leb_le in C. rewrite C. reflexivity.
Qed.

(** X15: the formatter keeps the order of a list that is in order already:
    one whose dates all parse and never increase, and also one none of
    whose dates parses, since then no two articles are ordered by the
    comparator. *)
Theorem ordered_input_keeps_its_order host l :
  StronglySorted (newerFirst host) l
  \/ Forall (fun a => getTime host a = None) l ->
  sort (compareFn host) l = l.
Proof.
  intros H. apply sort_fixed. destruct H as [S | N].
  - eapply StronglySorted_In_impl; [|exact S].
    intros a b _ _ (ta & tb & Ta & Tb & L).
    rewrite FormatterClaims.formatter_compareFn_time, Ta, Tb. lia.
  - induction N as [|a l Na N IH]; constructor; [assumption|].
    apply Forall_forall. intros b _.
    rewrite FormatterClaims.formatter_compareFn_time, Na.
    destruct (getTime host b); lia.
Qed.

Lemma ordered_input_keeps_its_order_witness :
  sort (compareFn Examples.utc) [undatable (js "b"); undatable (js "a")]
  = [undatable (js "b"); undatable (js "a")].
Proof.
  apply (ordered_input_keeps_its_order Examples.utc).
  right. repeat constructor.
Defined.

End FormatterExtras.

(* ================================================================= *)
(** * The two tools together *)

Module PipelineExtras.
Import Date Scraper Notions MoreFormatNotions SortFacts ScraperFacts Examples.

Lemma StronglySorted_map {A B} (f : A -> B) (R : B -> B -> Prop) l :
  StronglySorted (fun x y => R (f x) (f y)) l -> StronglySorted R (map f l).
Proof.
  induction 1 as [|x l S IH F]; cbn [map]; constructor; [assumption|].
  apply Forall_forall. intros y Iy. apply in_map_iff in Iy.
  destruct Iy as (z & E & Iz). subst y. rewrite Forall_forall in F. auto.
Qed.

(** X16: the records the scraper returns, read through the input schema of
    the formatter, are in the formatter's order already: the formatter
    shows them in the order in which the scraper returned them. *)
Theorem formatter_keeps_the_order_of_the_scraper host fetch fuel context :
  (Z.to_nat (maxPagesOf context) < fuel)%nat ->
  exists envelope s',
    execute host fetch fuel context initial = Ok envelope s'
    /\ sort (Formatter.compareFn host) (map toFormatter (result_articles envelope))
       = map toFormatter (result_articles envelope).
Proof.
  intros F.
  destruct (Claims.execute_summary host fetch fuel context F) as (s1 & _ & W & _ & E).
  rewrite E. eexists _, _. split; [reflexivity|]. cbn [result_articles].
  apply FormatterExtras.sort_fixed. apply StronglySorted_map.
  destruct (sort_by_time (compareFn host) (getTime host)
              (Claims.compareFn_time host) (articles s1)) as (_ & S & _).
  eapply StronglySorted_In_impl; [|apply S].
  - intros a b _ _ (ta & tb & Ta & Tb & L).
    change (Formatter.compareFn host (toFormatter a) (toFormatter b))
      with (compareFn host a b).
    rewrite Claims.compareFn_time, Ta, Tb. lia.
  - intros a Ia. rewrite Forall_forall in W.
    apply (Claims.getTime_fromWindow host fetch _ _ a (W a Ia)).
Qed.

Lemma formatter_keeps_the_order_of_the_scraper_witness :
  exists envelope s',
    execute utc july_window_site 6 july_2023 initial = Ok envelope s'
    /\ sort (Formatter.compareFn utc) (map toFormatter (result_articles envelope))
       = map toFormatter (result_articles envelope).
Proof.
  apply (formatter_keeps_the_order_of_the_scraper utc july_window_site 6 july_2023).
  vm_compute. lia.
Defined.

End PipelineExtras.
